(** * Vector to Scalar Volume: the scripted module and the download helpers

    A shallow embedding of
      - Modules/Scripted/VectorToScalarVolume/VectorToScalarVolume.py
        (parameter node, validation, [run] and the three conversion
        pipelines, the self test; the two context managers and, of the
        widget, the Apply button), and
      - Base/Python/slicer/util.py ([downloadFile], [extractArchive],
        [downloadAndExtractArchive]; [VTKObservationMixin], the message
        boxes, [tryWithErrorDisplay], [WaitCursor] and [chdir]).

    Python objects live in a store addressed by references; a call either
    returns or raises, and what it changed before raising stays changed.
    The image filters of the host library are data: a filter chain is a
    value of [Port], and [GetOutput] is the image it produces. *)

From Stdlib Require Import ZArith List String Ascii Lia DecimalString.
From Stdlib Require Import PrimFloat SpecFloat FloatOps.
From stdpp Require Import base option list gmap.

Set Warnings "-inexact-float,-register-all".
Set Default Proof Using "Type".

Open Scope string_scope.
Open Scope Z_scope.

(** ** Scalars and scalar types of the host image library *)

Module VTK.

(** The scalar type tags of an image ([vtk.VTK_FLOAT], [vtk.VTK_DOUBLE], ...). *)
Inductive ScalarTypeTag :=
| VTK_CHAR | VTK_SIGNED_CHAR | VTK_UNSIGNED_CHAR
| VTK_SHORT | VTK_UNSIGNED_SHORT
| VTK_INT | VTK_UNSIGNED_INT
| VTK_LONG | VTK_UNSIGNED_LONG
| VTK_LONG_LONG | VTK_UNSIGNED_LONG_LONG
| VTK_FLOAT | VTK_DOUBLE.

#[global] Instance ScalarTypeTag_eq_dec : EqDecision ScalarTypeTag.
Proof. solve_decision. Defined.

(** The integer value of each tag, as in vtkType.h; the source compares these. *)
Definition tagValue (t : ScalarTypeTag) : Z :=
  match t with
  | VTK_CHAR => 2 | VTK_SIGNED_CHAR => 15 | VTK_UNSIGNED_CHAR => 3
  | VTK_SHORT => 4 | VTK_UNSIGNED_SHORT => 5
  | VTK_INT => 6 | VTK_UNSIGNED_INT => 7
  | VTK_LONG => 8 | VTK_UNSIGNED_LONG => 9
  | VTK_LONG_LONG => 16 | VTK_UNSIGNED_LONG_LONG => 17
  | VTK_FLOAT => 10 | VTK_DOUBLE => 11
  end.

(** Width in bits and signedness of the integer types (LP64). *)
Definition intFormat (t : ScalarTypeTag) : option (Z * bool) :=
  match t with
  | VTK_CHAR | VTK_SIGNED_CHAR => Some (8, true)
  | VTK_UNSIGNED_CHAR => Some (8, false)
  | VTK_SHORT => Some (16, true)
  | VTK_UNSIGNED_SHORT => Some (16, false)
  | VTK_INT => Some (32, true)
  | VTK_UNSIGNED_INT => Some (32, false)
  | VTK_LONG | VTK_LONG_LONG => Some (64, true)
  | VTK_UNSIGNED_LONG | VTK_UNSIGNED_LONG_LONG => Some (64, false)
  | VTK_FLOAT | VTK_DOUBLE => None
  end.

(** A voxel component: an integer for the integer types, a binary64 value
    for VTK_DOUBLE, and a binary64 value that is a binary32 for VTK_FLOAT. *)
Inductive Scalar :=
| SInt (z : Z)
| SReal (x : float).

(** [Z] to binary64, rounding to nearest even. *)
Definition floatOfZ (z : Z) : float :=
  SF2Prim (binary_normalize prec emax z 0 false).

(** binary64 to [Z], towards zero, as a C++ [static_cast] to an integer
    type does. NaN and the infinities (undefined in C++) give 0. *)
Definition truncate (x : float) : Z :=
  match Prim2SF x with
  | S754_finite s m e =>
      let a := if 0 <=? e then Z.pos m * 2 ^ e else Z.pos m / 2 ^ (- e) in
      if s then - a else a
  | _ => 0
  end.

(** binary64 rounded to the nearest binary32. *)
Definition roundToSingle (x : float) : float :=
  match Prim2SF x with
  | S754_finite s m e =>
      SF2Prim (binary_normalize 24 128 (if s then Z.neg m else Z.pos m) e s)
  | _ => x
  end.

(** An integer brought into a [w]-bit type, wrapping around. *)
Definition wrap (w : Z) (signed : bool) (z : Z) : Z :=
  let r := z mod 2 ^ w in
  if signed && (2 ^ (w - 1) <=? r) then r - 2 ^ w else r.

Definition toDouble (s : Scalar) : float :=
  match s with
  | SInt z => floatOfZ z
  | SReal x => x
  end.

(** [static_cast] of a component to the type tagged [t] (no clamping,
    which is the default of vtkImageCast). *)
Definition castTo (t : ScalarTypeTag) (s : Scalar) : Scalar :=
  match intFormat t with
  | Some (w, signed) =>
      SInt (wrap w signed (match s with SInt z => z | SReal x => truncate x end))
  | None =>
      match t with
      | VTK_FLOAT => SReal (roundToSingle (toDouble s))
      | _ => SReal (toDouble s)
      end
  end.

(** ** Image data *)

(** A [vtkImageData]: every voxel is a tuple of components. The number of
    components of a data array is clamped to at least 1 by the library,
    hence [positive]. *)
Record vtkImageData := {
  Dimensions : Z * Z * Z;
  ScalarType : ScalarTypeTag;
  NumberOfScalarComponents : positive;
  Voxels : list (list Scalar)
}.

Definition GetScalarType (img : vtkImageData) : ScalarTypeTag := ScalarType img.

Definition GetNumberOfScalarComponents (img : vtkImageData) : Z :=
  Z.pos (NumberOfScalarComponents img).

Definition fmin (a b : float) : float := if PrimFloat.ltb b a then b else a.
Definition fmax (a b : float) : float := if PrimFloat.ltb a b then b else a.

(** [GetScalarRange()]: minimum and maximum of component 0, as doubles. *)
Definition GetScalarRange (img : vtkImageData) : float * float :=
  let firsts := omap (fun v => option_map toDouble (head v)) (Voxels img) in
  match firsts with
  | [] => (0%float, 1%float)
  | x :: xs => (fold_left fmin xs x, fold_left fmax xs x)
  end.

(** ** Filter chains *)

(** The operations of vtkImageMathematics the module can reach: the
    default one (the sum of two inputs) and adding a constant. *)
Inductive MathOperation := VTK_ADD | VTK_ADDC.

(** An output port: the image source of a volume node, or a filter with
    its settings and the ports connected to its inputs. *)
Inductive Port :=
| ImageSource (img : option vtkImageData)
| ExtractComponents (components : list Z) (input : option Port)
| Luminance (input : option Port)
| Cast (outputScalarType : ScalarTypeTag) (input : option Port)
| WeightedSum (weights : list float) (normalizeByWeight : bool) (inputs : list Port)
| Mathematics (operation : MathOperation) (constantC : float) (input : option Port).

(** Component [c] of a voxel, when the voxel has it. *)
Definition component (v : list Scalar) (c : Z) : option Scalar :=
  if 0 <=? c then v !! Z.to_nat c else None.

(** vtkImageExtractComponents: the listed components of every voxel; a
    component the input does not have is an error (no output). *)
Definition extractComponents (components : list Z) (img : vtkImageData)
  : option vtkImageData :=
  if forallb (fun c => (0 <=? c) && (c <? GetNumberOfScalarComponents img)) components
  then
    Some {| Dimensions := Dimensions img;
            ScalarType := ScalarType img;
            NumberOfScalarComponents := Pos.of_nat (length components);
            Voxels := map (fun v => omap (component v) components) (Voxels img) |}
  else None.

(** vtkImageLuminance: 0.30*R + 0.59*G + 0.11*B of the first three
    components, cast to the input's type; one component. *)
Definition luminanceOf (t : ScalarTypeTag) (v : list Scalar) : list Scalar :=
  match v with
  | r :: g :: b :: _ =>
      [castTo t (SReal (0.30 * toDouble r + 0.59 * toDouble g + 0.11 * toDouble b)%float)]
  | _ => []
  end.

Definition luminance (img : vtkImageData) : option vtkImageData :=
  if 3 <=? GetNumberOfScalarComponents img
  then
    Some {| Dimensions := Dimensions img;
            ScalarType := ScalarType img;
            NumberOfScalarComponents := 1;
            Voxels := map (luminanceOf (ScalarType img)) (Voxels img) |}
  else None.

(** vtkImageCast *)
Definition cast (t : ScalarTypeTag) (img : vtkImageData) : vtkImageData :=
  {| Dimensions := Dimensions img;
     ScalarType := t;
     NumberOfScalarComponents := NumberOfScalarComponents img;
     Voxels := map (map (castTo t)) (Voxels img) |}.

(** vtkImageMathematics adding its constant, computed in the input's
    type. (Its default operation needs a second input, which no chain
    of the module connects: no output.) *)
Definition addConstant (c : float) (img : vtkImageData) : vtkImageData :=
  {| Dimensions := Dimensions img;
     ScalarType := ScalarType img;
     NumberOfScalarComponents := NumberOfScalarComponents img;
     Voxels := map (map (fun s => castTo (ScalarType img) (SReal (toDouble s + c)%float)))
                   (Voxels img) |}.

(** vtkImageWeightedSum: per voxel and component, [sum += weight * value]
    over the inputs in order, starting from 0, in double; divided by the
    total weight when normalising (and the total is not 0). The output
    is VTK_DOUBLE. Without an input there is no output. *)
Definition accumulate (w : float) (acc : list (list float)) (img : vtkImageData)
  : list (list float) :=
  zip_with (zip_with (fun a s => (a + w * toDouble s)%float)) acc (Voxels img).

Definition weightedSum (weights : list float) (normalizeByWeight : bool)
    (imgs : list vtkImageData) : option vtkImageData :=
  match imgs with
  | [] => None
  | first :: _ =>
      let zero := map (map (fun _ => 0%float)) (Voxels first) in
      let sums :=
        fold_left (fun acc wi => accumulate (fst wi) acc (snd wi)) (zip weights imgs) zero in
      let total := fold_left PrimFloat.add weights 0%float in
      let final x :=
        if normalizeByWeight && negb (PrimFloat.eqb total 0)
        then (x / total)%float else x in
      Some {| Dimensions := Dimensions first;
              ScalarType := VTK_DOUBLE;
              NumberOfScalarComponents := NumberOfScalarComponents first;
              Voxels := map (map (fun x => SReal (final x))) sums |}
  end.

(** The image a chain produces at a port once it is up to date, or
    nothing when the chain is not connected or a filter reports an error. *)
Fixpoint GetOutput (p : Port) : option vtkImageData :=
  match p with
  | ImageSource img => img
  | ExtractComponents cs i =>
      match i with Some q => GetOutput q ≫= extractComponents cs | None => None end
  | Luminance i =>
      match i with Some q => GetOutput q ≫= luminance | None => None end
  | Cast t i =>
      match i with Some q => cast t <$> GetOutput q | None => None end
  | WeightedSum ws nrm ins =>
      mapM GetOutput ins ≫= weightedSum ws nrm
  | Mathematics VTK_ADDC c i =>
      match i with Some q => addConstant c <$> GetOutput q | None => None end
  | Mathematics VTK_ADD _ _ => None
  end.

End VTK.

(** ** Python values, exceptions and the store *)

Module Python.

(** A reference to a volume node of the scene. *)
Abbreviation ref := positive (only parsing).

(** A 4x4 matrix, row by row. *)
Definition vtkMatrix4x4 := list float.

Definition identityMatrix : vtkMatrix4x4 :=
  [1; 0; 0; 0;  0; 1; 0; 0;  0; 0; 1; 0;  0; 0; 0; 1]%float.

(** What the module reads and writes of a volume node. *)
Record VolumeNode := {
  ID : option string;
  IJKToRASMatrix : vtkMatrix4x4;
  ImageData : option VTK.vtkImageData
}.

Inductive FilterClass :=
| vtkImageExtractComponents
| vtkImageLuminance
| vtkImageCast
| vtkImageWeightedSum
| vtkImageMathematics.

Inductive Receiver :=
| OnNode (r : ref)
| OnFilter (cls : FilterClass)
| OnDoubleArray.

(** A method call that the logic of the module makes as a statement of
    its own, for its effect on a node, a filter or an array. Calls in
    argument position only read. *)
Record Call := { receiver : Receiver; method : string }.


(** The exceptions the modelled code can raise. [ValueError] carries the
    argument it was built with. [DeadReference] stands for the use of a
    reference that denotes no object of the store; a running program has
    no such reference. *)
Inductive Exception :=
| ValueError (arg : option string)
| TypeError (msg : string)
| AttributeError (msg : string)
| NameError (msg : string)
| RuntimeError (msg : string)
| AssertionError
| FileNotFoundError (path : string)
| FileExistsError (path : string)
| IsADirectoryError (path : string)
| NotADirectoryError (path : string)
| URLError
| DeadReference (r : ref).

(** A computation over a world [W]: it returns or raises, and leaves a
    world either way. *)
Definition Run (W A : Type) : Type := W -> (Exception + A) * W.

#[global] Instance Run_ret {W} : MRet (Run W) := fun A a w => (inr a, w).

#[global] Instance Run_bind {W} : MBind (Run W) := fun A B f m w =>
  match m w with
  | (inl e, w') => (inl e, w')
  | (inr a, w') => f a w'
  end.

Definition raise {W A} (e : Exception) : Run W A := fun w => (inl e, w).

(** [try: body except: handler] *)
Definition tryExcept {W A} (body : Run W A) (handler : Exception -> Run W A) : Run W A :=
  fun w =>
    match body w with
    | (inl e, w') => handler e w'
    | (inr a, w') => (inr a, w')
    end.

(** The world of the scripted module: the nodes of the scene, and the
    calls made so far. *)
Record World := {
  scene : gmap positive VolumeNode;
  calls : list Call
}.

Abbreviation Py := (Run World).

Definition call (rcv : Receiver) (m : string) : Py unit := fun w =>
  (inr tt, {| scene := scene w; calls := calls w ++ [{| receiver := rcv; method := m |}] |}).

(** [for x in xs: s = body(x, s)] *)
Fixpoint forEach {W A S : Type} (xs : list A) (body : A -> S -> Run W S) (s : S)
  : Run W S :=
  match xs with
  | [] => mret s
  | x :: xs' => s' ← body x s; forEach xs' body s'
  end.

(** [range(n)] *)
Definition range (n : Z) : list Z := map Z.of_nat (seq 0 (Z.to_nat n)).

(** [str(n)] for an integer. *)
Definition str (n : Z) : string := NilZero.string_of_int (Z.to_int n).

Definition noAttribute (name : string) : Exception :=
  AttributeError ("'NoneType' object has no attribute '" ++ name ++ "'")%string.

(** Attribute access on a variable that may hold [None]. *)
Definition attribute {W A : Type} (v : option A) (name : string) : Run W A :=
  match v with
  | Some a => mret a
  | None => raise (noAttribute name)
  end.

(** *** Methods of volume nodes *)

Definition deref (r : ref) : Py (positive * VolumeNode) := fun w =>
  match scene w !! r with
  | Some n => (inr (r, n), w)
  | None => (inl (DeadReference r), w)
  end.

(** The node a variable holds, for a call of its method [name]. *)
Definition node (v : option ref) (name : string) : Py (positive * VolumeNode) :=
  r ← attribute v name; deref r.

Definition store (r : ref) (n : VolumeNode) : Py unit := fun w =>
  (inr tt, {| scene := <[r := n]> (scene w); calls := calls w |}).

Definition GetID (v : option ref) : Py (option string) :=
  '(_, n) ← node v "GetID"; mret (ID n).

Definition GetImageData (v : option ref) : Py (option VTK.vtkImageData) :=
  '(_, n) ← node v "GetImageData"; mret (ImageData n).

Definition GetImageDataConnection (v : option ref) : Py VTK.Port :=
  '(_, n) ← node v "GetImageDataConnection"; mret (VTK.ImageSource (ImageData n)).

(** [v.GetIJKToRASMatrix(m)] fills the matrix [m]; the filled matrix is returned. *)
Definition GetIJKToRASMatrix (v : option ref) : Py vtkMatrix4x4 :=
  '(r, n) ← node v "GetIJKToRASMatrix";
  call (OnNode r) "GetIJKToRASMatrix";;
  mret (IJKToRASMatrix n).

Definition SetIJKToRASMatrix (v : option ref) (m : vtkMatrix4x4) : Py unit :=
  '(r, n) ← node v "SetIJKToRASMatrix";
  call (OnNode r) "SetIJKToRASMatrix";;
  store r {| ID := ID n; IJKToRASMatrix := m; ImageData := ImageData n |}.

(** The node shows what the connected chain produces. *)
Definition SetImageDataConnection (v : option ref) (p : VTK.Port) : Py unit :=
  '(r, n) ← node v "SetImageDataConnection";
  call (OnNode r) "SetImageDataConnection";;
  store r {| ID := ID n; IJKToRASMatrix := IJKToRASMatrix n; ImageData := VTK.GetOutput p |}.

Definition SetAndObserveImageData (v : option ref) (img : option VTK.vtkImageData) : Py unit :=
  '(r, n) ← node v "SetAndObserveImageData";
  call (OnNode r) "SetAndObserveImageData";;
  store r {| ID := ID n; IJKToRASMatrix := IJKToRASMatrix n; ImageData := img |}.

(** *** Filter objects

    A filter object is the [Port] it offers: constructing it gives the
    library's defaults, every setter changes one setting. *)

Definition new (cls : FilterClass) : VTK.Port :=
  match cls with
  | vtkImageExtractComponents => VTK.ExtractComponents [0] None
  | vtkImageLuminance => VTK.Luminance None
  | vtkImageCast => VTK.Cast VTK.VTK_FLOAT None
  | vtkImageWeightedSum => VTK.WeightedSum [] true []
  | vtkImageMathematics => VTK.Mathematics VTK.VTK_ADD 0 None
  end.

Definition classOf (f : VTK.Port) : option FilterClass :=
  match f with
  | VTK.ImageSource _ => None
  | VTK.ExtractComponents _ _ => Some vtkImageExtractComponents
  | VTK.Luminance _ => Some vtkImageLuminance
  | VTK.Cast _ _ => Some vtkImageCast
  | VTK.WeightedSum _ _ _ => Some vtkImageWeightedSum
  | VTK.Mathematics _ _ _ => Some vtkImageMathematics
  end.

(** Calling method [name] of [f]: recorded when [f] is a filter. *)
Definition invoke (f : VTK.Port) (name : string) : Py unit :=
  match classOf f with
  | Some cls => call (OnFilter cls) name
  | None => raise (AttributeError name)
  end.

Definition unsupported {A : Type} (name : string) : Py A :=
  raise (AttributeError name).

Definition SetInputConnection (f p : VTK.Port) : Py VTK.Port :=
  invoke f "SetInputConnection";;
  mret match f with
       | VTK.ImageSource img => VTK.ImageSource img
       | VTK.ExtractComponents cs _ => VTK.ExtractComponents cs (Some p)
       | VTK.Luminance _ => VTK.Luminance (Some p)
       | VTK.Cast t _ => VTK.Cast t (Some p)
       | VTK.WeightedSum ws nrm _ => VTK.WeightedSum ws nrm [p]
       | VTK.Mathematics op c _ => VTK.Mathematics op c (Some p)
       end.

Definition AddInputConnection (f p : VTK.Port) : Py VTK.Port :=
  match f with
  | VTK.WeightedSum ws nrm ins =>
      invoke f "AddInputConnection";; mret (VTK.WeightedSum ws nrm (ins ++ [p]))
  | _ => unsupported "AddInputConnection"
  end.

Definition SetComponents (f : VTK.Port) (cs : list Z) : Py VTK.Port :=
  match f with
  | VTK.ExtractComponents _ i =>
      invoke f "SetComponents";; mret (VTK.ExtractComponents cs i)
  | _ => unsupported "SetComponents"
  end.

Definition SetOutputScalarType (f : VTK.Port) (t : VTK.ScalarTypeTag) : Py VTK.Port :=
  match f with
  | VTK.Cast _ i => invoke f "SetOutputScalarType";; mret (VTK.Cast t i)
  | _ => unsupported "SetOutputScalarType"
  end.

Definition SetOutputScalarTypeToDouble (f : VTK.Port) : Py VTK.Port :=
  match f with
  | VTK.Cast _ i =>
      invoke f "SetOutputScalarTypeToDouble";; mret (VTK.Cast VTK.VTK_DOUBLE i)
  | _ => unsupported "SetOutputScalarTypeToDouble"
  end.

Definition SetWeights (f : VTK.Port) (ws : list float) : Py VTK.Port :=
  match f with
  | VTK.WeightedSum _ nrm ins =>
      invoke f "SetWeights";; mret (VTK.WeightedSum ws nrm ins)
  | _ => unsupported "SetWeights"
  end.

Definition SetNormalizeByWeight (f : VTK.Port) (b : bool) : Py VTK.Port :=
  match f with
  | VTK.WeightedSum ws _ ins =>
      invoke f "SetNormalizeByWeight";; mret (VTK.WeightedSum ws b ins)
  | _ => unsupported "SetNormalizeByWeight"
  end.

Definition SetOperationToAddConstant (f : VTK.Port) : Py VTK.Port :=
  match f with
  | VTK.Mathematics _ c i =>
      invoke f "SetOperationToAddConstant";; mret (VTK.Mathematics VTK.VTK_ADDC c i)
  | _ => unsupported "SetOperationToAddConstant"
  end.

Definition SetConstantC (f : VTK.Port) (c : float) : Py VTK.Port :=
  match f with
  | VTK.Mathematics op _ i =>
      invoke f "SetConstantC";; mret (VTK.Mathematics op c i)
  | _ => unsupported "SetConstantC"
  end.

(** [f.Update()] brings the output of [f] up to date. *)
Definition Update (f : VTK.Port) : Py unit := invoke f "Update".

Definition GetOutputPort (f : VTK.Port) : VTK.Port := f.

Definition GetOutput (f : VTK.Port) : option VTK.vtkImageData := VTK.GetOutput f.

(** *** vtkDoubleArray *)

Definition vtkDoubleArray : list float := [].

(** Room for [n] values (their content is unspecified until set; 0 here). *)
Definition SetNumberOfValues (a : list float) (n : Z) : Py (list float) :=
  call OnDoubleArray "SetNumberOfValues";; mret (replicate (Z.to_nat n) 0%float).

Definition SetValue (a : list float) (i : Z) (x : float) : Py (list float) :=
  call OnDoubleArray "SetValue";; mret (<[Z.to_nat i := x]> a).

End Python.

(** ** VectorToScalarVolume.py *)

Module VectorToScalarVolume.
Import VTK Python.

(** [class ConversionMethods(enum.Enum)] *)
Inductive ConversionMethods := LUMINANCE | AVERAGE | SINGLE_COMPONENT.

#[global] Instance ConversionMethods_eq_dec : EqDecision ConversionMethods.
Proof. solve_decision. Defined.

(** The value of a member: its title and its tool tip. *)
Definition value (m : ConversionMethods) : string * string :=
  match m with
  | LUMINANCE =>
      ("Luminance",
       "(RGB,RGBA) Luminance from first three components: 0.30*R + 0.59*G + 0.11*B + 0.0*A)")
  | AVERAGE => ("Average", "Average all the components.")
  | SINGLE_COMPONENT => ("Single Component Extraction", "Extract single component")
  end.

(** [class VectorToScalarVolumeParameterNode]: the two node selections
    hold a node or [None]. *)
Record VectorToScalarVolumeParameterNode := {
  InputVolume : option ref;
  OutputVolume : option ref;
  ConversionMethod : ConversionMethods;
  ComponentToExtract : Z
}.

(** An object that is no member of [ConversionMethods], as the operator
    [%] sees it: a tuple, with the [%s] texts of its items (the value of
    a member is such a tuple), or an object of another kind, with its
    [%s] text. *)
Inductive Object :=
| Tuple (items : list string)
| NoTuple (text : string).

(** What [isValidInputOutputData] may be handed as conversion method: a
    member of [ConversionMethods], or any other object. *)
Inductive MethodArgument :=
| Member (m : ConversionMethods)
| Other (object : Object).

(** [format % object] for a format with one [%s], given by the texts
    before and after it: a tuple holds the arguments of the format, one
    for each conversion, so that a tuple of no item or of several raises
    a [TypeError]; an object of another kind is the one argument. *)
Definition percent {W : Type} (before after : string) (object : Object) : Run W string :=
  match object with
  | Tuple [] => raise (TypeError "not enough arguments for format string")
  | Tuple [item] | NoTuple item => mret (before ++ item ++ after)
  | Tuple _ => raise (TypeError "not all arguments converted during string formatting")
  end.

(** [x is m] for a member [m]. *)
Definition is_ (x m : ConversionMethods) : bool := bool_decide (x = m).

(** [VectorToScalarVolumeLogic.isValidInputOutputData]; messages are the
    untranslated ones. The debug log lines are left out throughout. *)
Definition isValidInputOutputData (inputVolumeNode outputVolumeNode : option ref)
    (conversionMethod : MethodArgument) (componentToExtract : Z)
  : Py (bool * option string) :=
  if bool_decide (inputVolumeNode = None) then
    mret (false, Some "no input volume node defined")
  else if bool_decide (outputVolumeNode = None) then
    mret (false, Some "no output volume node defined")
  else
    inputID ← GetID inputVolumeNode;
    outputID ← GetID outputVolumeNode;
    if bool_decide (inputID = outputID) then
      mret (false, Some ("input and output volume is the same. "
                         ++ "Create a new volume for output to avoid this error."))
    else
      match conversionMethod with
      | Other object =>
          msg ← percent "conversionMethod " " unrecognized." object;
          mret (false, Some msg)
      | Member conversionMethod =>
          inputImage ← GetImageData inputVolumeNode;
          inputImage ← attribute inputImage "GetNumberOfScalarComponents";
          let numberOfComponents := GetNumberOfScalarComponents inputImage in
          if is_ conversionMethod SINGLE_COMPONENT
             && negb ((0 <=? componentToExtract) && (componentToExtract <? numberOfComponents))
          then
            mret (false, Some ("component to extract (" ++ str componentToExtract
                               ++ ") is invalid. Image has only " ++ str numberOfComponents
                               ++ " components."))
          else if is_ conversionMethod LUMINANCE && (numberOfComponents <? 3) then
            mret (false, Some ("input has only " ++ str numberOfComponents
                               ++ " components but requires "
                               ++ "at least 3 components for luminance conversion."))
          else
            mret (true, None)
      end.

Definition runConversionMethodSingleComponent (inputVolumeNode outputVolumeNode : option ref)
    (componentToExtract : Z) : Py unit :=
  ijkToRAS ← GetIJKToRASMatrix inputVolumeNode;
  SetIJKToRASMatrix outputVolumeNode ijkToRAS;;

  let extract := new vtkImageExtractComponents in
  connection ← GetImageDataConnection inputVolumeNode;
  extract ← SetInputConnection extract connection;
  extract ← SetComponents extract [componentToExtract];
  Update extract;;
  SetImageDataConnection outputVolumeNode (GetOutputPort extract).

Definition runConversionMethodLuminance (inputVolumeNode outputVolumeNode : option ref)
  : Py unit :=
  ijkToRAS ← GetIJKToRASMatrix inputVolumeNode;
  SetIJKToRASMatrix outputVolumeNode ijkToRAS;;

  let extract := new vtkImageExtractComponents in
  connection ← GetImageDataConnection inputVolumeNode;
  extract ← SetInputConnection extract connection;
  extract ← SetComponents extract [0; 1; 2];
  let luminance := new vtkImageLuminance in
  luminance ← SetInputConnection luminance (GetOutputPort extract);
  Update luminance;;
  SetImageDataConnection outputVolumeNode (GetOutputPort luminance).

Definition runConversionMethodAverage (inputVolumeNode outputVolumeNode : option ref)
  : Py unit :=
  ijkToRAS ← GetIJKToRASMatrix inputVolumeNode;
  SetIJKToRASMatrix outputVolumeNode ijkToRAS;;

  inputImage ← GetImageData inputVolumeNode;
  inputImage ← attribute inputImage "GetNumberOfScalarComponents";
  let numberOfComponents := GetNumberOfScalarComponents inputImage in
  let weightedSum := new vtkImageWeightedSum in
  let weights := vtkDoubleArray in
  weights ← SetNumberOfValues weights numberOfComponents;
  let evenWeight := (1.0 / floatOfZ numberOfComponents)%float in
  weights ← forEach (range numberOfComponents)
              (fun comp weights => SetValue weights comp evenWeight) weights;
  weightedSum ← SetWeights weightedSum weights;

  weightedSum ← forEach (range numberOfComponents)
    (fun comp weightedSum =>
       let extract := new vtkImageExtractComponents in
       connection ← GetImageDataConnection inputVolumeNode;
       extract ← SetInputConnection extract connection;
       extract ← SetComponents extract [comp];
       Update extract;;
       let compToDouble := new vtkImageCast in
       compToDouble ← SetInputConnection compToDouble (GetOutputPort extract);
       compToDouble ← SetOutputScalarTypeToDouble compToDouble;
       AddInputConnection weightedSum (GetOutputPort compToDouble))
    weightedSum;

  weightedSum ← SetNormalizeByWeight weightedSum false;

  let castBack := new vtkImageCast in
  inputImage ← GetImageData inputVolumeNode;
  inputImage ← attribute inputImage "GetScalarType";
  let scalarType := GetScalarType inputImage in
  castBack ← SetOutputScalarType castBack scalarType;
  castBack ←
    (if (tagValue scalarType =? tagValue VTK_FLOAT)
        || (tagValue scalarType =? tagValue VTK_DOUBLE)
     then
       SetInputConnection castBack (GetOutputPort weightedSum)
     else
       let addConstant := new vtkImageMathematics in
       addConstant ← SetOperationToAddConstant addConstant;
       addConstant ← SetConstantC addConstant 0.5%float;
       addConstant ← SetInputConnection addConstant (GetOutputPort weightedSum);
       SetInputConnection castBack (GetOutputPort addConstant));
  Update castBack;;
  SetAndObserveImageData outputVolumeNode (GetOutput castBack).

(** [if c: body] *)
Definition when (c : bool) (body : Py unit) : Py unit :=
  if c then body else mret tt.

(** [VectorToScalarVolumeLogic.run]. [None] is a missing parameter node.
    The name [_t] used on that path is bound by none of the module's
    imports ([tr] is imported as [_]), so evaluating it raises. A raw
    scripted module node is first wrapped: it is given here as wrapped. *)
Definition run (parameterNode : option VectorToScalarVolumeParameterNode) : Py unit :=
  match parameterNode with
  | None => raise (NameError "name '_t' is not defined")
  | Some parameterNode =>
      let inputVolumeNode := InputVolume parameterNode in
      let outputVolumeNode := OutputVolume parameterNode in
      let conversionMethod := ConversionMethod parameterNode in
      let componentToExtract := ComponentToExtract parameterNode in

      '(valid, msg) ← isValidInputOutputData inputVolumeNode outputVolumeNode
                        (Member conversionMethod) componentToExtract;
      if negb valid then raise (ValueError msg)
      else
        when (is_ conversionMethod SINGLE_COMPONENT)
          (runConversionMethodSingleComponent inputVolumeNode outputVolumeNode
             componentToExtract);;
        when (is_ conversionMethod LUMINANCE)
          (runConversionMethodLuminance inputVolumeNode outputVolumeNode);;
        when (is_ conversionMethod AVERAGE)
          (runConversionMethodAverage inputVolumeNode outputVolumeNode)
  end.

(** [runWithVariables]: a parameter node with the given values, then [run]. *)
Definition runWithVariables (inputVolumeNode outputVolumeNode : option ref)
    (conversionMethod : ConversionMethods) (componentToExtract : Z) : Py unit :=
  let parameterNode :=
    {| InputVolume := inputVolumeNode;
       OutputVolume := outputVolumeNode;
       ConversionMethod := conversionMethod;
       ComponentToExtract := componentToExtract |} in
  run (Some parameterNode).

(** *** The self test and what it uses of the scene and of [slicer.util] *)

(** [slicer.mrmlScene.Clear()] *)
Definition Clear : Py unit := fun w => (inr tt, {| scene := ∅; calls := calls w |}).

(** [slicer.mrmlScene.AddNewNodeByClass(cls)]: a new node at a fresh
    reference, with an identifier made of its class name and the next
    free number for that class, the identity matrix and no image. *)
Definition AddNewNodeByClass (cls : string) : Py (option ref) := fun w =>
  let r := map_fold (fun k _ m => Pos.max (Pos.succ k) m) 1%positive (scene w) in
  let ofClass (n : VolumeNode) :=
    match ID n with Some s => String.prefix cls s | None => false end in
  let k := length (List.filter ofClass (snd <$> map_to_list (scene w))) in
  let n := {| ID := Some (cls ++ str (Z.of_nat (S k)));
              IJKToRASMatrix := identityMatrix;
              ImageData := None |} in
  (inr (Some r), {| scene := <[r := n]> (scene w); calls := calls w |}).

(** A numpy array: its shape, its element type and its elements in C order. *)
Record ndarray := {
  shape : list Z;
  dtype : ScalarTypeTag;
  elements : list Scalar
}.

(** [np.zeros(shape, dtype)] *)
Definition zeros (shape : list Z) (dtype : ScalarTypeTag) : ndarray :=
  {| shape := shape; dtype := dtype;
     elements := replicate (Z.to_nat (fold_right Z.mul 1 shape)) (castTo dtype (SInt 0)) |}.

(** [a[..., c] = x]: [x] at index [c] of the last axis, everywhere. *)
Definition setLastAxis (a : ndarray) (c : Z) (x : Z) : ndarray :=
  let k := Z.to_nat (default 1 (last (shape a))) in
  {| shape := shape a; dtype := dtype a;
     elements :=
       imap (fun i e => if bool_decide ((i mod k)%nat = Z.to_nat c)
                        then castTo (dtype a) (SInt x) else e)
            (elements a) |}.

(** [slicer.util.updateVolumeFromArray] *)
Definition updateVolumeFromArray (volumeNode : option ref) (narray : ndarray) : Py unit :=
  let vshape := rev (shape narray) in
  '(vcomponents, vshape, narray) ←
    match vshape with
    | [_] =>
        (* copied into np.zeros([1, 1, n]), an array of doubles *)
        mret (1, (vshape ++ [1; 1])%list,
              {| shape := ([1; 1] ++ shape narray)%list; dtype := VTK_DOUBLE;
                 elements := map (castTo VTK_DOUBLE) (elements narray) |})
    | [_; _] =>
        mret (1, (vshape ++ [1])%list,
              {| shape := ([1] ++ shape narray)%list; dtype := VTK_DOUBLE;
                 elements := map (castTo VTK_DOUBLE) (elements narray) |})
    | [_; _; _] => mret (1, vshape, narray)
    | [c; i; j; k] => mret (c, [i; j; k], narray)
    | _ => raise (RuntimeError "Unsupported numpy array shape")
    end;
  _ ← GetImageData volumeNode;
  let vtype := dtype narray in
  if bool_decide (vtype = VTK_LONG_LONG) then
    raise (RuntimeError "Unsupported numpy array type: long long")
  else
    let vcomponents := Z.to_pos vcomponents in
    let vimage :=
      {| Dimensions := (nth 0 vshape 0, nth 1 vshape 0, nth 2 vshape 0);
         ScalarType := vtype;
         NumberOfScalarComponents := vcomponents;
         Voxels := reshape (replicate (length (elements narray) / Pos.to_nat vcomponents)
                                      (Pos.to_nat vcomponents))
                           (elements narray) |} in
    '(r, n) ← node volumeNode "SetAndObserveImageData";
    store r {| ID := ID n; IJKToRASMatrix := IJKToRASMatrix n; ImageData := Some vimage |}.

(** [self.assertEqual(x, k)] for a double [x] and an integer [k]. *)
Definition assertEqual (x : float) (k : Z) : Py unit :=
  if PrimFloat.eqb x (floatOfZ k) then mret tt else raise AssertionError.

(** [outputVolume.GetImageData().GetScalarRange()] *)
Definition scalarRangeOf (volume : option ref) : Py (float * float) :=
  image ← GetImageData volume;
  image ← attribute image "GetScalarRange";
  mret (GetScalarRange image).

(** The input data of the test: 7x8x9 voxels of (30, 50, 100), uint8. *)
Definition testVoxels : ndarray :=
  let voxels := zeros [7; 8; 9; 3] VTK_UNSIGNED_CHAR in
  let voxels := setLastAxis voxels 0 30 in
  let voxels := setLastAxis voxels 1 50 in
  setLastAxis voxels 2 100.

(** [VectorToScalarVolumeTest.setUp] and [test_VectorToScalarVolume1] *)
Definition setUp : Py unit := Clear.

Definition test_VectorToScalarVolume1 : Py unit :=
  inputVolume ← AddNewNodeByClass "vtkMRMLVectorVolumeNode";
  updateVolumeFromArray inputVolume testVoxels;;
  outputVolume ← AddNewNodeByClass "vtkMRMLScalarVolumeNode";

  runWithVariables inputVolume outputVolume SINGLE_COMPONENT 0;;
  outputScalarRange ← scalarRangeOf outputVolume;
  assertEqual (fst outputScalarRange) 30;;
  assertEqual (snd outputScalarRange) 30;;

  runWithVariables inputVolume outputVolume SINGLE_COMPONENT 1;;
  outputScalarRange ← scalarRangeOf outputVolume;
  assertEqual (fst outputScalarRange) 50;;
  assertEqual (snd outputScalarRange) 50;;

  runWithVariables inputVolume outputVolume LUMINANCE 0;;
  outputScalarRange ← scalarRangeOf outputVolume;
  assertEqual (fst outputScalarRange) 49;;
  assertEqual (snd outputScalarRange) 49;;

  runWithVariables inputVolume outputVolume AVERAGE 0;;
  outputScalarRange ← scalarRangeOf outputVolume;
  assertEqual (fst outputScalarRange) 60;;
  assertEqual (snd outputScalarRange) 60.

Definition runTest : Py unit := setUp;; test_VectorToScalarVolume1.

(** The world the test converts in: the two nodes, the input filled. *)
Definition testWorld : World :=
  snd ((setUp;;
        inputVolume ← AddNewNodeByClass "vtkMRMLVectorVolumeNode";
        updateVolumeFromArray inputVolume testVoxels;;
        AddNewNodeByClass "vtkMRMLScalarVolumeNode")
         {| scene := ∅; calls := [] |}).

(** The image of the test's output node after one conversion of the test input. *)
Definition convertedTestImage (conversionMethod : ConversionMethods) (componentToExtract : Z)
  : option vtkImageData :=
  let w := snd (runWithVariables (Some 1%positive) (Some 2%positive)
                  conversionMethod componentToExtract testWorld) in
  scene w !! 2%positive ≫= ImageData.

End VectorToScalarVolume.

(** ** slicer/util.py: downloading and extracting *)

Module Util.
Import Python.

(** *** Strings *)

Definition chars (s : string) : list ascii := list_ascii_of_string s.

(** [s.split(":")] *)
Fixpoint splitOn (sep : ascii) (s : list ascii) : list (list ascii) :=
  match s with
  | [] => [[]]
  | c :: s' =>
      if bool_decide (c = sep) then [] :: splitOn sep s'
      else match splitOn sep s' with
           | [] => [[c]]
           | part :: parts => (c :: part) :: parts
           end
  end.

Definition split (sep : ascii) (s : string) : list string :=
  map string_of_list_ascii (splitOn sep (chars s)).

(** [s.lower()], on the letters A to Z. *)
Definition lowerChar (c : ascii) : ascii :=
  let n := nat_of_ascii c in
  if (65 <=? n)%nat && (n <=? 90)%nat then ascii_of_nat (n + 32) else c.

Definition lower (s : string) : string :=
  string_of_list_ascii (map lowerChar (chars s)).

(** [os.path.splitext(path)[1]]: from the last dot of the last path
    component, leading dots of the component apart. *)
Definition basename (path : list ascii) : list ascii :=
  default [] (last (splitOn "/"%char path)).

Fixpoint stripDots (s : list ascii) : list ascii :=
  match s with
  | c :: s' => if bool_decide (c = "."%char) then stripDots s' else s
  | [] => []
  end.

Definition extension (path : string) : string :=
  let name := stripDots (basename (chars path)) in
  match rev (splitOn "."%char name) with
  | ext :: _ :: _ => string_of_list_ascii ("."%char :: ext)
  | _ => ""
  end.

(** *** Paths

    A path is the text of its names with [/] between them, without [.]
    and [..] among the names and without a closing [/]; two paths are
    the same when their texts are. *)

(** The folders a path goes through: [a] and [a/b] for [a/b/c.txt]. *)
Fixpoint ancestorsFrom (before path : list ascii) : list string :=
  match path with
  | [] => []
  | c :: path' =>
      if bool_decide (c = "/"%char) then
        match before with
        | [] => ancestorsFrom [c] path'
        | _ => string_of_list_ascii before :: ancestorsFrom (before ++ [c]) path'
        end
      else ancestorsFrom (before ++ [c]) path'
  end.

Definition ancestors (path : string) : list string := ancestorsFrom [] (chars path).

(** [path] lies below the folder [directory], at any depth. *)
Definition below (directory path : string) : bool :=
  String.prefix (directory ++ "/") path.

(** *** The disk and the network *)

(** A regular file: its size, the digest of its content under each
    hashing algorithm, and, when it is a zip archive that extracts, the
    files it holds, each with its path inside the archive. *)
Inductive File := {
  st_size : Z;
  hexdigest : string -> string;
  entries : option (list (string * File))
}.

(** What a call of [urlretrieve] meets: no answer, an answer whose
    transfer fails after a part of the file was written, or the file. *)
Inductive Response :=
| Refused
| Broken (partial : File)
| Delivered (f : File).

(** The disk and the network: regular files by path, folders by path,
    the responses the coming [urlretrieve] calls meet, and the number of
    such calls so far. *)
Record Disk := {
  files : gmap string File;
  folders : gset string;
  network : list Response;
  retrievals : nat
}.

Abbreviation IO := (Run Disk).

(** The folder a path is in is there; a path of one name is in the
    working directory or in the root. *)
Definition inFolder (d : Disk) (path : string) : bool :=
  match last (ancestors path) with
  | Some parent => bool_decide (parent ∈ folders d)
  | None => true
  end.

(** [os.path.exists] *)
Definition exists_ (path : string) : IO bool := fun d =>
  (inr (bool_decide (is_Some (files d !! path)) || bool_decide (path ∈ folders d)), d).

(** [os.stat(path).st_size]; a folder has the size of its own entry. *)
Definition stat_size (path : string) : IO Z := fun d =>
  match files d !! path with
  | Some f => (inr (st_size f), d)
  | None =>
      if bool_decide (path ∈ folders d) then (inr 4096, d)
      else (inl (FileNotFoundError path), d)
  end.

(** [open(path, "rb")], for what is read of the file. *)
Definition open (path : string) : IO File := fun d =>
  match files d !! path with
  | Some f => (inr f, d)
  | None =>
      if bool_decide (path ∈ folders d) then (inl (IsADirectoryError path), d)
      else (inl (FileNotFoundError path), d)
  end.

(** [os.remove] *)
Definition remove (path : string) : IO unit := fun d =>
  match files d !! path with
  | Some _ =>
      (inr tt, {| files := delete path (files d); folders := folders d;
                  network := network d; retrievals := retrievals d |})
  | None =>
      if bool_decide (path ∈ folders d) then (inl (IsADirectoryError path), d)
      else (inl (FileNotFoundError path), d)
  end.

(** [shutil.rmtree]: the folder goes with all that is below it. *)
Definition rmtree (path : string) : IO unit := fun d =>
  if bool_decide (path ∈ folders d) then
    (inr tt, {| files := filter (fun entry => below path entry.1 = false) (files d);
                folders := filter (fun folder => folder <> path /\ below path folder = false)
                             (folders d);
                network := network d; retrievals := retrievals d |})
  else if bool_decide (is_Some (files d !! path)) then (inl (NotADirectoryError path), d)
  else (inl (FileNotFoundError path), d).

(** [os.mkdir] *)
Definition mkdir (path : string) : IO unit := fun d =>
  if bool_decide (is_Some (files d !! path)) || bool_decide (path ∈ folders d)
  then (inl (FileExistsError path), d)
  else if negb (inFolder d path) then (inl (FileNotFoundError path), d)
  else (inr tt, {| files := files d; folders := {[path]} ∪ folders d;
                   network := network d; retrievals := retrievals d |}).

(** [urllib.request.urlretrieve(url, targetFilePath)]: the address is
    opened, then the target file, then the content is copied. *)
Definition urlretrieve (url targetFilePath : string) : IO unit := fun d =>
  let answered (written : gmap string File) :=
    {| files := written; folders := folders d;
       network := tail (network d); retrievals := S (retrievals d) |} in
  let opened (f : File) (result : Exception + unit) :=
    if bool_decide (targetFilePath ∈ folders d) then
      (inl (IsADirectoryError targetFilePath), answered (files d))
    else if negb (inFolder d targetFilePath) then
      (inl (FileNotFoundError targetFilePath), answered (files d))
    else (result, answered (<[targetFilePath := f]> (files d))) in
  match network d with
  | [] | Refused :: _ => (inl URLError, answered (files d))
  | Broken f :: _ => opened f (inl URLError)
  | Delivered f :: _ => opened f (inr tt)
  end.

(** The paths of the files [os.walk(directory)] finds: all the files
    below the folder, at any depth; the walk of a path that is no folder
    finds nothing. *)
Definition walk (d : Disk) (directory : string) : list string :=
  if bool_decide (directory ∈ folders d)
  then filter (fun path => below directory path = true) (elements (dom (files d)))
  else [].

(** [getFilesInDirectory(directory, False)]: the names of the files. *)
Definition getFilesInDirectory (directory : string) : IO (list string) := fun d =>
  (inr (map (fun path => string_of_list_ascii (basename (chars path))) (walk d directory)), d).

(** [len(xs)] *)
Definition len {A : Type} (xs : list A) : Z := Z.of_nat (length xs).

(** What an extraction into [outputDir] writes: each file of the
    archive at its path below the folder, a later file over an earlier
    one of the same path. *)
Definition extracted (outputDir : string) (members : list (string * File))
    (before : gmap string File) : gmap string File :=
  foldl (fun written member => <[outputDir ++ "/" ++ member.1 := member.2]> written)
    before members.

(** [app.applicationLogic().Unzip(archiveFilePath, outputDir)], a
    function of the application: the files of an archive are written
    below the folder, over the files that are there, and the folders on
    their way are made. It fails, and nothing is written, for a file that
    is no archive that extracts, and when a folder is in the way of a
    file or a file in the way of a folder. *)
Definition Unzip (archiveFilePath outputDir : string) : IO bool := fun d =>
  match files d !! archiveFilePath ≫= entries with
  | Some members =>
      let paths := map (fun member => outputDir ++ "/" ++ member.1) members in
      let made := flat_map ancestors paths in
      if existsb (fun path => bool_decide (path ∈ folders d) || bool_decide (path ∈ made))
           paths
         || existsb (fun folder => bool_decide (is_Some (files d !! folder))) made
      then (inr false, d)
      else
        (inr true,
         {| files := extracted outputDir members (files d);
            folders := list_to_set made ∪ folders d;
            network := network d; retrievals := retrievals d |})
  | None => (inr false, d)
  end.

(** *** The functions *)

(** [extractAlgoAndDigest] *)
Definition extractAlgoAndDigest {W} (checksum : option string)
  : Run W (option string * option string) :=
  match checksum with
  | None => mret (None, None)
  | Some checksum =>
      match split ":"%char checksum with
      | [algo; digest] =>
          let expected_algos := ["SHA256"; "SHA512"; "MD5"] in
          if negb (bool_decide (algo ∈ expected_algos)) then
            raise (ValueError (Some ("invalid algo '" ++ algo ++ "'")))
          else
            let expected_digest_length :=
              if bool_decide (algo = "SHA256") then 64
              else if bool_decide (algo = "SHA512") then 128 else 32 in
            if negb (Z.of_nat (String.length digest) =? expected_digest_length) then
              raise (ValueError (Some "invalid digest length"))
            else mret (Some algo, Some digest)
      | _ => raise (ValueError (Some ("invalid checksum '" ++ checksum ++ "'")))
      end
  end.

(** [computeChecksum] *)
Definition computeChecksum (algo filePath : string) : IO string :=
  if negb (bool_decide (algo ∈ ["SHA256"; "SHA512"; "MD5"])) then
    raise (ValueError (Some ("unsupported hashing algorithm " ++ algo)))
  else
    content ← open filePath;
    mret (hexdigest content algo).

(** [downloadFile]. The function calls itself once at most, with
    [reDownloadIfChecksumInvalid=False]; [reDownloads] counts the calls
    it may still make (1 for [True], 0 for [False]). *)
Fixpoint downloadFileFrom (reDownloads : nat) (url targetFilePath : string)
    (checksum : option string) : IO bool :=
  parsed ← tryExcept (pair ← extractAlgoAndDigest checksum; mret (Some pair))
             (fun excinfo =>
                match excinfo with ValueError _ => mret None | _ => raise excinfo end);
  match parsed with
  | None => mret false
  | Some (algo, digest) =>
      present ← exists_ targetFilePath;
      size ← (if present then stat_size targetFilePath else mret 0);
      if negb present || (size =? 0) then
        retrieved ← tryExcept (urlretrieve url targetFilePath;; mret true)
                      (fun e => mret false);
        if negb retrieved then mret false
        else
          match algo with
          | Some algo =>
              current_digest ← computeChecksum algo targetFilePath;
              if negb (bool_decide (Some current_digest = digest)) then mret false
              else mret true
          | None => mret true
          end
      else
        match algo with
        | Some algo =>
            current_digest ← computeChecksum algo targetFilePath;
            if negb (bool_decide (Some current_digest = digest)) then
              match reDownloads with
              | S reDownloads =>
                  remove targetFilePath;;
                  downloadFileFrom reDownloads url targetFilePath checksum
              | O => mret false
              end
            else mret true
        | None => mret true
        end
  end.

Definition downloadFile (url targetFilePath : string) (checksum : option string)
    (reDownloadIfChecksumInvalid : bool) : IO bool :=
  downloadFileFrom (if reDownloadIfChecksumInvalid then 1 else 0)%nat
    url targetFilePath checksum.

(** [extractArchive] *)
Definition extractArchive (archiveFilePath outputDir : string)
    (expectedNumberOfExtractedFiles : option Z) : IO bool :=
  present ← exists_ archiveFilePath;
  if negb present then mret false
  else
    let fileExtension := extension archiveFilePath in
    if negb (bool_decide (lower fileExtension = ".zip")) then mret false
    else
      filesInOutputDir ← getFilesInDirectory outputDir;
      let numOfFilesInOutputDir := len filesInOutputDir in
      if bool_decide (expectedNumberOfExtractedFiles = Some numOfFilesInOutputDir)
      then mret true
      else
        extractSuccessful ← Unzip archiveFilePath outputDir;
        filesInOutputDir ← getFilesInDirectory outputDir;
        let numOfFilesInOutputDirTest := len filesInOutputDir in
        if negb extractSuccessful
           || (bool_decide (expectedNumberOfExtractedFiles <> None)
               && negb (bool_decide (expectedNumberOfExtractedFiles
                                     = Some numOfFilesInOutputDirTest)))
        then mret false
        else mret true.

(** The local [_cleanup] of [downloadAndExtractArchive]. *)
Definition _cleanup (archiveFilePath outputDir : string) : IO unit :=
  remove archiveFilePath;;
  rmtree outputDir;;
  mkdir outputDir.

(** [downloadAndExtractArchive]: one unit of [fuel] per test of the
    [while numberOfTrials:] condition; [None] when the fuel runs out. *)
Fixpoint downloadAndExtractArchive (fuel : nat) (url archiveFilePath outputDir : string)
    (expectedNumberOfExtractedFiles : option Z) (numberOfTrials : Z)
    (checksum : option string) : IO (option bool) :=
  match fuel with
  | O => mret None
  | S fuel =>
      if negb (numberOfTrials =? 0) then
        downloaded ← downloadFile url archiveFilePath checksum true;
        if negb downloaded then
          let numberOfTrials := numberOfTrials - 1 in
          _cleanup archiveFilePath outputDir;;
          downloadAndExtractArchive fuel url archiveFilePath outputDir
            expectedNumberOfExtractedFiles numberOfTrials checksum
        else
          extracted ← extractArchive archiveFilePath outputDir expectedNumberOfExtractedFiles;
          if negb extracted then
            let numberOfTrials := numberOfTrials - 1 in
            _cleanup archiveFilePath outputDir;;
            downloadAndExtractArchive fuel url archiveFilePath outputDir
              expectedNumberOfExtractedFiles numberOfTrials checksum
          else mret (Some true)
      else
        _cleanup archiveFilePath outputDir;;
        mret (Some false)
  end.

(** *** A download that succeeds at the second attempt *)

Definition notAnArchive : File :=
  {| st_size := 120; hexdigest := fun _ => ""; entries := None |}.

Definition slice : File :=
  {| st_size := 512; hexdigest := fun _ => ""; entries := None |}.

Definition goodArchive : File :=
  {| st_size := 2048; hexdigest := fun _ => "";
     entries := Some [("a.nrrd", slice); ("b.nrrd", slice); ("more/c.nrrd", slice)] |}.

(** The same archive with a digest, and the checksum that names it. *)
Definition signedArchive : File :=
  {| st_size := 2048;
     hexdigest := fun algo =>
       if bool_decide (algo = "MD5") then "0f343b0931126a20f133d67c2b018a3b" else "";
     entries := entries goodArchive |}.

Definition signature : string := "MD5:0f343b0931126a20f133d67c2b018a3b".

Definition flakyDisk : Disk :=
  {| files := ∅;
     folders := {[ "out" ]};
     network := [Delivered notAnArchive; Delivered goodArchive];
     retrievals := 0 |}.

End Util.

(** ** More statements of Python *)

Module Statements.
Import Python.

(** [for x in xs: body(x)] *)
Definition forAll {W A : Type} (xs : list A) (body : A -> Run W unit) : Run W unit :=
  forEach xs (fun x _ => body x) tt.

(** [with manager as x: body(x)] for a context manager given by its
    [__enter__] and its [__exit__], where [__exit__] returns [None]: it
    runs whether the body returns or raises, and an exception of the
    body goes on once it has run. *)
Definition with_ {W X A : Type} (enter : Run W X) (exit : Run W unit) (body : X -> Run W A)
  : Run W A :=
  x ← enter;
  ((fun w =>
      match body x w with
      | (inl e, w') => (exit;; raise e) w'
      | (inr result, w') => (exit;; mret result) w'
      end) : Run W A).

End Statements.
(** ** A Python [dict] *)

Module Dict.

(** The items in insertion order; the operations keep every key once. *)
Abbreviation dict K V := (list (K * V)).

(** [d.get(k)], [None] for [KeyError] where the source indexes. *)
Fixpoint get {K V : Type} `{EqDecision K} (k : K) (d : dict K V) : option V :=
  match d with
  | [] => None
  | (k', v) :: d' => if decide (k' = k) then Some v else get k d'
  end.

(** [d[k] = v]: a key that is there keeps its place, a new one goes last. *)
Fixpoint set {K V : Type} `{EqDecision K} (k : K) (v : V) (d : dict K V) : dict K V :=
  match d with
  | [] => [(k, v)]
  | (k', v') :: d' =>
      if decide (k' = k) then (k', v) :: d' else (k', v') :: set k v d'
  end.

(** The dict once [d.pop(k)] has taken [k] out. *)
Definition remove {K V : Type} `{EqDecision K} (k : K) (d : dict K V) : dict K V :=
  filter (fun kv => kv.1 <> k) d.

(** [d.setdefault(k, v)]: the value at [k], put there when [k] is new. *)
Definition setdefault {K V : Type} `{EqDecision K} (k : K) (v : V) (d : dict K V)
  : V * dict K V :=
  match get k d with
  | Some v' => (v', d)
  | None => (v, (d ++ [(k, v)])%list)
  end.

(** The value at [k] replaced by its image, as a change made through a
    reference to that value. *)
Definition update {K V : Type} `{EqDecision K} (k : K) (f : V -> V) (d : dict K V)
  : dict K V :=
  match get k d with
  | Some v => set k (f v) d
  | None => d
  end.

Definition keys {K V : Type} (d : dict K V) : list K := map fst d.

End Dict.

(** ** slicer/util.py: VTKObservationMixin *)

Module VTKObservationMixin.
Import Python Statements Dict.

(** A callback: a bound method, by its name. *)
Abbreviation Method := string.

(** What an object keeps of an observer added to it. *)
Record Observer := {
  event : Z;
  command : Method;
  priority : float
}.

(** The observers of a [vtkObject], by tag. Tags count up from 1; they
    are [unsigned long] in the library, and their wrap-around after 2^64
    observers is left out. *)
Record vtkObject := {
  Count : Z;
  Observers : gmap Z Observer
}.

Definition newObject : vtkObject := {| Count := 1; Observers := ∅ |}.

(** [(group, tag, priority)] *)
Abbreviation Entry := (string * Z * float)%type.

Abbreviation Methods := (dict Method Entry).
Abbreviation Events := (dict Z Methods).

(** The mixin with its [__observations]
    ([{obj: {event: {method: (group, tag, priority)}}}]), the objects it
    observes, and the warnings given so far. A variable holds an object
    or [None]; an object no observer was added to is not in the map. *)
Record State := {
  observations : dict (option ref) Events;
  objects : gmap positive vtkObject;
  warnings : list string
}.

Abbreviation Obs := (Run State).

Definition object (s : State) (r : ref) : vtkObject := default newObject (objects s !! r).

(** [warnings.warn] *)
Definition warn (text : string) : Obs unit := fun s =>
  (inr tt, {| observations := observations s; objects := objects s;
              warnings := (warnings s ++ [text])%list |}).

(** [obj.AddObserver(event, method, priority)] *)
Definition AddObserver (obj : option ref) (event : Z) (method : Method) (priority : float)
  : Obs Z :=
  r ← attribute obj "AddObserver";
  ((fun s =>
      let o := object s r in
      let tag := Count o in
      (inr tag,
       {| observations := observations s;
          objects := <[r := {| Count := tag + 1;
                               Observers := <[tag := {| event := event; command := method;
                                                        priority := priority |}]>
                                              (Observers o) |}]>
                       (objects s);
          warnings := warnings s |})) : Obs Z).

(** [obj.RemoveObserver(tag)] *)
Definition RemoveObserver (obj : option ref) (tag : Z) : Obs unit :=
  r ← attribute obj "RemoveObserver";
  ((fun s =>
      let o := object s r in
      (inr tt,
       {| observations := observations s;
          objects := <[r := {| Count := Count o; Observers := delete tag (Observers o) |}]>
                       (objects s);
          warnings := warnings s |})) : Obs unit).

(** Reading and changing [self.__observations]. *)
Definition read : Obs (dict (option ref) Events) := fun s => (inr (observations s), s).

Definition write (f : dict (option ref) Events -> dict (option ref) Events) : Obs unit :=
  fun s =>
    (inr tt, {| observations := f (observations s); objects := objects s;
                warnings := warnings s |}).

(** [__init__] *)
Definition __init__ : Obs unit := write (fun _ => []).

(** The property [Observations] *)
Definition Observations : Obs (list (option ref * Z * Method * string * Z * float)) :=
  observations ← read;
  mret (flat_map (fun '(obj, events) =>
          flat_map (fun '(event, methods) =>
            map (fun '(method, (group, tag, priority)) =>
                   (obj, event, method, group, tag, priority))
                (methods : Methods))
            (events : Events))
          observations).

(** The dict of the methods of an event of an object, as it is when it
    is used: the loops of [removeObservers] hold the dict itself. *)
Definition methodsOf (obj : option ref) (event : Z) : Obs Methods :=
  observations ← read;
  mret (default [] (events ← get obj observations; get event events)).

(** [removeObservers] *)
Definition removeObservers (method : option Method) : Obs unit :=
  match method with
  | None =>
      all ← Observations;
      forAll all (fun '(obj, _, _, _, tag, _) => RemoveObserver obj tag);;
      write (fun _ => [])
  | Some method =>
      observations ← read;
      forAll observations (fun '(obj, events) =>
        forAll events (fun '(e, _) =>
          methods ← methodsOf obj e;
          match get method methods with
          | Some (g, t, p) =>
              write (update obj (update e (remove method)));;
              RemoveObserver obj t
          | None => mret tt
          end))
  end.

(** [addObserver] *)
Definition addObserver (obj : option ref) (event : Z) (method : Method)
    (group : string) (priority : float) : Obs unit :=
  observations ← read;
  let '(events, observations) := setdefault obj [] observations in
  write (fun _ => observations);;
  let '(methods, events) := setdefault event [] events in
  write (set obj events);;

  if bool_decide (is_Some (get method methods)) then
    warn "already has observer"
  else
    tag ← AddObserver obj event method priority;
    write (update obj (update event (set method (group, tag, priority)))).

(** [removeObserver]; an index that raises [KeyError] is a [get] that
    gives [None]. *)
Definition removeObserver (obj : option ref) (event : Z) (method : Method) : Obs unit :=
  observations ← read;
  match events ← get obj observations; methods ← get event events; get method methods with
  | Some (group, tag, priority) =>
      write (update obj (update event (remove method)));;
      RemoveObserver obj tag
  | None => warn "does not have observer"
  end.

(** [getObserver] *)
Definition getObserver (obj : option ref) (event : Z) (method : Method)
    (default : option Entry) : Obs (option Entry) :=
  observations ← read;
  match events ← get obj observations; methods ← get event events; get method methods with
  | Some (group, tag, priority) => mret (Some (group, tag, priority))
  | None => mret default
  end.

(** [hasObserver] *)
Definition hasObserver (obj : option ref) (event : Z) (method : Method) : Obs bool :=
  found ← getObserver obj event method None;
  mret (bool_decide (is_Some found)).

(** [observer]: the first object, in the order of [__observations], that
    has the observer. *)
Fixpoint firstObserving (objs : list (option ref)) (event : Z) (method : Method)
    (default : option ref) : Obs (option ref) :=
  match objs with
  | [] => mret default
  | obj :: objs' =>
      observing ← hasObserver obj event method;
      if (observing : bool) then mret obj else firstObserving objs' event method default
  end.

Definition observer (event : Z) (method : Method) (default : option ref)
  : Obs (option ref) :=
  observations ← read;
  firstObserving (keys observations) event method default.

End VTKObservationMixin.

(** ** VectorToScalarVolume.py: the context managers *)

Module ContextManagers.
Import Python Statements Dict.

(** The values of the properties of the examples. *)
Inductive Value :=
| VNone
| VBool (b : bool)
| VInt (z : Z)
| VStr (s : string).

(** A [QObject]: its properties and attributes by name, and whether its
    signals are blocked. *)
Record QObject := {
  attributes : gmap string Value;
  signalsBlocked : bool
}.

(** The objects of the user interface, by reference. *)
Abbreviation Gui := (Run (gmap positive QObject)).

Definition object (qobject : ref) : Gui QObject := fun w =>
  match w !! qobject with
  | Some o => (inr o, w)
  | None => (inl (DeadReference qobject), w)
  end.

(** [getattr(qobject, name)] *)
Definition getattr (qobject : ref) (name : string) : Gui Value :=
  o ← object qobject;
  match attributes o !! name with
  | Some v => mret v
  | None => raise (AttributeError name)
  end.

(** [setattr(qobject, name, value)] *)
Definition setattr (qobject : ref) (name : string) (value : Value) : Gui unit :=
  o ← object qobject;
  ((fun w =>
      (inr tt, <[qobject := {| attributes := <[name := value]> (attributes o);
                               signalsBlocked := signalsBlocked o |}]> w)) : Gui unit).

(** [qobject.blockSignals(block)] returns the previous value of
    [signalsBlocked()]. *)
Definition blockSignals (qobject : ref) (block : bool) : Gui bool :=
  o ← object qobject;
  ((fun w =>
      (inr (signalsBlocked o),
       <[qobject := {| attributes := attributes o; signalsBlocked := block |}]> w))
   : Gui bool).

(** [previousValues[propertyName]]: the key is there, the first loop
    has put it; a miss would be a [KeyError], which the exceptions of
    the model do not have. *)
Definition item (previousValues : dict string Value) (propertyName : string) : Gui Value :=
  match get propertyName previousValues with
  | Some v => mret v
  | None => raise (RuntimeError "KeyError")
  end.

(** [with MyScopedQtPropertySetter(qobject, properties): body]. The
    generator made into a context manager yields once, outside any
    [try]: the statement runs the code before the [yield], the body and
    the code after the [yield], and an exception of any of them ends it. *)
Definition MyScopedQtPropertySetter {A : Type} (qobject : ref)
    (properties : dict string Value) (body : Gui A) : Gui A :=
  let previousValues : dict string Value := [] in
  previousValues ← forEach properties
    (fun '(propertyName, propertyValue) previousValues =>
       previous ← getattr qobject propertyName;
       let previousValues := set propertyName previous previousValues in
       setattr qobject propertyName propertyValue;;
       mret previousValues)
    previousValues;
  result ← body;
  forAll (keys properties)
    (fun propertyName =>
       previous ← item previousValues propertyName;
       setattr qobject propertyName previous);;
  mret result.

(** [zip(xs, ys, strict=True)] in a [for]: the body runs on the pairs;
    reaching the end of one list before the other raises. *)
Definition forZipStrict {A B : Type} (xs : list A) (ys : list B) (body : A -> B -> Gui unit)
  : Gui unit :=
  forAll (zip xs ys) (fun '(x, y) => body x y);;
  if bool_decide (length xs = length ys) then mret tt
  else raise (ValueError (Some "zip() arguments have different lengths")).

(** [with MyObjectsBlockSignals(q1, q2, ...): body] *)
Definition MyObjectsBlockSignals {A : Type} (qobjects : list ref) (body : Gui A) : Gui A :=
  let previousValues : list bool := [] in
  previousValues ← forEach qobjects
    (fun qobject previousValues =>
       previous ← blockSignals qobject true;
       mret (previousValues ++ [previous])%list)
    previousValues;
  result ← body;
  forZipStrict qobjects previousValues
    (fun qobject previousValue => blockSignals qobject previousValue;; mret tt);;
  mret result.

End ContextManagers.

(** ** slicer/util.py: cursors, message boxes and error display *)

Module Display.
Import Python Statements.

(** [qt.Qt.WaitCursor] is the one cursor shape the code sets. *)
Inductive CursorShape := Qt_WaitCursor.

(** What a display function hands back: [None], a [bool], or the
    standard button (an [int]) a message box was closed with. *)
Inductive Answer :=
| AnswerNone
| AnswerBool (b : bool)
| AnswerButton (button : Z).

(** The standard buttons of [qt.QMessageBox]. *)
Definition QMessageBox_NoButton : Z := 0.
Definition QMessageBox_Ok : Z := 1024.
Definition QMessageBox_Yes : Z := 16384.
Definition QMessageBox_No : Z := 65536.
Definition QMessageBox_Retry : Z := 524288.
Definition QMessageBox_Close : Z := 2097152.
Definition QMessageBox_Cancel : Z := 4194304.

(** [answer == button]; a [bool] is the integer 0 or 1. *)
Definition equalsButton (answer : Answer) (button : Z) : bool :=
  match answer with
  | AnswerNone => false
  | AnswerBool b => (if b then 1 else 0) =? button
  | AnswerButton b => b =? button
  end.

(** The application: the scene, the stack of override cursors (the top
    first), whether it runs in testing mode, whether it has a main
    window, the texts of the message boxes raised and of the
    auto-closing popups shown so far, the buttons the user closes the
    coming message boxes with, and the volume the selection node has as
    active and the slice views show. Logging is left out. *)
Record Application := {
  mrmlScene : World;
  overrideCursors : list CursorShape;
  testingEnabled : bool;
  hasMainWindow : bool;
  messageBoxes : list string;
  popups : list string;
  clicks : list Z;
  ActiveVolumeID : option string;
  shownVolumeID : option string
}.

Abbreviation App := (Run Application).

(** Code of the scripted module, run in the scene of the application. *)
Definition inScene {A : Type} (m : Py A) : App A := fun app =>
  let '(r, w) := m (mrmlScene app) in
  (r, {| mrmlScene := w; overrideCursors := overrideCursors app;
         testingEnabled := testingEnabled app; hasMainWindow := hasMainWindow app;
         messageBoxes := messageBoxes app; popups := popups app; clicks := clicks app;
         ActiveVolumeID := ActiveVolumeID app; shownVolumeID := shownVolumeID app |}).

(** [QApplication.setOverrideCursor(shape)] *)
Definition setOverrideCursor (shape : CursorShape) : App unit := fun app =>
  (inr tt, {| mrmlScene := mrmlScene app; overrideCursors := shape :: overrideCursors app;
              testingEnabled := testingEnabled app; hasMainWindow := hasMainWindow app;
              messageBoxes := messageBoxes app; popups := popups app; clicks := clicks app;
              ActiveVolumeID := ActiveVolumeID app; shownVolumeID := shownVolumeID app |}).

(** [QApplication.restoreOverrideCursor()]: nothing when the stack is empty. *)
Definition restoreOverrideCursor : App unit := fun app =>
  (inr tt, {| mrmlScene := mrmlScene app; overrideCursors := tail (overrideCursors app);
              testingEnabled := testingEnabled app; hasMainWindow := hasMainWindow app;
              messageBoxes := messageBoxes app; popups := popups app; clicks := clicks app;
              ActiveVolumeID := ActiveVolumeID app; shownVolumeID := shownVolumeID app |}).

(** [slicer.app.testingEnabled()] *)
Definition app_testingEnabled : App bool := fun app => (inr (testingEnabled app), app).

(** [mainWindow() is None] *)
Definition mainWindowIsNone : App bool := fun app => (inr (negb (hasMainWindow app)), app).

(** [mbox.exec_()] of a message box with the text [text]: the box is
    raised and the user closes it. *)
Definition exec_ (text : string) : App Answer := fun app =>
  (inr (AnswerButton (default QMessageBox_NoButton (head (clicks app)))),
   {| mrmlScene := mrmlScene app; overrideCursors := overrideCursors app;
      testingEnabled := testingEnabled app; hasMainWindow := hasMainWindow app;
      messageBoxes := (messageBoxes app ++ [text])%list; popups := popups app;
      clicks := tail (clicks app);
      ActiveVolumeID := ActiveVolumeID app; shownVolumeID := shownVolumeID app |}).

(** [delayDisplay(message, autoCloseMsec)] with [autoCloseMsec >= 400]:
    a popup that closes by itself. *)
Definition delayDisplay (message : string) : App unit := fun app =>
  (inr tt, {| mrmlScene := mrmlScene app; overrideCursors := overrideCursors app;
              testingEnabled := testingEnabled app; hasMainWindow := hasMainWindow app;
              messageBoxes := messageBoxes app; popups := (popups app ++ [message])%list;
              clicks := clicks app;
              ActiveVolumeID := ActiveVolumeID app; shownVolumeID := shownVolumeID app |}).

(** [messageBox]; the window title, the icon and the other keyword
    arguments are left out. *)
Definition messageBox (text : string) : App Answer :=
  testing ← app_testingEnabled;
  if (testing : bool) then
    let testingReturnValue := AnswerButton QMessageBox_Ok in
    delayDisplay text;;
    mret testingReturnValue
  else exec_ text.

(** [_messageDisplay] *)
Definition _messageDisplay (text : string) (testingReturnValue : Answer)
    (mainWindowNeeded : bool) : App Answer :=
  testing ← app_testingEnabled;
  if (testing : bool) then mret testingReturnValue
  else
    none ← mainWindowIsNone;
    if mainWindowNeeded && none then mret AnswerNone
    else messageBox text.

(** [infoDisplay], [warningDisplay] and [errorDisplay] differ in the
    level they log at and in the icon. *)
Definition infoDisplay (text : string) : App unit :=
  _messageDisplay text AnswerNone true;; mret tt.

Definition warningDisplay (text : string) : App unit :=
  _messageDisplay text AnswerNone true;; mret tt.

Definition errorDisplay (text : string) : App unit :=
  _messageDisplay text AnswerNone true;; mret tt.

(** [confirmOkCancelDisplay] *)
Definition confirmOkCancelDisplay (text : string) : App bool :=
  result ← _messageDisplay text (AnswerBool true) false;
  mret (equalsButton result QMessageBox_Ok).

(** [confirmYesNoDisplay] *)
Definition confirmYesNoDisplay (text : string) : App bool :=
  result ← _messageDisplay text (AnswerBool true) false;
  mret (equalsButton result QMessageBox_Yes).

(** [confirmRetryCloseDisplay] *)
Definition confirmRetryCloseDisplay (text : string) : App bool :=
  result ← _messageDisplay text (AnswerBool false) false;
  mret (equalsButton result QMessageBox_Retry).

(** [with WaitCursor(show): body] *)
Definition WaitCursor {A : Type} (show : bool) (body : App A) : App A :=
  with_ (if show then setOverrideCursor Qt_WaitCursor else mret tt)
        (if show then restoreOverrideCursor else mret tt)
        (fun _ => body).

(** [str(e)]: the message the exception carries in the model, the text
    of the operating system for the two file errors, and the empty text
    where the model keeps no message. *)
Definition str_ (e : Exception) : string :=
  match e with
  | ValueError (Some msg) => msg
  | ValueError None => "None"
  | TypeError msg | AttributeError msg | NameError msg | RuntimeError msg => msg
  | FileNotFoundError path => "[Errno 2] No such file or directory: '" ++ path ++ "'"
  | FileExistsError path => "[Errno 17] File exists: '" ++ path ++ "'"
  | IsADirectoryError path => "[Errno 21] Is a directory: '" ++ path ++ "'"
  | NotADirectoryError path => "[Errno 20] Not a directory: '" ++ path ++ "'"
  | AssertionError | URLError | DeadReference _ => ""
  end.

Definition newline : string := String (ascii_of_nat 10) "".

(** [with tryWithErrorDisplay(message, show, waitCursor): body]. The
    generator is run to its [yield], then the body; what the body
    raises is raised at the [yield], inside the [try]. *)
Definition tryWithErrorDisplay {A : Type} (message : option string) (show waitCursor : bool)
    (body : App A) : App A :=
  tryExcept
    ((if waitCursor then setOverrideCursor Qt_WaitCursor else mret tt);;
     result ← body;
     (if waitCursor then restoreOverrideCursor else mret tt);;
     mret result)
    (fun e =>
       (if waitCursor then restoreOverrideCursor else mret tt);;
       testing ← app_testingEnabled;
       (if show && negb testing then
          let errorMessage :=
            match message with
            | Some message => message ++ newline ++ newline ++ str_ e
            | None => str_ e
            end in
          errorDisplay errorMessage
        else mret tt);;
       raise e).

(** [selectionNode.SetActiveVolumeID(id)] *)
Definition SetActiveVolumeID (id : option string) : App unit := fun app =>
  (inr tt, {| mrmlScene := mrmlScene app; overrideCursors := overrideCursors app;
              testingEnabled := testingEnabled app; hasMainWindow := hasMainWindow app;
              messageBoxes := messageBoxes app; popups := popups app; clicks := clicks app;
              ActiveVolumeID := id; shownVolumeID := shownVolumeID app |}).

(** [applicationLogic().PropagateVolumeSelection(0)]: the slice views
    show the active volume. *)
Definition PropagateVolumeSelection : App unit := fun app =>
  (inr tt, {| mrmlScene := mrmlScene app; overrideCursors := overrideCursors app;
              testingEnabled := testingEnabled app; hasMainWindow := hasMainWindow app;
              messageBoxes := messageBoxes app; popups := popups app; clicks := clicks app;
              ActiveVolumeID := ActiveVolumeID app; shownVolumeID := ActiveVolumeID app |}).

End Display.

(** ** VectorToScalarVolume.py: the widget *)

Module Widget.
Import Python Statements VectorToScalarVolume Display.

(** What [updateGUIFromParameterNode] sets of the Apply button, from the
    parameter node: [applyErrorMessage], then [enabled] and [toolTip]. *)
Definition applyErrorMessage (parameterNode : VectorToScalarVolumeParameterNode) : string :=
  let isMethodSingleComponent := is_ (ConversionMethod parameterNode) SINGLE_COMPONENT in
  if bool_decide (InputVolume parameterNode = None) then
    "Please select Input Vector Volume"
  else if bool_decide (OutputVolume parameterNode = None) then
    "Please select Output Scalar Volume"
  else if isMethodSingleComponent && (ComponentToExtract parameterNode <? 0) then
    "Please select a component to extract"
  else "".

Definition applyButton_enabled (parameterNode : VectorToScalarVolumeParameterNode) : bool :=
  bool_decide (applyErrorMessage parameterNode = "").

Definition applyButton_toolTip (parameterNode : VectorToScalarVolumeParameterNode) : string :=
  applyErrorMessage parameterNode.

(** [onApplyButton], for the parameter node the widget has. *)
Definition onApplyButton (_parameterNode : option VectorToScalarVolumeParameterNode)
  : App unit :=
  tryWithErrorDisplay (Some "Failed to compute results.") true true
    (inScene (run _parameterNode);;
     parameterNode ← attribute _parameterNode "OutputVolume";
     id ← inScene (GetID (OutputVolume parameterNode));
     SetActiveVolumeID id;;
     PropagateVolumeSelection).

End Widget.

(** ** slicer/util.py: chdir *)

Module WorkingDirectory.
Import Python Statements.

(** The process and one [chdir] object: the current working directory,
    the directory [os.chdir(path)] reaches from a directory (none when
    it fails), and the list [_old_cwd] of the object. *)
Record Process := {
  cwd : string;
  reach : string -> string -> option string;
  _old_cwd : list string
}.

Abbreviation Proc := (Run Process).

(** [os.getcwd()] *)
Definition getcwd : Proc string := fun p => (inr (cwd p), p).

(** [os.chdir(path)] *)
Definition os_chdir (path : string) : Proc unit := fun p =>
  match reach p (cwd p) path with
  | Some directory =>
      (inr tt, {| cwd := directory; reach := reach p; _old_cwd := _old_cwd p |})
  | None => (inl (FileNotFoundError path), p)
  end.

(** [self._old_cwd.append(x)] *)
Definition append (x : string) : Proc unit := fun p =>
  (inr tt, {| cwd := cwd p; reach := reach p; _old_cwd := (_old_cwd p ++ [x])%list |}).

(** [self._old_cwd.pop()]; popping from the empty list would be an
    [IndexError], which the exceptions of the model do not have. *)
Definition pop : Proc string := fun p =>
  match last (_old_cwd p) with
  | Some x =>
      (inr x, {| cwd := cwd p; reach := reach p; _old_cwd := removelast (_old_cwd p) |})
  | None => (inl (RuntimeError "IndexError"), p)
  end.

(** [chdir.__enter__] *)
Definition __enter__ (path : string) : Proc unit :=
  old ← getcwd;
  append old;;
  os_chdir path.

(** [chdir.__exit__] *)
Definition __exit__ : Proc unit :=
  old ← pop;
  os_chdir old.

(** [with c: body] for the [chdir] object [c] of the path [path]. *)
Definition chdir {A : Type} (path : string) (body : Proc A) : Proc A :=
  with_ (__enter__ path) __exit__ (fun _ => body).

End WorkingDirectory.

(** * Vocabulary of the properties *)

Import VTK Python VectorToScalarVolume.

(** A variable holds [None] or a node of the scene. *)
Definition live (w : World) (v : option ref) : Prop :=
  forall r, v = Some r -> is_Some (scene w !! r).

(** The image of the node a variable holds. *)
Definition imageOf (w : World) (v : option ref) : option vtkImageData :=
  r ← v; n ← scene w !! r; ImageData n.

(** What [isValidInputOutputData] answers, as a function of the world. *)
Definition verdict (w : World) (inputVolumeNode outputVolumeNode : option ref)
    (conversionMethod : MethodArgument) (componentToExtract : Z)
  : Exception + (bool * option string) :=
  match inputVolumeNode, outputVolumeNode with
  | None, _ => inr (false, Some "no input volume node defined")
  | Some _, None => inr (false, Some "no output volume node defined")
  | Some ri, Some ro =>
      match scene w !! ri, scene w !! ro with
      | None, _ => inl (DeadReference ri)
      | Some _, None => inl (DeadReference ro)
      | Some ni, Some no =>
          if bool_decide (ID ni = ID no) then
            inr (false, Some ("input and output volume is the same. "
                              ++ "Create a new volume for output to avoid this error."))
          else
            match conversionMethod with
            | Other (Tuple []) =>
                inl (TypeError "not enough arguments for format string")
            | Other (Tuple [item]) | Other (NoTuple item) =>
                inr (false, Some ("conversionMethod " ++ item ++ " unrecognized."))
            | Other (Tuple _) =>
                inl (TypeError "not all arguments converted during string formatting")
            | Member cm =>
                match ImageData ni with
                | None => inl (noAttribute "GetNumberOfScalarComponents")
                | Some img =>
                    let n := GetNumberOfScalarComponents img in
                    if is_ cm SINGLE_COMPONENT
                       && negb ((0 <=? componentToExtract) && (componentToExtract <? n))
                    then inr (false, Some ("component to extract (" ++ str componentToExtract
                                           ++ ") is invalid. Image has only " ++ str n
                                           ++ " components."))
                    else if is_ cm LUMINANCE && (n <? 3)
                    then inr (false, Some ("input has only " ++ str n
                                           ++ " components but requires "
                                           ++ "at least 3 components for luminance conversion."))
                    else inr (true, None)
                end
            end
      end
  end.

(** The failure cases of the validation as the description of the
    module lists them. *)
Inductive ListedFailure (w : World) (i o : option ref) (m : MethodArgument) (c : Z) : Prop :=
| NoInputVolume :
    i = None -> ListedFailure w i o m c
| NoOutputVolume :
    o = None -> ListedFailure w i o m c
| UnrecognizedMethod object :
    m = Other object -> ListedFailure w i o m c
| ComponentOutOfRange img :
    m = Member SINGLE_COMPONENT -> imageOf w i = Some img ->
    ~ (0 <= c <= GetNumberOfScalarComponents img - 1) -> ListedFailure w i o m c
| TooFewComponents img :
    m = Member LUMINANCE -> imageOf w i = Some img ->
    GetNumberOfScalarComponents img < 3 -> ListedFailure w i o m c.

(** The method arguments the message of an unrecognized method can be
    formatted with: every object but a tuple of no item or of several. *)
Definition oneArgument (m : MethodArgument) : Prop :=
  forall items, m = Other (Tuple items) -> length items = 1%nat.

(** Both selections are made and the two nodes have the same identifier. *)
Definition SameVolume (w : World) (i o : option ref) : Prop :=
  exists ri ro ni no,
    i = Some ri /\ o = Some ro /\
    scene w !! ri = Some ni /\ scene w !! ro = Some no /\ ID ni = ID no.

Definition sameVolumeMessage : string :=
  "input and output volume is the same. Create a new volume for output to avoid this error.".

(** The conversion [run] performs once the validation has passed. *)
Definition dispatch (p : VectorToScalarVolumeParameterNode) : Py unit :=
  match ConversionMethod p with
  | SINGLE_COMPONENT =>
      runConversionMethodSingleComponent (InputVolume p) (OutputVolume p)
        (ComponentToExtract p)
  | LUMINANCE => runConversionMethodLuminance (InputVolume p) (OutputVolume p)
  | AVERAGE => runConversionMethodAverage (InputVolume p) (OutputVolume p)
  end.

(** *** The chains and the calls of the three conversions *)

Definition singleComponentChain (c : Z) (source : Port) : Port :=
  ExtractComponents [c] (Some source).

Definition luminanceChain (source : Port) : Port :=
  Luminance (Some (ExtractComponents [0; 1; 2] (Some source))).

(** VTK_FLOAT or VTK_DOUBLE, as opposed to the integer types. *)
Definition isFloatingType (t : ScalarTypeTag) : bool :=
  bool_decide (t = VTK_FLOAT \/ t = VTK_DOUBLE).

(** The average as the description states it: every component cast to
    double, summed with the weight 1/n each and no normalisation, 0.5
    added for an integer type, cast back to the input's type. *)
Definition averageChain (img : vtkImageData) : Port :=
  let n := GetNumberOfScalarComponents img in
  let componentAsDouble (c : Z) :=
    Cast VTK_DOUBLE (Some (ExtractComponents [c] (Some (ImageSource (Some img))))) in
  let sum :=
    WeightedSum (replicate (Z.to_nat n) (1 / floatOfZ n)%float) false
      (map componentAsDouble (range n)) in
  Cast (ScalarType img)
    (Some (if isFloatingType (ScalarType img) then sum
           else Mathematics VTK_ADDC 0.5 (Some sum))).

Definition onNode (r : ref) (m : string) : Call := {| receiver := OnNode r; method := m |}.
Definition onFilterOf (cls : FilterClass) (m : string) : Call :=
  {| receiver := OnFilter cls; method := m |}.
Definition onArray (m : string) : Call := {| receiver := OnDoubleArray; method := m |}.

Definition copyMatrixCalls (ri ro : ref) : list Call :=
  [onNode ri "GetIJKToRASMatrix"; onNode ro "SetIJKToRASMatrix"].

Definition singleComponentCalls (ri ro : ref) : list Call :=
  (copyMatrixCalls ri ro ++
   [onFilterOf vtkImageExtractComponents "SetInputConnection";
    onFilterOf vtkImageExtractComponents "SetComponents";
    onFilterOf vtkImageExtractComponents "Update";
    onNode ro "SetImageDataConnection"])%list.

Definition luminanceCalls (ri ro : ref) : list Call :=
  (copyMatrixCalls ri ro ++
   [onFilterOf vtkImageExtractComponents "SetInputConnection";
    onFilterOf vtkImageExtractComponents "SetComponents";
    onFilterOf vtkImageLuminance "SetInputConnection";
    onFilterOf vtkImageLuminance "Update";
    onNode ro "SetImageDataConnection"])%list.

Definition perComponentCalls : list Call :=
  [onFilterOf vtkImageExtractComponents "SetInputConnection";
   onFilterOf vtkImageExtractComponents "SetComponents";
   onFilterOf vtkImageExtractComponents "Update";
   onFilterOf vtkImageCast "SetInputConnection";
   onFilterOf vtkImageCast "SetOutputScalarTypeToDouble";
   onFilterOf vtkImageWeightedSum "AddInputConnection"].

Definition castBackCalls (floating : bool) : list Call :=
  if floating then [onFilterOf vtkImageCast "SetInputConnection"]
  else [onFilterOf vtkImageMathematics "SetOperationToAddConstant";
        onFilterOf vtkImageMathematics "SetConstantC";
        onFilterOf vtkImageMathematics "SetInputConnection";
        onFilterOf vtkImageCast "SetInputConnection"].

Definition averageCalls (ri ro : ref) (img : vtkImageData) : list Call :=
  let n := range (GetNumberOfScalarComponents img) in
  (copyMatrixCalls ri ro ++
   [onArray "SetNumberOfValues"] ++
   concat (map (fun _ => [onArray "SetValue"]) n) ++
   [onFilterOf vtkImageWeightedSum "SetWeights"] ++
   concat (map (fun _ => perComponentCalls) n) ++
   [onFilterOf vtkImageWeightedSum "SetNormalizeByWeight";
    onFilterOf vtkImageCast "SetOutputScalarType"] ++
   castBackCalls (isFloatingType (ScalarType img)) ++
   [onFilterOf vtkImageCast "Update";
    onNode ro "SetAndObserveImageData"])%list.

(** The chain and the calls of a conversion of the image [img]. *)
Definition chainOf (m : ConversionMethods) (c : Z) (img : vtkImageData) : Port :=
  match m with
  | SINGLE_COMPONENT => singleComponentChain c (ImageSource (Some img))
  | LUMINANCE => luminanceChain (ImageSource (Some img))
  | AVERAGE => averageChain img
  end.

Definition callsOf (m : ConversionMethods) (ri ro : ref) (img : vtkImageData) : list Call :=
  match m with
  | SINGLE_COMPONENT => singleComponentCalls ri ro
  | LUMINANCE => luminanceCalls ri ro
  | AVERAGE => averageCalls ri ro img
  end.

(** The world after a conversion: the output node has the matrix of
    the input node and the image of the chain; the calls are recorded. *)
Definition converted (w : World) (ro : ref) (ni no : VolumeNode)
    (image : option vtkImageData) (made : list Call) : World :=
  {| scene := <[ro := {| ID := ID no;
                         IJKToRASMatrix := IJKToRASMatrix ni;
                         ImageData := image |}]> (scene w);
     calls := calls w ++ made |}.


(** The calls a computation adds to those of the world it starts in. *)
Definition callsMade {A : Type} (m : Py A) (w : World) : list Call :=
  drop (length (calls w)) (calls (snd (m w))).

(** *** A small scene

    Node 1 holds two RGB voxels of unsigned bytes, node 2 is an empty
    scalar volume, node 3 holds one voxel with two components of shorts,
    node 4 two voxels of shorts with negative components. *)

Definition rgbImage : vtkImageData :=
  {| Dimensions := (2, 1, 1);
     ScalarType := VTK_UNSIGNED_CHAR;
     NumberOfScalarComponents := 3;
     Voxels := [[SInt 30; SInt 50; SInt 100]; [SInt 255; SInt 255; SInt 254]] |}.

Definition shortImage : vtkImageData :=
  {| Dimensions := (1, 1, 1);
     ScalarType := VTK_SHORT;
     NumberOfScalarComponents := 2;
     Voxels := [[SInt 7; SInt 10]] |}.

(** Two voxels of signed shorts with negative components. *)
Definition negativeImage : vtkImageData :=
  {| Dimensions := (2, 1, 1);
     ScalarType := VTK_SHORT;
     NumberOfScalarComponents := 3;
     Voxels := [[SInt (-30); SInt (-50); SInt (-100)]; [SInt (-10); SInt (-10); SInt (-10)]] |}.

Definition rgbNode : VolumeNode :=
  {| ID := Some "vtkMRMLVectorVolumeNode1";
     IJKToRASMatrix := [2; 0; 0; 5;  0; 2; 0; 6;  0; 0; 2; 7;  0; 0; 0; 1]%float;
     ImageData := Some rgbImage |}.

Definition emptyNode : VolumeNode :=
  {| ID := Some "vtkMRMLScalarVolumeNode1";
     IJKToRASMatrix := identityMatrix;
     ImageData := None |}.

Definition shortNode : VolumeNode :=
  {| ID := Some "vtkMRMLVectorVolumeNode2";
     IJKToRASMatrix := identityMatrix;
     ImageData := Some shortImage |}.

Definition negativeNode : VolumeNode :=
  {| ID := Some "vtkMRMLVectorVolumeNode3";
     IJKToRASMatrix := identityMatrix;
     ImageData := Some negativeImage |}.

Definition smallWorld : World :=
  {| scene := {[ 1%positive := rgbNode; 2%positive := emptyNode;
                 3%positive := shortNode; 4%positive := negativeNode ]};
     calls := [] |}.

Definition parameters (i o : positive) (m : ConversionMethods) (c : Z)
  : VectorToScalarVolumeParameterNode :=
  {| InputVolume := Some i; OutputVolume := Some o;
     ConversionMethod := m; ComponentToExtract := c |}.

(** *** The images of the self test *)

(** 7x8x9 voxels (9, 8 and 7 along the image axes) of unsigned bytes, all
    with the components [v]. *)
Definition constantImage (v : list Z) : vtkImageData :=
  {| Dimensions := (9, 8, 7);
     ScalarType := VTK_UNSIGNED_CHAR;
     NumberOfScalarComponents := Pos.of_nat (length v);
     Voxels := replicate (7 * 8 * 9) (map SInt v) |}.

(** *** Counting downloads *)

(** A computation makes at most [k] calls of [urlretrieve]. *)
Definition retrievesAtMost {A : Type} (k : nat) (m : Util.IO A) : Prop :=
  forall d, (Util.retrievals (snd (m d)) <= Util.retrievals d + k)%nat.


(** *** Checksums and the disk *)

(** The length of the hexadecimal digest of each algorithm
    ([expected_digest_length] of [extractAlgoAndDigest]). *)
Definition expectedDigestLength (algo : string) : Z :=
  if bool_decide (algo = "SHA256") then 64
  else if bool_decide (algo = "SHA512") then 128 else 32.

(** The file at [path] has the digest [digest] under [algo]. *)
Definition hasDigest (d : Util.Disk) (path algo digest : string) : Prop :=
  exists f, Util.files d !! path = Some f /\ Util.hexdigest f algo = digest.

(** The number of files [getFilesInDirectory] finds below a folder. *)
Definition numberOfFiles (d : Util.Disk) (directory : string) : Z :=
  Util.len (Util.walk d directory).

(** *** Observations *)

(** What [__observations] holds for a method on an event of an object. *)
Definition observation (s : VTKObservationMixin.State) (obj : option positive)
    (event : Z) (method : string) : option VTKObservationMixin.Entry :=
  events ← Dict.get obj (VTKObservationMixin.observations s);
  methods ← Dict.get event events;
  Dict.get method methods.

(** The observer with the tag [tag] on the object [r]. *)
Definition observerOf (s : VTKObservationMixin.State) (r : positive) (tag : Z)
  : option VTKObservationMixin.Observer :=
  VTKObservationMixin.Observers (VTKObservationMixin.object s r) !! tag.

(** Every key of a dict is there once, in [__observations] and in the
    dicts it holds. *)
Definition uniqueMethods (item : Z * VTKObservationMixin.Methods) : Prop :=
  NoDup (Dict.keys item.2).

Definition uniqueEvents (item : option positive * VTKObservationMixin.Events) : Prop :=
  NoDup (Dict.keys item.2) /\ Forall uniqueMethods item.2.

Definition uniqueKeys (observations : Dict.dict (option positive) VTKObservationMixin.Events)
  : Prop :=
  NoDup (Dict.keys observations) /\ Forall uniqueEvents observations.

(** Every observation of the mixin is an observer of its object, with
    the tag, the event, the method and the priority recorded; and the
    tags an object has given out are below its counter. *)
Definition consistent (s : VTKObservationMixin.State) : Prop :=
  uniqueKeys (VTKObservationMixin.observations s)
  /\ (forall obj event method group tag priority,
        observation s obj event method = Some (group, tag, priority) ->
        exists r, obj = Some r
          /\ observerOf s r tag
             = Some {| VTKObservationMixin.event := event;
                       VTKObservationMixin.command := method;
                       VTKObservationMixin.priority := priority |})
  /\ (forall r tag, is_Some (observerOf s r tag) ->
        tag < VTKObservationMixin.Count (VTKObservationMixin.object s r)).

(** The tag is the one of an observation of the mixin on the object. *)
Definition observedTag (s : VTKObservationMixin.State) (r : positive) (tag : Z) : Prop :=
  exists event method group priority,
    observation s (Some r) event method = Some (group, tag, priority).

(** [__observations] once [addObserver] has made sure, with
    [setdefault], that the object and the event have their dicts. *)
Definition ensured (obj : option positive) (event : Z)
    (observations : Dict.dict (option positive) VTKObservationMixin.Events)
  : Dict.dict (option positive) VTKObservationMixin.Events :=
  let '(events, observations) := Dict.setdefault obj [] observations in
  let '(_, events) := Dict.setdefault event [] events in
  Dict.set obj events observations.

Definition withObservations (s : VTKObservationMixin.State)
    (observations : Dict.dict (option positive) VTKObservationMixin.Events)
  : VTKObservationMixin.State :=
  {| VTKObservationMixin.observations := observations;
     VTKObservationMixin.objects := VTKObservationMixin.objects s;
     VTKObservationMixin.warnings := VTKObservationMixin.warnings s |}.

Definition withWarning (s : VTKObservationMixin.State) (text : string)
  : VTKObservationMixin.State :=
  {| VTKObservationMixin.observations := VTKObservationMixin.observations s;
     VTKObservationMixin.objects := VTKObservationMixin.objects s;
     VTKObservationMixin.warnings := (VTKObservationMixin.warnings s ++ [text])%list |}.

(** A state of the mixin for examples: object 1 is observed for the
    event 33 (ModifiedEvent) by [onModified], object 2 is not. *)
Definition observingState : VTKObservationMixin.State :=
  {| VTKObservationMixin.observations :=
       [(Some 1%positive, [(33, [("onModified", ("none", 1, 0%float))])])];
     VTKObservationMixin.objects :=
       {[ 1%positive :=
            {| VTKObservationMixin.Count := 2;
               VTKObservationMixin.Observers :=
                 {[ 1 := {| VTKObservationMixin.event := 33;
                            VTKObservationMixin.command := "onModified";
                            VTKObservationMixin.priority := 0%float |} ]} |} ]};
     VTKObservationMixin.warnings := [] |}.

(** The body of the inner loop of [removeObservers(method)], for the
    event [e] of the object [obj]. *)
Definition takeOff (method : string) (obj : option positive) (e : Z)
  : VTKObservationMixin.Obs unit :=
  methods ← VTKObservationMixin.methodsOf obj e;
  match Dict.get method methods with
  | Some (g, t, p) =>
      VTKObservationMixin.write (Dict.update obj (Dict.update e (Dict.remove method)));;
      VTKObservationMixin.RemoveObserver obj t
  | None => mret tt
  end.

(** The events of the objects, in the order the loops visit them. *)
Definition visited (observations : Dict.dict (option positive) VTKObservationMixin.Events)
  : list (option positive * Z) :=
  flat_map (fun '(obj, events) => map (fun '(e, _) => (obj, e))
                                     (events : VTKObservationMixin.Events))
    observations.

(** *** Objects of the user interface *)

(** The objects when the body of [MyScopedQtPropertySetter] starts: the
    listed properties of the object have the listed values. *)
Definition withProperties (qobject : positive)
    (properties : Dict.dict string ContextManagers.Value)
    (w : gmap positive ContextManagers.QObject) : gmap positive ContextManagers.QObject :=
  alter (fun o => {| ContextManagers.attributes :=
                       list_to_map properties ∪ ContextManagers.attributes o;
                     ContextManagers.signalsBlocked := ContextManagers.signalsBlocked o |})
        qobject w.

Definition withBlocked (block : bool) (o : ContextManagers.QObject)
  : ContextManagers.QObject :=
  {| ContextManagers.attributes := ContextManagers.attributes o;
     ContextManagers.signalsBlocked := block |}.

Definition blocked (o : ContextManagers.QObject) : ContextManagers.QObject :=
  withBlocked true o.

(** The objects when the body of [MyObjectsBlockSignals] starts: the
    signals of the listed objects are blocked. *)
Definition allBlocked (qobjects : list positive) (w : gmap positive ContextManagers.QObject)
  : gmap positive ContextManagers.QObject :=
  foldl (fun w q => alter blocked q w) w qobjects.

(** What the first loop of [MyObjectsBlockSignals] records. *)
Fixpoint previousBlocked (w : gmap positive ContextManagers.QObject)
    (qobjects : list positive) : list bool :=
  match qobjects with
  | [] => []
  | q :: qobjects' =>
      default false (ContextManagers.signalsBlocked <$> w !! q)
      :: previousBlocked (alter blocked q w) qobjects'
  end.

(** How many times an object is listed. *)
Definition occurrences (q : positive) (qobjects : list positive) : nat :=
  length (filter (fun x => x = q) qobjects).

(** A push button with two properties, for examples. *)
Definition button : ContextManagers.QObject :=
  {| ContextManagers.attributes :=
       {[ "enabled" := ContextManagers.VBool true;
          "text" := ContextManagers.VStr "Apply" ]};
     ContextManagers.signalsBlocked := false |}.

Definition userInterface : gmap positive ContextManagers.QObject :=
  {[ 1%positive := button; 2%positive := blocked button ]}.

(** *** The application *)

(** The application with another scene. *)
Definition withScene (app : Display.Application) (w : World) : Display.Application :=
  {| Display.mrmlScene := w;
     Display.overrideCursors := Display.overrideCursors app;
     Display.testingEnabled := Display.testingEnabled app;
     Display.hasMainWindow := Display.hasMainWindow app;
     Display.messageBoxes := Display.messageBoxes app;
     Display.popups := Display.popups app;
     Display.clicks := Display.clicks app;
     Display.ActiveVolumeID := Display.ActiveVolumeID app;
     Display.shownVolumeID := Display.shownVolumeID app |}.

(** The application once the volume [id] is active and shown. *)
Definition showing (app : Display.Application) (id : option string) : Display.Application :=
  {| Display.mrmlScene := Display.mrmlScene app;
     Display.overrideCursors := Display.overrideCursors app;
     Display.testingEnabled := Display.testingEnabled app;
     Display.hasMainWindow := Display.hasMainWindow app;
     Display.messageBoxes := Display.messageBoxes app;
     Display.popups := Display.popups app;
     Display.clicks := Display.clicks app;
     Display.ActiveVolumeID := id;
     Display.shownVolumeID := id |}.

(** The application when the body of a statement that sets the wait
    cursor starts, and when the statement has restored the cursor. *)
Definition waiting (waitCursor : bool) (app : Display.Application) : Display.Application :=
  if waitCursor then snd (Display.setOverrideCursor Display.Qt_WaitCursor app) else app.

Definition restored (waitCursor : bool) (app : Display.Application) : Display.Application :=
  if waitCursor then snd (Display.restoreOverrideCursor app) else app.

(** The text [tryWithErrorDisplay] displays for an exception. *)
Definition errorText (message : option string) (e : Exception) : string :=
  match message with
  | Some message => message ++ Display.newline ++ Display.newline ++ Display.str_ e
  | None => Display.str_ e
  end.

(** An error box is raised when the display is asked for, the
    application is not in testing mode and has a main window. *)
Definition raisesBox (show : bool) (app : Display.Application) : bool :=
  show && negb (Display.testingEnabled app) && Display.hasMainWindow app.

(** The application once the user has closed a box with the text [text]. *)
Definition afterBox (text : string) (app : Display.Application) : Display.Application :=
  snd (Display.exec_ text app).

(** The application with the small scene, a main window and a user who
    clicks Ok. *)
Definition desktop : Display.Application :=
  {| Display.mrmlScene := smallWorld;
     Display.overrideCursors := [];
     Display.testingEnabled := false;
     Display.hasMainWindow := true;
     Display.messageBoxes := [];
     Display.popups := [];
     Display.clicks := [Display.QMessageBox_Ok];
     Display.ActiveVolumeID := None;
     Display.shownVolumeID := None |}.

(** The same application in testing mode. *)
Definition testBench : Display.Application :=
  {| Display.mrmlScene := smallWorld;
     Display.overrideCursors := [];
     Display.testingEnabled := true;
     Display.hasMainWindow := true;
     Display.messageBoxes := [];
     Display.popups := [];
     Display.clicks := [];
     Display.ActiveVolumeID := None;
     Display.shownVolumeID := None |}.

(** *** Scalar volumes *)

(** One component, and the dimensions, the scalar type and the number
    of voxels of another image. *)
Definition scalarImageOf (input output : vtkImageData) : Prop :=
  GetNumberOfScalarComponents output = 1
  /\ Dimensions output = Dimensions input
  /\ ScalarType output = ScalarType input
  /\ length (Voxels output) = length (Voxels input).

(** *** Working directories *)

(** A process in its directory [/home], with [/tmp] and [/home/data]
    to go to, by their absolute paths. *)
Definition shell : WorkingDirectory.Process :=
  {| WorkingDirectory.cwd := "/home";
     WorkingDirectory.reach := fun _ path =>
       if bool_decide (path ∈ ["/home"; "/tmp"; "/home/data"]) then Some path else None;
     WorkingDirectory._old_cwd := [] |}.

(** * Properties *)

(** ** Running computations *)

Section Running.
Context {W : Type}.

Lemma bind_run {A B} (m : Run W A) (f : A -> Run W B) (w : W) :
  (m ≫= f) w = match m w with
               | (inl e, w') => (inl e, w')
               | (inr a, w') => f a w'
               end.
Proof. reflexivity. Qed.

Lemma bind_returns {A B} (m : Run W A) (f : A -> Run W B) (w w' : W) (a : A) :
  m w = (inr a, w') -> (m ≫= f) w = f a w'.
Proof. intros H. rewrite bind_run, H. reflexivity. Qed.

Lemma bind_raises {A B} (m : Run W A) (f : A -> Run W B) (w w' : W) (e : Exception) :
  m w = (inl e, w') -> (m ≫= f) w = (inl e, w').
Proof. intros H. rewrite bind_run, H. reflexivity. Qed.

End Running.

(** Unfolding the sequencing of a computation applied to a world. *)
Ltac run := cbv beta iota zeta delta [mbind mret Run_bind Run_ret raise].

(** ** Validation *)

Lemma isValidInputOutputData_verdict w i o m c :
  isValidInputOutputData i o m c w = (verdict w i o m c, w).
Proof.
  unfold isValidInputOutputData, verdict.
  destruct i as [ri|]; [|reflexivity].
  destruct o as [ro|]; [|reflexivity].
  cbn [bool_decide decide_rel].
  rewrite !bool_decide_eq_false_2 by discriminate.
  unfold GetID, GetImageData, node, attribute, deref.
  run. destruct (scene w !! ri) as [ni|] eqn:Hi; [|reflexivity].
  run. destruct (scene w !! ro) as [no|] eqn:Ho; [|reflexivity].
  run. destruct (bool_decide (ID ni = ID no)); [reflexivity|].
  destruct m as [cm|[[|item [|]]|text]]; [|reflexivity..].
  run. rewrite Hi. run.
  destruct (ImageData ni) as [img|]; [|reflexivity].
  run.
  repeat match goal with |- context [if ?b then _ else _] => destruct b end; reflexivity.
Qed.

Lemma verdict_message w i o m c b msg :
  verdict w i o m c = inr (b, msg) ->
  (b = false /\ exists s, msg = Some s /\ s <> "") \/ (b = true /\ msg = None).
Proof.
  unfold verdict. intros H.
  repeat match type of H with
         | context [match ?x with _ => _ end] => destruct x
         end;
    inversion H; subst; clear H;
    first [ right; split; reflexivity
          | left; split; [reflexivity|]; eexists; split; [reflexivity|]; discriminate ].
Qed.

(** The validation itself raises no [ValueError]. *)
Lemma verdict_error w i o m c e :
  verdict w i o m c = inl e -> forall arg, e <> ValueError arg.
Proof.
  unfold verdict, noAttribute. intros H arg.
  repeat match type of H with
         | context [match ?x with _ => _ end] => destruct x
         end;
    inversion H; subst; discriminate.
Qed.

Lemma verdict_fails_iff w i o m c :
  live w i -> live w o -> oneArgument m ->
  (exists msg, verdict w i o m c = inr (false, Some msg))
  <-> (ListedFailure w i o m c \/ SameVolume w i o).
Proof.
  intros Li Lo Hm. unfold verdict.
  destruct i as [ri|]; [|split; [left; by constructor 1 | eauto]].
  destruct o as [ro|]; [|split; [left; by constructor 2 | eauto]].
  destruct (Li ri eq_refl) as [ni Hi]. destruct (Lo ro eq_refl) as [no Ho].
  rewrite Hi, Ho.
  destruct (bool_decide (ID ni = ID no)) eqn:Hid.
  { apply bool_decide_eq_true in Hid.
    split; [right; by exists ri, ro, ni, no | eauto]. }
  apply bool_decide_eq_false in Hid.
  assert (Hsame : ~ SameVolume w (Some ri) (Some ro)).
  { intros (ri' & ro' & ni' & no' & ? & ? & ? & ? & ?). simplify_eq. }
  destruct m as [cm|[items|text]];
    [| |split; [left; by econstructor 3 | eauto]].
  2:{ destruct items as [|item [|]]; try (by specialize (Hm _ eq_refl)).
      split; [left; by econstructor 3 | eauto]. }
  destruct (ImageData ni) as [img|] eqn:Himg.
  2:{ split; [intros [? ?]; discriminate|].
      intros [HL|?]; [|done].
      inversion HL; try discriminate;
        match goal with H : imageOf _ _ = Some _ |- _ =>
          unfold imageOf in H; cbn in H; rewrite Hi in H; cbn in H; congruence end. }
  assert (Himage : imageOf w (Some ri) = Some img).
  { unfold imageOf. cbn. rewrite Hi. exact Himg. }
  unfold is_.
  destruct cm; cbn [bool_decide decide_rel andb];
    rewrite ?bool_decide_eq_false_2, ?bool_decide_eq_true_2 by done;
    cbn [andb].
  - (* LUMINANCE *)
    destruct (Z.ltb_spec (GetNumberOfScalarComponents img) 3).
    + split; [left; by econstructor 5 | eauto].
    + split; [intros [? ?]; discriminate|].
      intros [HL|?]; [|done].
      inversion HL; try discriminate. rewrite Himage in *. simplify_eq. lia.
  - (* AVERAGE *)
    split; [intros [? ?]; discriminate|].
    intros [HL|?]; [|done]. inversion HL; discriminate.
  - (* SINGLE_COMPONENT *)
    destruct (Z.leb_spec 0 c), (Z.ltb_spec c (GetNumberOfScalarComponents img));
      cbn [andb negb].
    1:{ split; [intros [? ?]; discriminate|].
        intros [HL|?]; [|done].
        inversion HL; try discriminate. rewrite Himage in *. simplify_eq. lia. }
    all: split; [left; econstructor 4; [reflexivity|exact Himage|lia] | eauto].
Qed.

(** ** The three conversions *)

Ltac world w := destruct w as [sc cs]; cbn [scene calls] in *.

Ltac steps :=
  cbv beta iota zeta delta [mbind mret Run_bind Run_ret raise scene calls
                            call store node deref attribute invoke classOf new].

Lemma runConversionMethodSingleComponent_converted w ri ro ni no c :
  ri <> ro -> scene w !! ri = Some ni -> scene w !! ro = Some no ->
  runConversionMethodSingleComponent (Some ri) (Some ro) c w
  = (inr tt,
     converted w ro ni no
       (VTK.GetOutput (singleComponentChain c (ImageSource (ImageData ni))))
       (singleComponentCalls ri ro)).
Proof.
  intros Hne Hi Ho. world w.
  unfold runConversionMethodSingleComponent, converted, GetIJKToRASMatrix, SetIJKToRASMatrix,
    GetImageDataConnection, SetInputConnection, SetComponents, Update,
    SetImageDataConnection, GetOutputPort.
  steps. rewrite Hi. steps. rewrite Ho. steps.
  rewrite lookup_insert_ne by done. rewrite Hi. steps.
  rewrite lookup_insert_eq. steps.
  rewrite insert_insert_eq.
  rewrite <- !app_assoc. reflexivity.
Qed.

Lemma runConversionMethodLuminance_converted w ri ro ni no :
  ri <> ro -> scene w !! ri = Some ni -> scene w !! ro = Some no ->
  runConversionMethodLuminance (Some ri) (Some ro) w
  = (inr tt,
     converted w ro ni no
       (VTK.GetOutput (luminanceChain (ImageSource (ImageData ni))))
       (luminanceCalls ri ro)).
Proof.
  intros Hne Hi Ho. world w.
  unfold runConversionMethodLuminance, converted, GetIJKToRASMatrix, SetIJKToRASMatrix,
    GetImageDataConnection, SetInputConnection, SetComponents, Update,
    SetImageDataConnection, GetOutputPort.
  steps. rewrite Hi. steps. rewrite Ho. steps.
  rewrite lookup_insert_ne by done. rewrite Hi. steps.
  rewrite lookup_insert_eq. steps.
  rewrite insert_insert_eq.
  rewrite <- !app_assoc. reflexivity.
Qed.

(** A loop whose body, on states satisfying an invariant, returns a
    function of the state and records calls that depend on the element only. *)
Lemma forEach_returns {A S : Type} (sc : gmap positive VolumeNode) (Inv : S -> Prop)
    (body : A -> S -> Py S) (f : A -> S -> S) (g : A -> list Call) (xs : list A) :
  (forall x s cs, Inv s ->
     body x s {| scene := sc; calls := cs |}
     = (inr (f x s), {| scene := sc; calls := cs ++ g x |}) /\ Inv (f x s)) ->
  forall s cs, Inv s ->
    forEach xs body s {| scene := sc; calls := cs |}
    = (inr (fold_left (fun s x => f x s) xs s),
       {| scene := sc; calls := cs ++ concat (map g xs) |}).
Proof.
  intros Hbody. induction xs as [|x xs IH]; intros s cs Hs.
  - cbn. rewrite app_nil_r. reflexivity.
  - cbn [forEach]. rewrite bind_run.
    destruct (Hbody x s cs Hs) as [-> Hs'].
    rewrite IH by exact Hs'. cbn. rewrite <- app_assoc. reflexivity.
Qed.

Lemma range_S (k : nat) :
  range (Z.of_nat (S k)) = (range (Z.of_nat k) ++ [Z.of_nat k])%list.
Proof.
  unfold range. rewrite !Nat2Z.id, seq_S, map_app. reflexivity.
Qed.

(** Setting the values 0 .. n-1 of an array of [n] values sets them all. *)
Lemma weights_filled (x : float) (n k : nat) :
  (k <= n)%nat ->
  fold_left (fun (ws : list float) (comp : Z) => <[Z.to_nat comp := x]> ws)
    (range (Z.of_nat k)) (replicate n 0%float)
  = (replicate k x ++ replicate (n - k) 0%float)%list.
Proof.
  induction k as [|k IH]; intros Hk.
  - cbn. rewrite Nat.sub_0_r. reflexivity.
  - rewrite range_S, fold_left_app, IH by lia. cbn [fold_left].
    rewrite Nat2Z.id.
    replace (n - k)%nat with (S (n - S k)) by lia.
    cbn [replicate].
    rewrite insert_app_r_alt by (rewrite length_replicate; lia).
    rewrite length_replicate, Nat.sub_diag. cbn.
    change (x :: replicate k x ++ replicate (n - S k) 0%float)%list
      with (replicate (S k) x ++ replicate (n - S k) 0%float)%list.
    rewrite replicate_S_end, <- app_assoc. reflexivity.
Qed.

(** Adding one input per component gives the inputs in component order. *)
Lemma inputs_added (ws : list float) (nrm : bool) (chain : Z -> Port)
    (cs : list Z) (ins : list Port) :
  fold_left (fun (s : Port) (comp : Z) =>
               match s with
               | WeightedSum ws nrm ins => WeightedSum ws nrm (ins ++ [chain comp])
               | _ => s
               end) cs (WeightedSum ws nrm ins)
  = WeightedSum ws nrm (ins ++ map chain cs).
Proof.
  revert ins. induction cs as [|c cs IH]; intros ins; cbn.
  - rewrite app_nil_r. reflexivity.
  - rewrite IH, <- app_assoc. reflexivity.
Qed.

Lemma tagValue_floating (t : ScalarTypeTag) :
  (tagValue t =? tagValue VTK_FLOAT) || (tagValue t =? tagValue VTK_DOUBLE)
  = isFloatingType t.
Proof.
  unfold isFloatingType.
  destruct t; cbn [tagValue Z.eqb Pos.eqb orb]; symmetry;
    first [ apply bool_decide_eq_true_2; auto
          | apply bool_decide_eq_false_2; intros [?|?]; discriminate ].
Qed.

Lemma runConversionMethodAverage_converted w ri ro ni no img :
  ri <> ro -> scene w !! ri = Some ni -> scene w !! ro = Some no ->
  ImageData ni = Some img ->
  runConversionMethodAverage (Some ri) (Some ro) w
  = (inr tt,
     converted w ro ni no (VTK.GetOutput (averageChain img)) (averageCalls ri ro img)).
Proof.
  intros Hne Hi Ho Himg. world w.
  unfold runConversionMethodAverage, converted, GetIJKToRASMatrix, SetIJKToRASMatrix,
    GetImageData.
  steps. rewrite Hi. steps. rewrite Ho. steps.
  rewrite lookup_insert_ne by done. rewrite Hi. steps. rewrite Himg. steps.
  unfold SetNumberOfValues. steps.
  set (n := GetNumberOfScalarComponents img).
  set (evenWeight := (1 / floatOfZ n)%float).
  (* the loop setting the weights *)
  rewrite (forEach_returns _ (fun _ => True) _
             (fun comp ws => <[Z.to_nat comp := evenWeight]> ws)
             (fun _ => [onArray "SetValue"]));
    [ | intros x s cs' _; split; [reflexivity|exact I] | exact I ].
  replace (range n) with (range (Z.of_nat (Z.to_nat n))) at 1
    by (rewrite Z2Nat.id; [reflexivity | subst n; unfold GetNumberOfScalarComponents; lia]).
  rewrite weights_filled by lia.
  rewrite Nat.sub_diag. cbn [replicate]. rewrite app_nil_r.
  unfold SetWeights. steps.
  (* the loop connecting the components *)
  set (chain := fun c : Z =>
         Cast VTK_DOUBLE (Some (ExtractComponents [c] (Some (ImageSource (Some img)))))).
  rewrite (forEach_returns _ (fun s => exists ws nrm ins, s = WeightedSum ws nrm ins) _
             (fun comp s =>
                match s with
                | WeightedSum ws nrm ins => WeightedSum ws nrm (ins ++ [chain comp])
                | _ => s
                end)
             (fun _ => perComponentCalls)).
  2:{ intros x s cs' (ws & nrm & ins & ->).
      unfold GetImageDataConnection, SetInputConnection, SetComponents, Update,
        SetOutputScalarTypeToDouble, AddInputConnection, GetOutputPort.
      steps. rewrite lookup_insert_ne by done. rewrite Hi. steps. rewrite Himg.
      rewrite <- !app_assoc. split; [reflexivity | eauto]. }
  2:{ eauto. }
  rewrite inputs_added. cbn [app].
  unfold SetNormalizeByWeight. steps.
  rewrite lookup_insert_ne by done. rewrite Hi. steps. rewrite Himg. steps.
  unfold SetOutputScalarType. steps.
  rewrite tagValue_floating. unfold GetScalarType.
  unfold averageChain, averageCalls, castBackCalls. fold n. fold evenWeight. fold chain.
  destruct (isFloatingType (ScalarType img)).
  - unfold SetInputConnection, Update, SetAndObserveImageData, GetOutputPort, GetOutput.
    steps. rewrite lookup_insert_eq. steps. rewrite insert_insert_eq.
    rewrite <- !app_assoc. reflexivity.
  - unfold SetOperationToAddConstant, SetConstantC, SetInputConnection, Update,
      SetAndObserveImageData, GetOutputPort, GetOutput.
    steps. rewrite lookup_insert_eq. steps. rewrite insert_insert_eq.
    rewrite <- !app_assoc. reflexivity.
Qed.

(** ** [run] *)

(** Deciding [x is m] between members. *)
Ltac members :=
  repeat match goal with
         | |- context [@bool_decide (?a = ?b) ?d] =>
             let v := eval vm_compute in (@bool_decide (a = b) d) in
             change (@bool_decide (a = b) d) with v
         end.

Lemma run_verdict (p : VectorToScalarVolumeParameterNode) (w : World) :
  run (Some p) w
  = match verdict w (InputVolume p) (OutputVolume p) (Member (ConversionMethod p))
            (ComponentToExtract p) with
    | inl e => (inl e, w)
    | inr (false, msg) => (inl (ValueError msg), w)
    | inr (true, _) => dispatch p w
    end.
Proof.
  unfold run. rewrite bind_run, isValidInputOutputData_verdict.
  destruct (verdict _ _ _ _ _) as [e|[[] msg]]; [reflexivity| |reflexivity].
  unfold dispatch, when, is_. cbn [negb].
  destruct (ConversionMethod p); members; rewrite ?bind_run; steps.
  - destruct (runConversionMethodLuminance _ _ w) as [[e|[]] w']; reflexivity.
  - reflexivity.
  - destruct (runConversionMethodSingleComponent _ _ _ w) as [[e|[]] w']; reflexivity.
Qed.

(** What a passed validation has established. *)
Lemma verdict_passed w i o cm c msg :
  verdict w i o (Member cm) c = inr (true, msg) ->
  exists ri ro ni no img,
    i = Some ri /\ o = Some ro /\ ri <> ro /\
    scene w !! ri = Some ni /\ scene w !! ro = Some no /\
    ID ni <> ID no /\ ImageData ni = Some img.
Proof.
  unfold verdict. intros H.
  destruct i as [ri|]; [|discriminate].
  destruct o as [ro|]; [|discriminate].
  destruct (scene w !! ri) as [ni|] eqn:Hi; [|discriminate].
  destruct (scene w !! ro) as [no|] eqn:Ho; [|discriminate].
  destruct (bool_decide (ID ni = ID no)) eqn:Hid; [discriminate|].
  apply bool_decide_eq_false in Hid.
  destruct (ImageData ni) as [img|] eqn:Himg; [|discriminate].
  exists ri, ro, ni, no, img. repeat split; try done.
  intros ->. congruence.
Qed.

Lemma dispatch_converted (p : VectorToScalarVolumeParameterNode) w ri ro ni no img :
  InputVolume p = Some ri -> OutputVolume p = Some ro -> ri <> ro ->
  scene w !! ri = Some ni -> scene w !! ro = Some no -> ImageData ni = Some img ->
  dispatch p w
  = (inr tt,
     converted w ro ni no
       (VTK.GetOutput (chainOf (ConversionMethod p) (ComponentToExtract p) img))
       (callsOf (ConversionMethod p) ri ro img)).
Proof.
  intros Hi Ho Hne Hni Hno Himg. unfold dispatch, chainOf, callsOf.
  rewrite Hi, Ho. destruct (ConversionMethod p).
  - rewrite (runConversionMethodLuminance_converted w ri ro ni no) by done.
    rewrite Himg. reflexivity.
  - apply runConversionMethodAverage_converted; done.
  - rewrite (runConversionMethodSingleComponent_converted w ri ro ni no) by done.
    rewrite Himg. reflexivity.
Qed.

(** A run that returns has passed the validation and converted. *)
Lemma run_returns (p : VectorToScalarVolumeParameterNode) (w w' : World) :
  run (Some p) w = (inr tt, w') ->
  exists ri ro ni no img,
    InputVolume p = Some ri /\ OutputVolume p = Some ro /\ ri <> ro /\
    scene w !! ri = Some ni /\ scene w !! ro = Some no /\
    ID ni <> ID no /\ ImageData ni = Some img /\
    verdict w (InputVolume p) (OutputVolume p) (Member (ConversionMethod p))
      (ComponentToExtract p) = inr (true, None) /\
    w' = converted w ro ni no
           (VTK.GetOutput (chainOf (ConversionMethod p) (ComponentToExtract p) img))
           (callsOf (ConversionMethod p) ri ro img).
Proof.
  rewrite run_verdict. intros H.
  destruct (verdict _ _ _ _ _) as [e|[[] msg]] eqn:Hv; [discriminate| |discriminate].
  destruct (verdict_passed _ _ _ _ _ _ Hv)
    as (ri & ro & ni & no & img & Hi & Ho & Hne & Hni & Hno & Hid & Himg).
  destruct (verdict_message _ _ _ _ _ _ _ Hv) as [[? _]|[_ ->]]; [discriminate|].
  rewrite (dispatch_converted p w ri ro ni no img) in H by done.
  exists ri, ro, ni, no, img. repeat split; try done. congruence.
Qed.

(** A run that raises leaves the world as it found it. *)
Lemma run_raises (p : VectorToScalarVolumeParameterNode) (w w' : World) (e : Exception) :
  run (Some p) w = (inl e, w') -> w' = w.
Proof.
  rewrite run_verdict. intros H.
  destruct (verdict _ _ _ _ _) as [e'|[[] msg]] eqn:Hv; [congruence| |congruence].
  destruct (verdict_passed _ _ _ _ _ _ Hv)
    as (ri & ro & ni & no & img & Hi & Ho & Hne & Hni & Hno & Hid & Himg).
  rewrite (dispatch_converted p w ri ro ni no img) in H by done. discriminate.
Qed.

(** ** Failures of the validation *)

(** C1, as stated, fails: with the same node selected as input and as
    output and the method AVERAGE, [run] raises a [ValueError] although
    none of the listed cases holds. *)
Lemma same_volume_is_not_listed :
  let p := parameters 1 1 AVERAGE 0 in
  run (Some p) smallWorld = (inl (ValueError (Some sameVolumeMessage)), smallWorld)
  /\ ~ ListedFailure smallWorld (InputVolume p) (OutputVolume p)
        (Member (ConversionMethod p)) (ComponentToExtract p).
Proof.
  split; [vm_compute; reflexivity|].
  intros H. inversion H; discriminate.
Qed.

(** A tuple of several items handed as conversion method, here the
    value of a member, is not reported as unrecognized: formatting the
    message raises. *)
Example value_of_member_is_not_formatted :
  isValidInputOutputData (Some 1%positive) (Some 2%positive)
    (Other (Tuple [fst (value AVERAGE); snd (value AVERAGE)])) 0 smallWorld
  = (inl (TypeError "not all arguments converted during string formatting"), smallWorld).
Proof. vm_compute. reflexivity. Qed.

(** C1, amended: for live selections, the validation fails, with a
    message that is not empty and without changing the world, exactly in
    the listed cases or when input and output have the same identifier,
    for every method argument the message of an unrecognized method can
    be formatted with (a member, or an object other than a tuple of no
    item or of several); [run], which hands over a member, raises a
    [ValueError] carrying that message exactly then. *)
Theorem validation_fails_exactly (w : World) (p : VectorToScalarVolumeParameterNode)
    (m : MethodArgument) :
  live w (InputVolume p) -> live w (OutputVolume p) ->
  let i := InputVolume p in
  let o := OutputVolume p in
  let c := ComponentToExtract p in
  (oneArgument m ->
   ((ListedFailure w i o m c \/ SameVolume w i o)
    <-> exists msg, msg <> ""
          /\ isValidInputOutputData i o m c w = (inr (false, Some msg), w)))
  /\ ((ListedFailure w i o (Member (ConversionMethod p)) c \/ SameVolume w i o)
      <-> exists msg, msg <> ""
            /\ run (Some p) w = (inl (ValueError (Some msg)), w))
  /\ (forall arg w', run (Some p) w = (inl (ValueError arg), w') ->
        ListedFailure w i o (Member (ConversionMethod p)) c \/ SameVolume w i o).
Proof.
  intros Li Lo i o c.
  assert (Hshape : forall m' msg, verdict w i o m' c = inr (false, msg) ->
                   exists s, msg = Some s /\ s <> "").
  { intros m' msg Hv.
    destruct (verdict_message _ _ _ _ _ _ _ Hv) as [[_ ?]|[? _]]; [done|discriminate]. }
  assert (Hiff : forall m', oneArgument m' ->
                 (ListedFailure w i o m' c \/ SameVolume w i o)
                 <-> exists msg, msg <> "" /\ verdict w i o m' c = inr (false, Some msg)).
  { intros m' Hm'. rewrite <- (verdict_fails_iff w i o m' c Li Lo Hm'). split.
    - intros [msg Hv]. destruct (Hshape _ _ Hv) as (s & Heq & Hs).
      injection Heq as ->. eauto.
    - intros (msg & _ & Hv). eauto. }
  assert (Hmember : forall cm, oneArgument (Member cm)) by (intros cm items; discriminate).
  split; [|split].
  - intros Hm. rewrite (Hiff _ Hm).
    split; intros (msg & Hmsg & H); exists msg; split; try done.
    + rewrite isValidInputOutputData_verdict, H. reflexivity.
    + rewrite isValidInputOutputData_verdict in H. congruence.
  - rewrite (Hiff _ (Hmember _)).
    split; intros (msg & Hmsg & H); exists msg; split; try done.
    + rewrite run_verdict. fold i o c. rewrite H. reflexivity.
    + rewrite run_verdict in H. fold i o c in H.
      destruct (verdict w i o _ c) as [e|[[] msg']] eqn:Hv; [| |congruence].
      { assert (e = ValueError (Some msg)) as -> by congruence.
        by destruct (verdict_error _ _ _ _ _ _ Hv (Some msg)). }
      destruct (verdict_passed _ _ _ _ _ _ Hv)
        as (ri & ro & ni & no & img & Hi & Ho & Hne & Hni & Hno & Hid & Himg).
      rewrite (dispatch_converted p w ri ro ni no img) in H by done. discriminate.
  - intros arg w' H. apply (Hiff _ (Hmember _)).
    rewrite run_verdict in H. fold i o c in H.
    destruct (verdict w i o _ c) as [e|[[] msg']] eqn:Hv.
    + assert (e = ValueError arg) as -> by congruence.
      by destruct (verdict_error _ _ _ _ _ _ Hv arg).
    + destruct (verdict_passed _ _ _ _ _ _ Hv)
        as (ri & ro & ni & no & img & Hi & Ho & Hne & Hni & Hno & Hid & Himg).
      rewrite (dispatch_converted p w ri ro ni no img) in H by done. discriminate.
    + destruct (Hshape _ _ Hv) as (s & -> & Hs). eauto.
Qed.

Lemma validation_fails_exactly_witness :
  (exists msg, msg <> ""
     /\ isValidInputOutputData (Some 3%positive) (Some 2%positive) (Other (NoTuple "7")) 0
          smallWorld
        = (inr (false, Some msg), smallWorld))
  /\ (exists msg, msg <> ""
        /\ run (Some (parameters 3 2 LUMINANCE 0)) smallWorld
           = (inl (ValueError (Some msg)), smallWorld)).
Proof.
  destruct (validation_fails_exactly smallWorld (parameters 3 2 LUMINANCE 0)
              (Other (NoTuple "7"))) as (Hvalidation & Hrun & _).
  - intros r Hr. injection Hr as <-. eexists. reflexivity.
  - intros r Hr. injection Hr as <-. eexists. reflexivity.
  - split.
    + apply Hvalidation; [intros items; discriminate|].
      left. by apply (UnrecognizedMethod _ _ _ _ _ (NoTuple "7")).
    + apply Hrun. left.
      apply (TooFewComponents _ _ _ _ _ shortImage); [reflexivity|reflexivity|].
      vm_compute. reflexivity.
Defined.

(** C9: when both selections are made and the two nodes have the same
    identifier, the validation answers with the same-volume message
    whatever the method, the component and the image are, and [run]
    raises a [ValueError] with it, leaving the world unchanged. *)
Theorem same_volume_rejected (w : World) (p : VectorToScalarVolumeParameterNode)
    (ri ro : positive) (ni no : VolumeNode) :
  InputVolume p = Some ri -> OutputVolume p = Some ro ->
  scene w !! ri = Some ni -> scene w !! ro = Some no ->
  ID ni = ID no ->
  run (Some p) w = (inl (ValueError (Some sameVolumeMessage)), w)
  /\ forall (m : MethodArgument) (c : Z),
       isValidInputOutputData (Some ri) (Some ro) m c w
       = (inr (false, Some sameVolumeMessage), w).
Proof.
  intros Hi Ho Hni Hno Hid.
  assert (Hv : forall m c, verdict w (Some ri) (Some ro) m c
                           = inr (false, Some sameVolumeMessage)).
  { intros m c. unfold verdict. rewrite Hni, Hno.
    rewrite bool_decide_eq_true_2 by exact Hid. reflexivity. }
  split.
  - rewrite run_verdict, Hi, Ho, Hv. reflexivity.
  - intros m c. rewrite isValidInputOutputData_verdict, Hv. reflexivity.
Qed.

Lemma same_volume_rejected_witness :
  run (Some (parameters 1 1 SINGLE_COMPONENT 7)) smallWorld
  = (inl (ValueError (Some sameVolumeMessage)), smallWorld).
Proof.
  apply (proj1 (same_volume_rejected smallWorld (parameters 1 1 SINGLE_COMPONENT 7)
                  1 1 rgbNode rgbNode eq_refl eq_refl eq_refl eq_refl eq_refl)).
Defined.

(** C4: when the validation fails, [run] raises a [ValueError] with the
    message of the validation and the world is the one before the call
    (no node changed, no call made on a node or a filter); and whenever
    [run] raises, the world is the one before the call. *)
Theorem run_all_or_nothing (w : World) (p : VectorToScalarVolumeParameterNode) :
  (forall msg w1,
     isValidInputOutputData (InputVolume p) (OutputVolume p)
       (Member (ConversionMethod p)) (ComponentToExtract p) w = (inr (false, msg), w1) ->
     run (Some p) w = (inl (ValueError msg), w))
  /\ (forall e w', run (Some p) w = (inl e, w') -> w' = w).
Proof.
  split.
  - intros msg w1. rewrite isValidInputOutputData_verdict, run_verdict.
    intros H. injection H as H _. rewrite H. reflexivity.
  - intros e w'. apply run_raises.
Qed.

Lemma run_all_or_nothing_witness :
  run (Some (parameters 1 2 SINGLE_COMPONENT 3)) smallWorld
  = (inl (ValueError
            (Some "component to extract (3) is invalid. Image has only 3 components.")),
     smallWorld).
Proof.
  apply (proj1 (run_all_or_nothing smallWorld (parameters 1 2 SINGLE_COMPONENT 3))
           _ smallWorld).
  vm_compute. reflexivity.
Defined.

(** ** Dispatch and determinism *)

Lemma callsMade_converted {A : Type} (m : Py A) (w : World) (a : Exception + A)
    (ro : positive) (ni no : VolumeNode) (image : option vtkImageData) (made : list Call) :
  m w = (a, converted w ro ni no image made) -> callsMade m w = made.
Proof.
  intros H. unfold callsMade. rewrite H. cbn [snd converted calls].
  apply drop_app_length.
Qed.

Lemma imageOf_converted (w : World) (ro : positive) (ni no : VolumeNode)
    (image : option vtkImageData) (made : list Call) :
  imageOf (converted w ro ni no image made) (Some ro) = image.
Proof.
  unfold imageOf, converted. cbn. rewrite lookup_insert_eq. reflexivity.
Qed.

(** C6: once the validation has passed, [run] is the one conversion that
    the conversion method selects; the image it gives the output node
    and the calls it makes are determined by the parameter values and
    the image of the input node, whatever else the world holds; and
    running again with the same parameter node gives the same scene. *)
Theorem run_dispatches (w : World) (p : VectorToScalarVolumeParameterNode) :
  (isValidInputOutputData (InputVolume p) (OutputVolume p) (Member (ConversionMethod p))
     (ComponentToExtract p) w = (inr (true, None), w) ->
   run (Some p) w
   = match ConversionMethod p with
     | SINGLE_COMPONENT =>
         runConversionMethodSingleComponent (InputVolume p) (OutputVolume p)
           (ComponentToExtract p) w
     | LUMINANCE => runConversionMethodLuminance (InputVolume p) (OutputVolume p) w
     | AVERAGE => runConversionMethodAverage (InputVolume p) (OutputVolume p) w
     end)
  /\ (forall w1 w2 w2',
        run (Some p) w = (inr tt, w1) -> run (Some p) w2 = (inr tt, w2') ->
        imageOf w (InputVolume p) = imageOf w2 (InputVolume p) ->
        imageOf w1 (OutputVolume p) = imageOf w2' (OutputVolume p)
        /\ callsMade (run (Some p)) w = callsMade (run (Some p)) w2)
  /\ (forall w1,
        run (Some p) w = (inr tt, w1) ->
        exists w2, run (Some p) w1 = (inr tt, w2) /\ scene w2 = scene w1).
Proof.
  split; [|split].
  - rewrite isValidInputOutputData_verdict, run_verdict. intros H.
    injection H as H. rewrite H. unfold dispatch.
    destruct (ConversionMethod p); reflexivity.
  - intros w1 w2 w2' H1 H2 Himg.
    destruct (run_returns _ _ _ H1)
      as (ri & ro & ni & no & img & Hi & Ho & Hne & Hni & Hno & Hid & Himg1 & _ & Hw1).
    destruct (run_returns _ _ _ H2)
      as (ri' & ro' & ni' & no' & img' & Hi' & Ho' & Hne' & Hni' & Hno' & Hid' & Himg2 & _ & Hw2).
    rewrite Hi in Hi'. injection Hi' as <-. rewrite Ho in Ho'. injection Ho' as <-.
    assert (img' = img) as ->.
    { unfold imageOf in Himg. rewrite Hi in Himg. cbn in Himg.
      rewrite Hni, Hni' in Himg. cbn in Himg. congruence. }
    split.
    + rewrite Ho, Hw1, Hw2, !imageOf_converted. reflexivity.
    + rewrite Hw1 in H1. rewrite Hw2 in H2.
      rewrite (callsMade_converted _ _ _ _ _ _ _ _ H1).
      rewrite (callsMade_converted _ _ _ _ _ _ _ _ H2). reflexivity.
  - intros w1 H1.
    destruct (run_returns _ _ _ H1)
      as (ri & ro & ni & no & img & Hi & Ho & Hne & Hni & Hno & Hid & Himg & Hv & Hw1).
    set (image := VTK.GetOutput (chainOf (ConversionMethod p) (ComponentToExtract p) img))
      in *.
    set (no1 := {| ID := ID no; IJKToRASMatrix := IJKToRASMatrix ni; ImageData := image |}).
    assert (Hni1 : scene w1 !! ri = Some ni).
    { rewrite Hw1. unfold converted. cbn. rewrite lookup_insert_ne by done. exact Hni. }
    assert (Hno1 : scene w1 !! ro = Some no1).
    { rewrite Hw1. unfold converted. cbn. apply lookup_insert_eq. }
    assert (Hv1 : verdict w1 (InputVolume p) (OutputVolume p) (Member (ConversionMethod p))
                    (ComponentToExtract p) = inr (true, None)).
    { rewrite <- Hv. rewrite Hi, Ho. unfold verdict. rewrite Hni, Hno, Hni1, Hno1.
      reflexivity. }
    eexists. split.
    + rewrite run_verdict, Hv1. apply (dispatch_converted p w1 ri ro ni no1 img); done.
    + rewrite Hw1. unfold converted. cbn. apply insert_insert_eq.
Qed.

Lemma run_dispatches_witness :
  run (Some (parameters 1 2 LUMINANCE 0)) smallWorld
  = runConversionMethodLuminance (Some 1%positive) (Some 2%positive) smallWorld.
Proof.
  apply (proj1 (run_dispatches smallWorld (parameters 1 2 LUMINANCE 0))).
  vm_compute. reflexivity.
Defined.

(** ** Geometry and frame *)

(** C10: a run that returns has first copied the matrix of the input
    node onto the output node (these are its first two calls, for each
    of the three methods); afterwards the output node has the matrix of
    the input node, and the input node, like every node but the output
    node, is as before. *)
Theorem run_copies_geometry (w w' : World) (p : VectorToScalarVolumeParameterNode) :
  run (Some p) w = (inr tt, w') ->
  exists ri ro ni no' rest,
    InputVolume p = Some ri /\ OutputVolume p = Some ro /\
    scene w !! ri = Some ni /\ scene w' !! ro = Some no' /\
    callsMade (run (Some p)) w
    = ([onNode ri "GetIJKToRASMatrix"; onNode ro "SetIJKToRASMatrix"] ++ rest)%list /\
    IJKToRASMatrix no' = IJKToRASMatrix ni /\
    scene w' !! ri = Some ni /\
    forall r, r <> ro -> scene w' !! r = scene w !! r.
Proof.
  intros H.
  destruct (run_returns _ _ _ H)
    as (ri & ro & ni & no & img & Hi & Ho & Hne & Hni & Hno & Hid & Himg & Hv & Hw').
  rewrite Hw' in H.
  exists ri, ro, ni.
  exists {| ID := ID no; IJKToRASMatrix := IJKToRASMatrix ni;
            ImageData := VTK.GetOutput (chainOf (ConversionMethod p)
                                          (ComponentToExtract p) img) |}.
  exists (drop 2 (callsOf (ConversionMethod p) ri ro img)).
  repeat split; try done.
  - rewrite Hw'. unfold converted. cbn. apply lookup_insert_eq.
  - rewrite (callsMade_converted _ _ _ _ _ _ _ _ H).
    destruct (ConversionMethod p); reflexivity.
  - rewrite Hw'. unfold converted. cbn. rewrite lookup_insert_ne by done. exact Hni.
  - intros r Hr. rewrite Hw'. unfold converted. cbn. by rewrite lookup_insert_ne.
Qed.

Lemma run_copies_geometry_witness :
  exists ri ro ni no' rest,
    InputVolume (parameters 1 2 AVERAGE 0) = Some ri /\
    OutputVolume (parameters 1 2 AVERAGE 0) = Some ro /\
    scene smallWorld !! ri = Some ni /\
    scene (snd (run (Some (parameters 1 2 AVERAGE 0)) smallWorld)) !! ro = Some no' /\
    callsMade (run (Some (parameters 1 2 AVERAGE 0))) smallWorld
    = ([onNode ri "GetIJKToRASMatrix"; onNode ro "SetIJKToRASMatrix"] ++ rest)%list /\
    IJKToRASMatrix no' = IJKToRASMatrix ni /\
    scene (snd (run (Some (parameters 1 2 AVERAGE 0)) smallWorld)) !! ri = Some ni /\
    forall r, r <> ro ->
      scene (snd (run (Some (parameters 1 2 AVERAGE 0)) smallWorld)) !! r
      = scene smallWorld !! r.
Proof.
  apply (run_copies_geometry smallWorld
           (snd (run (Some (parameters 1 2 AVERAGE 0)) smallWorld))
           (parameters 1 2 AVERAGE 0)).
  vm_compute. reflexivity.
Defined.

(** ** The average *)

Lemma range_bounds (n c : Z) : In c (range n) -> 0 <= c < n.
Proof.
  unfold range. rewrite in_map_iff. intros (k & <- & Hk).
  apply in_seq in Hk. lia.
Qed.

Lemma length_range (n : Z) : length (range n) = Z.to_nat n.
Proof. unfold range. rewrite length_map, length_seq. reflexivity. Qed.

Lemma extractComponents_single (img : vtkImageData) (c : Z) :
  0 <= c < GetNumberOfScalarComponents img ->
  is_Some (extractComponents [c] img).
Proof.
  intros Hc. unfold extractComponents. cbn [forallb].
  destruct (Z.leb_spec 0 c); [|lia].
  destruct (Z.ltb_spec c (GetNumberOfScalarComponents img)); [|lia].
  cbn. eauto.
Qed.

(** The chain of the average produces an image of the input's type. *)
Lemma averageChain_output (img : vtkImageData) :
  exists out, VTK.GetOutput (averageChain img) = Some out
              /\ ScalarType out = ScalarType img.
Proof.
  unfold averageChain.
  set (n := GetNumberOfScalarComponents img).
  set (chain := fun c : Z =>
         Cast VTK_DOUBLE (Some (ExtractComponents [c] (Some (ImageSource (Some img)))))).
  set (sum := WeightedSum _ false _).
  assert (Hsum : is_Some (VTK.GetOutput sum)).
  { subst sum. cbn [VTK.GetOutput].
    destruct (mapM VTK.GetOutput (map chain (range n))) as [imgs|] eqn:Hm.
    - assert (Hlen : length imgs = Z.to_nat n).
      { apply length_mapM in Hm. rewrite length_map, length_range in Hm. congruence. }
      destruct imgs as [|first imgs].
      + cbn in Hlen. subst n. unfold GetNumberOfScalarComponents in Hlen. lia.
      + cbn. eauto.
    - exfalso. apply eq_None_not_Some in Hm. apply Hm.
      apply mapM_is_Some, Forall_forall. intros q Hq.
      apply list_elem_of_In, in_map_iff in Hq. destruct Hq as (c & <- & Hc).
      apply range_bounds in Hc.
      destruct (extractComponents_single img c Hc) as [e He].
      unfold chain. cbn [VTK.GetOutput compose]. cbn. rewrite He. cbn. eauto. }
  destruct Hsum as [s Hs].
  destruct (isFloatingType (ScalarType img)); cbn [VTK.GetOutput]; rewrite Hs; cbn; eauto.
Qed.

(** After a run of the method AVERAGE that returns, the image of
    the output node is the one the chain [averageChain] produces from
    the input image (each component cast to double, summed with the
    weight 1/n and no normalisation, 0.5 added exactly for the types
    other than VTK_FLOAT and VTK_DOUBLE, cast back), and its scalar type
    is the scalar type of the input image. *)
Lemma average_keeps_scalar_type (w w' : World) (p : VectorToScalarVolumeParameterNode) :
  ConversionMethod p = AVERAGE ->
  run (Some p) w = (inr tt, w') ->
  exists img out,
    imageOf w (InputVolume p) = Some img /\
    imageOf w' (OutputVolume p) = Some out /\
    VTK.GetOutput (averageChain img) = Some out /\
    ScalarType out = ScalarType img.
Proof.
  intros Hm H.
  destruct (run_returns _ _ _ H)
    as (ri & ro & ni & no & img & Hi & Ho & Hne & Hni & Hno & Hid & Himg & Hv & Hw').
  destruct (averageChain_output img) as (out & Hout & Hty).
  exists img, out. repeat split; try done.
  - unfold imageOf. rewrite Hi. cbn. rewrite Hni. exact Himg.
  - rewrite Ho, Hw', imageOf_converted, Hm. exact Hout.
Qed.

Example average_keeps_scalar_type_of_shorts :
  exists img out,
    imageOf smallWorld (InputVolume (parameters 3 2 AVERAGE 0)) = Some img /\
    imageOf (snd (run (Some (parameters 3 2 AVERAGE 0)) smallWorld))
      (OutputVolume (parameters 3 2 AVERAGE 0)) = Some out /\
    VTK.GetOutput (averageChain img) = Some out /\
    ScalarType out = ScalarType img.
Proof.
  apply (average_keeps_scalar_type smallWorld
           (snd (run (Some (parameters 3 2 AVERAGE 0)) smallWorld))
           (parameters 3 2 AVERAGE 0)).
  - reflexivity.
  - vm_compute. reflexivity.
Defined.

(** C3, at an input with negative components: the means of
    (-30, -50, -100) and of (-10, -10, -10) are the integers -60 and -10;
    the run of the method AVERAGE returns, the output has the type of the
    input, and its voxels are -59 and -9. The cast back truncates towards
    zero, so that adding 0.5 before it rounds a sum to the nearest integer
    when the sum is not negative only (unsigned bytes: 60 and 255 for
    (30, 50, 100) and (255, 255, 254)). *)
Theorem average_of_negative_components :
  let p := parameters 4 2 AVERAGE 0 in
  let out := imageOf (snd (run (Some p) smallWorld)) (OutputVolume p) in
  imageOf smallWorld (InputVolume p) = Some negativeImage
  /\ (-30 + -50 + -100 = 3 * -60 /\ -10 + -10 + -10 = 3 * -10)
  /\ fst (run (Some p) smallWorld) = inr tt
  /\ ScalarType <$> out = Some VTK_SHORT
  /\ Voxels <$> out = Some [[SInt (-59)]; [SInt (-9)]]
  /\ Voxels <$> VTK.GetOutput (averageChain rgbImage) = Some [[SInt 60]; [SInt 255]].
Proof. repeat split; vm_compute; reflexivity. Qed.

(** ** Calls on filter objects *)







(** ** The self test *)

(** C2: the input of the test is the 7x8x9 image of unsigned bytes whose
    voxels all are (30, 50, 100); from it the single component 0 gives the
    constant image 30, the component 1 the constant image 50, the
    luminance the constant image 49 and the average the constant image
    60, each with the one-point scalar range of its value; and the test
    passes. *)
Theorem test_conversions :
  imageOf testWorld (Some 1%positive) = Some (constantImage [30; 50; 100])
  /\ (convertedTestImage SINGLE_COMPONENT 0 = Some (constantImage [30])
      /\ GetScalarRange (constantImage [30]) = (30, 30)%float)
  /\ (convertedTestImage SINGLE_COMPONENT 1 = Some (constantImage [50])
      /\ GetScalarRange (constantImage [50]) = (50, 50)%float)
  /\ (convertedTestImage LUMINANCE 0 = Some (constantImage [49])
      /\ GetScalarRange (constantImage [49]) = (49, 49)%float)
  /\ (convertedTestImage AVERAGE 0 = Some (constantImage [60])
      /\ GetScalarRange (constantImage [60]) = (60, 60)%float)
  /\ fst (runTest {| scene := ∅; calls := [] |}) = inr tt.
Proof.
  repeat split; vm_compute; reflexivity.
Qed.

(** ** Downloads *)

Section Downloads.
Import Util.

Lemma retrieves_ret {A} (a : A) : retrievesAtMost 0 (mret a : IO A).
Proof. intros d. cbn. lia. Qed.

Lemma retrieves_raise {A} (e : Exception) : retrievesAtMost 0 (raise e : IO A).
Proof. intros d. cbn. lia. Qed.

Lemma retrieves_bind {A B} (a b : nat) (m : IO A) (f : A -> IO B) :
  retrievesAtMost a m -> (forall x, retrievesAtMost b (f x)) ->
  retrievesAtMost (a + b) (m ≫= f).
Proof.
  intros Hm Hf d. rewrite bind_run. specialize (Hm d).
  destruct (m d) as [[e|x] d']; cbn in *; [lia|].
  specialize (Hf x d'). lia.
Qed.




Lemma retrieves_exists path : retrievesAtMost 0 (exists_ path).
Proof. intros d. cbn. lia. Qed.

Lemma retrieves_stat_size path : retrievesAtMost 0 (stat_size path).
Proof.
  intros d. unfold stat_size.
  destruct (files d !! path); [|destruct (bool_decide _)]; cbn; lia.
Qed.

Lemma retrieves_open path : retrievesAtMost 0 (open path).
Proof.
  intros d. unfold open.
  destruct (files d !! path); [|destruct (bool_decide _)]; cbn; lia.
Qed.

Lemma retrieves_remove path : retrievesAtMost 0 (remove path).
Proof.
  intros d. unfold remove.
  destruct (files d !! path); [|destruct (bool_decide _)]; cbn; lia.
Qed.

Lemma retrieves_rmtree path : retrievesAtMost 0 (rmtree path).
Proof. intros d. unfold rmtree. repeat destruct (bool_decide _); cbn; lia. Qed.

Lemma retrieves_mkdir path : retrievesAtMost 0 (mkdir path).
Proof.
  intros d. unfold mkdir. destruct (_ || _); [|destruct (negb _)]; cbn; lia.
Qed.

Lemma retrieves_getFilesInDirectory path : retrievesAtMost 0 (getFilesInDirectory path).
Proof. intros d. cbn. lia. Qed.

Lemma retrieves_Unzip archive dir : retrievesAtMost 0 (Unzip archive dir).
Proof.
  intros d. unfold Unzip.
  destruct (_ ≫= _); [cbv zeta; destruct (_ || _)|]; cbn; lia.
Qed.


Lemma retrieves_computeChecksum algo path : retrievesAtMost 0 (computeChecksum algo path).
Proof.
  unfold computeChecksum. destruct (negb _); [intros d; cbn; lia|].
  apply (retrieves_bind 0 0); [apply retrieves_open|]. intros f d. cbn. lia.
Qed.

Lemma retrieves_extractAlgoAndDigest checksum :
  retrievesAtMost 0 (extractAlgoAndDigest checksum : IO _).
Proof.
  intros d. unfold extractAlgoAndDigest.
  repeat match goal with
         | |- context [match ?x with _ => _ end] => destruct x
         end; cbn; lia.
Qed.

Create HintDb retrieves.

#[local] Hint Resolve retrieves_ret retrieves_raise retrieves_exists retrieves_stat_size
  retrieves_remove retrieves_rmtree retrieves_mkdir retrieves_getFilesInDirectory
  retrieves_Unzip retrieves_computeChecksum retrieves_extractAlgoAndDigest : retrieves.









(** When every attempt fails, the last pass through the loop has already
    removed the archive, and the [_cleanup] after the loop raises on
    removing it again: the call ends with [FileNotFoundError], not with
    [False]. *)
Example exhausted_trials_raise :
  let d := {| files := ∅; folders := {[ "out" ]};
              network := [Delivered notAnArchive; Delivered notAnArchive];
              retrievals := 0 |} in
  let r := downloadAndExtractArchive 3 "http://host/data.zip" "data.zip" "out"
             None 2 None d in
  fst r = inl (FileNotFoundError "data.zip") /\ retrievals (snd r) = 2%nat.
Proof. split; vm_compute; reflexivity. Qed.



End Downloads.

(** * More properties of the code *)

(** ** Checksums *)

Section Checksums.
Import Util.

Lemma chars_append (a b : string) : chars (a ++ b) = (chars a ++ chars b)%list.
Proof.
  unfold chars. induction a as [|c a IH]; [reflexivity|].
  change (c :: list_ascii_of_string (a ++ b) = c :: (list_ascii_of_string a ++ list_ascii_of_string b)%list).
  by f_equal.
Qed.

Lemma chars_length (s : string) : length (chars s) = String.length s.
Proof.
  unfold chars. induction s as [|c s IH]; [reflexivity|]. cbn. by f_equal.
Qed.

Lemma splitOn_without sep (s : list ascii) : sep ∉ s -> splitOn sep s = [s].
Proof.
  induction s as [|c s IH]; intros Hs; cbn; [reflexivity|].
  apply not_elem_of_cons in Hs as [Hc Hs].
  rewrite bool_decide_eq_false_2 by congruence. rewrite IH by exact Hs. reflexivity.
Qed.

Lemma splitOn_at sep (a b : list ascii) :
  sep ∉ a -> splitOn sep (a ++ sep :: b) = a :: splitOn sep b.
Proof.
  induction a as [|c a IH]; intros Ha; cbn.
  - rewrite bool_decide_eq_true_2 by reflexivity. reflexivity.
  - apply not_elem_of_cons in Ha as [Hc Ha].
    rewrite bool_decide_eq_false_2 by congruence. rewrite IH by exact Ha. reflexivity.
Qed.

Lemma splitOn_nonempty sep (s : list ascii) : splitOn sep s <> [].
Proof.
  destruct s as [|c s]; cbn; [discriminate|].
  destruct (bool_decide (c = sep)); [discriminate|].
  destruct (splitOn sep s); discriminate.
Qed.

Lemma splitOn_one sep (s a : list ascii) : splitOn sep s = [a] -> s = a /\ (sep ∉ a).
Proof.
  revert a. induction s as [|c s IH]; intros a; cbn.
  - intros [= <-]. split; [reflexivity|apply not_elem_of_nil].
  - destruct (bool_decide (c = sep)) eqn:Hc.
    + intros H. injection H as _ H. by destruct (splitOn_nonempty sep s).
    + apply bool_decide_eq_false in Hc.
      destruct (splitOn sep s) as [|p ps] eqn:Hs; [by destruct (splitOn_nonempty sep s)|].
      intros H. injection H as <- ->. destruct (IH p eq_refl) as [-> Hp].
      split; [reflexivity|]. apply not_elem_of_cons. split; [congruence|exact Hp].
Qed.

(** The two parts of a split hold no separator, and joined they are the text. *)
Lemma splitOn_two sep (s a b : list ascii) :
  splitOn sep s = [a; b] -> s = (a ++ sep :: b)%list /\ (sep ∉ a) /\ (sep ∉ b).
Proof.
  revert a. induction s as [|c s IH]; intros a; cbn; [discriminate|].
  destruct (bool_decide (c = sep)) eqn:Hc.
  - apply bool_decide_eq_true in Hc as ->. intros H. injection H as <- H.
    destruct (splitOn_one _ _ _ H) as [-> Hb].
    split; [reflexivity|]. split; [apply not_elem_of_nil|exact Hb].
  - apply bool_decide_eq_false in Hc.
    destruct (splitOn sep s) as [|p ps] eqn:Hs; [discriminate|].
    intros H. injection H as <- ->. destruct (IH p eq_refl) as (-> & Hp & Hb).
    split; [reflexivity|]. split; [|exact Hb].
    apply not_elem_of_cons. split; [congruence|exact Hp].
Qed.

Lemma algorithm_without_colon (algo : string) :
  algo ∈ ["SHA256"; "SHA512"; "MD5"] -> ":"%char ∉ chars algo.
Proof.
  rewrite !elem_of_cons, elem_of_nil. intros [->|[->|[->|[]]]]; vm_compute;
    intros H; repeat (apply elem_of_cons in H as [H|H]; [discriminate|]);
    by apply elem_of_nil in H.
Qed.

Lemma extractAlgoAndDigest_parses {W : Type} (algo digest : string) (w : W) :
  algo ∈ ["SHA256"; "SHA512"; "MD5"] ->
  ":"%char ∉ chars digest ->
  Z.of_nat (String.length digest) = expectedDigestLength algo ->
  extractAlgoAndDigest (Some (algo ++ ":" ++ digest)) w = (inr (Some algo, Some digest), w).
Proof.
  intros Halgo Hdigest Hlen. unfold extractAlgoAndDigest, split.
  rewrite chars_append. change (chars (":" ++ digest)) with (":"%char :: chars digest).
  rewrite splitOn_at by (by apply algorithm_without_colon).
  rewrite splitOn_without by exact Hdigest.
  cbn [map]. unfold chars. rewrite !string_of_list_ascii_of_string.
  rewrite bool_decide_eq_true_2 by exact Halgo. cbn [negb].
  fold (expectedDigestLength algo). rewrite Hlen, Z.eqb_refl. reflexivity.
Qed.

(** X1: a checksum text made of one of the three algorithm names, a
    colon and a digest of that algorithm's length without colon is taken
    apart into exactly these two. *)
Theorem extractAlgoAndDigest_accepts {W : Type} (algo digest : string) (w : W) :
  algo ∈ ["SHA256"; "SHA512"; "MD5"] ->
  ":"%char ∉ chars digest ->
  Z.of_nat (String.length digest) = expectedDigestLength algo ->
  extractAlgoAndDigest (Some (algo ++ ":" ++ digest)) w = (inr (Some algo, Some digest), w).
Proof. apply extractAlgoAndDigest_parses. Qed.

Lemma extractAlgoAndDigest_accepts_witness :
  extractAlgoAndDigest (Some ("MD5" ++ ":" ++ "0123456789abcdef0123456789abcdef")) tt
  = (inr (Some "MD5", Some "0123456789abcdef0123456789abcdef"), tt).
Proof.
  apply (extractAlgoAndDigest_accepts "MD5" "0123456789abcdef0123456789abcdef" tt).
  - vm_compute. set_solver.
  - apply (bool_decide_unpack _). vm_compute. exact I.
  - vm_compute. reflexivity.
Defined.

Lemma extractAlgoAndDigest_outcome {W : Type} (checksum : option string) (w : W) :
  match extractAlgoAndDigest checksum w with
  | (inr (Some algo, Some digest), w') =>
      w' = w /\ checksum = Some (algo ++ ":" ++ digest)
      /\ algo ∈ ["SHA256"; "SHA512"; "MD5"]
      /\ Z.of_nat (String.length digest) = expectedDigestLength algo
      /\ (":"%char ∉ chars digest)
  | (inr (None, None), w') => w' = w /\ checksum = None
  | (inr _, _) => False
  | (inl e, w') => w' = w /\ exists msg, e = ValueError (Some msg)
  end.
Proof.
  unfold extractAlgoAndDigest. destruct checksum as [checksum|]; [|done].
  unfold split.
  destruct (splitOn ":" (chars checksum)) as [|a [|d [|? ?]]] eqn:Hsplit; cbn [map];
    try (split; [reflexivity|eauto]).
  destruct (splitOn_two _ _ _ _ Hsplit) as (Hs & Ha & Hd).
  destruct (bool_decide (string_of_list_ascii a ∈ _)) eqn:Halgo; cbn [negb];
    [|split; [reflexivity|eauto]].
  apply bool_decide_eq_true in Halgo.
  fold (expectedDigestLength (string_of_list_ascii a)).
  destruct (Z.eqb_spec (Z.of_nat (String.length (string_of_list_ascii d)))
              (expectedDigestLength (string_of_list_ascii a))) as [Hlen|Hlen]; cbn [negb];
    [|split; [reflexivity|eauto]].
  split; [reflexivity|]. split; [|split; [exact Halgo|split; [exact Hlen|]]].
  - f_equal. rewrite <- (string_of_list_ascii_of_string checksum).
    fold (chars checksum). rewrite Hs.
    rewrite <- (list_ascii_of_string_of_list_ascii a) at 1.
    rewrite <- (list_ascii_of_string_of_list_ascii d) at 1.
    change (":"%char :: list_ascii_of_string (string_of_list_ascii d))
      with (chars (":" ++ string_of_list_ascii d)).
    fold (chars (string_of_list_ascii a)). rewrite <- chars_append.
    apply string_of_list_ascii_of_string.
  - unfold chars. rewrite list_ascii_of_string_of_list_ascii. exact Hd.
Qed.

(** X2: without a checksum [extractAlgoAndDigest] returns [(None,
    None)], and this is the only input for which it does; whatever else
    it returns is one of the three algorithm names and a digest of that
    algorithm's length, for the text made of the name, a colon and the
    digest; every other input raises a [ValueError] with a message. The
    world is never changed. *)
Theorem extractAlgoAndDigest_returns {W : Type} (checksum : option string) (w : W) :
  extractAlgoAndDigest None w = (inr (None, None), w)
  /\ match extractAlgoAndDigest checksum w with
  | (inr (Some algo, Some digest), w') =>
      w' = w /\ checksum = Some (algo ++ ":" ++ digest)
      /\ algo ∈ ["SHA256"; "SHA512"; "MD5"]
      /\ Z.of_nat (String.length digest) = expectedDigestLength algo
      /\ (":"%char ∉ chars digest)
  | (inr (None, None), w') => w' = w /\ checksum = None
  | (inr _, _) => False
  | (inl e, w') => w' = w /\ exists msg, e = ValueError (Some msg)
  end.
Proof. split; [reflexivity|apply extractAlgoAndDigest_outcome]. Qed.

End Checksums.

(** ** Cached and verified downloads *)

(** A sequence that returns: its first part returned, then the rest did. *)
Lemma bind_inr {W A B : Type} (m : Run W A) (f : A -> Run W B) (w w' : W) (b : B) :
  (m ≫= f) w = (inr b, w') ->
  exists a w1, m w = (inr a, w1) /\ f a w1 = (inr b, w').
Proof.
  rewrite bind_run. destruct (m w) as [[e|a] w1]; [discriminate|]. eauto.
Qed.

Ltac inv_bind H :=
  let a := fresh "a" in
  let w1 := fresh "d" in
  let H1 := fresh "H" in
  apply bind_inr in H as (a & w1 & H1 & H).

Ltac io_steps :=
  cbv beta iota zeta delta [mbind mret Run_bind Run_ret raise tryExcept] in *.

Section CachedDownloads.
Import Util.

Lemma extractAlgoAndDigest_pure {W : Type} (checksum : option string) (w : W) :
  snd (extractAlgoAndDigest checksum w) = w.
Proof.
  pose proof (extractAlgoAndDigest_outcome checksum w) as H.
  destruct (extractAlgoAndDigest checksum w) as [[e|[[a|] [dg|]]] w']; cbn; tauto.
Qed.

(** What [downloadFileFrom] does once the checksum text is taken apart. *)
Lemma downloadFileFrom_parsed (k : nat) url target checksum algo digest (d : Disk) :
  extractAlgoAndDigest checksum d = (inr (algo, digest), d) ->
  downloadFileFrom k url target checksum d
  = (present ← exists_ target;
     size ← (if present then stat_size target else mret 0);
     if negb present || (size =? 0) then
       retrieved ← tryExcept (urlretrieve url target;; mret true) (fun e => mret false);
       if negb retrieved then mret false
       else
         match algo with
         | Some algo =>
             current_digest ← computeChecksum algo target;
             if negb (bool_decide (Some current_digest = digest)) then mret false
             else mret true
         | None => mret true
         end
     else
       match algo with
       | Some algo =>
           current_digest ← computeChecksum algo target;
           if negb (bool_decide (Some current_digest = digest)) then
             match k with
             | S k => remove target;; downloadFileFrom k url target checksum
             | O => mret false
             end
           else mret true
       | None => mret true
       end) d.
Proof.
  intros H. destruct k; cbn [downloadFileFrom]; rewrite bind_run;
    unfold tryExcept at 1; rewrite bind_run, H; reflexivity.
Qed.

Lemma downloadFile_unparsed (url targetFilePath : string)
    (checksum : option string) (reDownloadIfChecksumInvalid : bool) (d d' : Disk)
    (e : Exception) :
  extractAlgoAndDigest checksum d = (inl e, d') ->
  downloadFile url targetFilePath checksum reDownloadIfChecksumInvalid d = (inr false, d).
Proof.
  intros H. pose proof (extractAlgoAndDigest_outcome checksum d) as Hr.
  rewrite H in Hr. destruct Hr as (-> & msg & ->).
  unfold downloadFile.
  destruct reDownloadIfChecksumInvalid; cbn [downloadFileFrom]; rewrite bind_run;
    unfold tryExcept; rewrite bind_run, H; reflexivity.
Qed.

(** X3: a checksum text that cannot be taken apart makes [downloadFile]
    return [False] at once: nothing is downloaded and the disk is as before. *)
Theorem downloadFile_rejects_malformed_checksum (url targetFilePath : string)
    (checksum : option string) (reDownloadIfChecksumInvalid : bool) (d d' : Disk)
    (e : Exception) :
  extractAlgoAndDigest checksum d = (inl e, d') ->
  downloadFile url targetFilePath checksum reDownloadIfChecksumInvalid d = (inr false, d).
Proof. apply downloadFile_unparsed. Qed.

Lemma downloadFile_rejects_malformed_checksum_witness :
  downloadFile "http://host/data.zip" "data.zip" (Some "SHA1:abc") true flakyDisk
  = (inr false, flakyDisk).
Proof.
  apply (downloadFile_rejects_malformed_checksum _ _ _ _ _ flakyDisk
           (ValueError (Some "invalid algo 'SHA1'"))).
  vm_compute. reflexivity.
Defined.

(** X4: a file that is there, is not empty and, when a checksum is given,
    has the digest asked for, is taken as it is: [downloadFile] returns
    [True], downloads nothing and leaves the disk as it is. *)
Theorem downloadFile_keeps_verified_file (url targetFilePath : string)
    (checksum : option string) (reDownloadIfChecksumInvalid : bool) (d : Disk)
    (f : File) (algo digest : option string) :
  files d !! targetFilePath = Some f ->
  st_size f <> 0 ->
  extractAlgoAndDigest checksum d = (inr (algo, digest), d) ->
  (forall a, algo = Some a -> digest = Some (hexdigest f a)) ->
  downloadFile url targetFilePath checksum reDownloadIfChecksumInvalid d = (inr true, d).
Proof.
  intros Hf Hsize Hparse Hdigest. unfold downloadFile.
  rewrite (downloadFileFrom_parsed _ _ _ _ _ _ _ Hparse).
  pose proof (extractAlgoAndDigest_outcome checksum d) as Hr. rewrite Hparse in Hr.
  unfold exists_, stat_size, computeChecksum, open. io_steps. rewrite Hf.
  rewrite bool_decide_eq_true_2 by eauto. cbn [orb negb]. io_steps. rewrite Hf.
  destruct (Z.eqb_spec (st_size f) 0) as [?|_]; [done|].
  destruct algo as [a|]; [|reflexivity].
  destruct digest as [dg|]; [|done]. destruct Hr as (_ & _ & Ha & _).
  rewrite bool_decide_eq_true_2 by exact Ha. cbn [negb]. io_steps. rewrite Hf.
  rewrite (Hdigest a eq_refl). rewrite bool_decide_eq_true_2 by reflexivity.
  reflexivity.
Qed.

Lemma downloadFile_keeps_verified_file_witness :
  let d := {| files := {[ "data.zip" := goodArchive ]}; folders := ∅;
              network := [Refused]; retrievals := 0 |} in
  downloadFile "http://host/data.zip" "data.zip" None true d = (inr true, d).
Proof.
  refine (downloadFile_keeps_verified_file _ "data.zip" None true _ goodArchive None None
            _ _ _ _).
  - reflexivity.
  - vm_compute. discriminate.
  - reflexivity.
  - intros a Ha. discriminate Ha.
Defined.

Lemma extractAlgoAndDigest_anywhere {W W' : Type} (checksum : option string)
    (w : W) (w' : W') :
  fst (extractAlgoAndDigest checksum w) = fst (extractAlgoAndDigest checksum w').
Proof.
  unfold extractAlgoAndDigest.
  repeat match goal with
         | |- context [match ?x with _ => _ end] => destruct x
         end; reflexivity.
Qed.

Lemma extractAlgoAndDigest_again (checksum : option string) (d d' : Disk) r :
  extractAlgoAndDigest checksum d = (inr r, d) ->
  extractAlgoAndDigest checksum d' = (inr r, d').
Proof.
  intros H. pose proof (extractAlgoAndDigest_anywhere checksum d d') as Hfst.
  pose proof (extractAlgoAndDigest_pure checksum d') as Hsnd.
  rewrite H in Hfst. destruct (extractAlgoAndDigest checksum d') as [x y].
  cbn in *. congruence.
Qed.

Lemma exists_inv path (d d' : Disk) (b : bool) :
  exists_ path d = (inr b, d') ->
  d' = d /\ (b = true <-> is_Some (files d !! path) \/ path ∈ folders d).
Proof.
  unfold exists_. intros H. injection H as <- <-. split; [reflexivity|].
  rewrite orb_true_iff, !bool_decide_eq_true. reflexivity.
Qed.

Lemma stat_size_inv path (d d' : Disk) (z : Z) :
  stat_size path d = (inr z, d') ->
  d' = d /\ forall f, files d !! path = Some f -> z = st_size f.
Proof.
  unfold stat_size. intros H.
  destruct (files d !! path) as [f|]; [|destruct (bool_decide _)];
    simplify_eq; split; try done. by intros ? [= <-].
Qed.

Lemma computeChecksum_inv algo path (d d' : Disk) (digest : string) :
  computeChecksum algo path d = (inr digest, d') ->
  d' = d /\ hasDigest d path algo digest.
Proof.
  unfold computeChecksum, hasDigest, open. destruct (negb _); [discriminate|].
  io_steps. destruct (files d !! path) as [f|]; [|destruct (bool_decide _); discriminate].
  intros H. injection H as <- <-. eauto.
Qed.

Lemma remove_inv path (d d' : Disk) :
  remove path d = (inr tt, d') ->
  is_Some (files d !! path)
  /\ d' = {| files := delete path (files d); folders := folders d;
             network := network d; retrievals := retrievals d |}.
Proof.
  unfold remove. destruct (files d !! path); [|destruct (bool_decide _); discriminate].
  intros H. injection H as <-. eauto.
Qed.

(** A download that is reported as done has written the file. *)
Lemma retrieved_inv url target (d d' : Disk) :
  tryExcept (urlretrieve url target;; mret true) (fun e => mret false) d = (inr true, d') ->
  exists f, files d' !! target = Some f /\ folders d' = folders d.
Proof.
  unfold tryExcept, urlretrieve. rewrite bind_run. cbv zeta.
  destruct (network d) as [|[|f|f] rest];
    repeat match goal with |- context [if ?b then _ else _] => destruct b end;
    cbn; try discriminate.
  intros H. injection H as <-. cbn. exists f. by rewrite lookup_insert_eq.
Qed.

Lemma downloadFileFrom_true (k : nat) url target checksum algo digest (d d' : Disk) :
  extractAlgoAndDigest checksum d = (inr (algo, digest), d) ->
  downloadFileFrom k url target checksum d = (inr true, d') ->
  (is_Some (files d' !! target) \/ target ∈ folders d')
  /\ forall a, algo = Some a ->
       exists dg, digest = Some dg /\ hasDigest d' target a dg.
Proof.
  revert d. induction k as [|k IH]; intros d Hparse H;
    rewrite (downloadFileFrom_parsed _ _ _ _ _ _ _ Hparse) in H.
  all: inv_bind H; apply exists_inv in H0 as [-> Hpresent].
  all: inv_bind H.
  all: assert (d0 = d) as ->
         by (destruct a; [by apply stat_size_inv in H0 as [-> _]|by injection H0]).
  all: destruct (negb a || (a0 =? 0)) eqn:Hcond.
  1,3: inv_bind H; destruct a1; cbn [negb] in H; [|discriminate];
       apply retrieved_inv in H1 as (f & Hf & _);
       destruct algo as [algo|];
       [ inv_bind H; apply computeChecksum_inv in H1 as [-> Hd];
         destruct (bool_decide (Some a1 = digest)) eqn:Heq; cbn [negb] in H; [|discriminate];
         apply bool_decide_eq_true in Heq; injection H as <-;
         split; [left; eauto|]; intros ? [= <-]; eauto
       | injection H as <-; split; [left; eauto|]; intros ? [=] ].
  all: apply orb_false_iff in Hcond as [Ha _]; apply negb_false_iff in Ha; subst a.
  all: destruct algo as [algo|]; [|injection H as <-; split; [by apply Hpresent|intros ? [=]]].
  all: inv_bind H; apply computeChecksum_inv in H1 as [-> Hd].
  all: destruct (bool_decide (Some a = digest)) eqn:Heq; cbn [negb] in H.
  1,3: apply bool_decide_eq_true in Heq; injection H as <-;
       split; [by apply Hpresent|]; intros ? [= <-]; eauto.
  - discriminate.
  - inv_bind H. destruct a1. apply remove_inv in H1 as [_ ->].
    apply IH in H; [exact H|]. eapply extractAlgoAndDigest_again, Hparse.
Qed.

Lemma extractAlgoAndDigest_wrong_length {W : Type} (algo digest : string) (w : W) :
  algo ∈ ["SHA256"; "SHA512"; "MD5"] ->
  ":"%char ∉ chars digest ->
  Z.of_nat (String.length digest) <> expectedDigestLength algo ->
  extractAlgoAndDigest (Some (algo ++ ":" ++ digest)) w
  = (inl (ValueError (Some "invalid digest length")), w).
Proof.
  intros Halgo Hdigest Hlen. unfold extractAlgoAndDigest, split.
  rewrite chars_append. change (chars (":" ++ digest)) with (":"%char :: chars digest).
  rewrite splitOn_at by (by apply algorithm_without_colon).
  rewrite splitOn_without by exact Hdigest.
  cbn [map]. unfold chars. rewrite !string_of_list_ascii_of_string.
  rewrite bool_decide_eq_true_2 by exact Halgo. cbn [negb].
  fold (expectedDigestLength algo).
  destruct (Z.eqb_spec (Z.of_nat (String.length digest)) (expectedDigestLength algo));
    [done|reflexivity].
Qed.

Lemma downloadFile_true (url targetFilePath : string)
    (checksum : option string) (reDownloadIfChecksumInvalid : bool) (d d' : Disk) :
  downloadFile url targetFilePath checksum reDownloadIfChecksumInvalid d = (inr true, d') ->
  (is_Some (files d' !! targetFilePath) \/ targetFilePath ∈ folders d')
  /\ forall algo digest,
       checksum = Some (algo ++ ":" ++ digest) ->
       algo ∈ ["SHA256"; "SHA512"; "MD5"] -> ":"%char ∉ chars digest ->
       hasDigest d' targetFilePath algo digest.
Proof.
  intros H.
  destruct (extractAlgoAndDigest checksum d) as [[e|[a dg]] d0] eqn:Hparse.
  { rewrite (downloadFile_unparsed url targetFilePath checksum
               reDownloadIfChecksumInvalid d d0 e Hparse) in H. discriminate. }
  assert (d0 = d) as ->.
  { pose proof (extractAlgoAndDigest_pure checksum d) as Hp. by rewrite Hparse in Hp. }
  unfold downloadFile in H.
  destruct (downloadFileFrom_true _ _ _ _ _ _ _ _ Hparse H) as [Hexists Hdigest].
  split; [exact Hexists|]. intros algo digest -> Halgo Hcolon.
  destruct (Z.eq_dec (Z.of_nat (String.length digest)) (expectedDigestLength algo))
    as [Hlen|Hlen].
  - rewrite (extractAlgoAndDigest_parses algo digest d Halgo Hcolon Hlen) in Hparse.
    injection Hparse as <- <-.
    destruct (Hdigest algo eq_refl) as (dg & [= <-] & Hd). exact Hd.
  - rewrite (extractAlgoAndDigest_wrong_length algo digest d Halgo Hcolon Hlen) in Hparse.
    discriminate.
Qed.

(** X5: when [downloadFile] returns [True], the target path exists; and
    when a checksum [algo:digest] was given ([algo] one of the three
    names, no colon in [digest]), the target is a file whose digest under
    [algo] is [digest], whether the file was found or downloaded. *)
Theorem downloadFile_true_is_verified (url targetFilePath : string)
    (checksum : option string) (reDownloadIfChecksumInvalid : bool) (d d' : Disk) :
  downloadFile url targetFilePath checksum reDownloadIfChecksumInvalid d = (inr true, d') ->
  (is_Some (files d' !! targetFilePath) \/ targetFilePath ∈ folders d')
  /\ forall algo digest,
       checksum = Some (algo ++ ":" ++ digest) ->
       algo ∈ ["SHA256"; "SHA512"; "MD5"] -> ":"%char ∉ chars digest ->
       hasDigest d' targetFilePath algo digest.
Proof. apply downloadFile_true. Qed.

Lemma downloadFile_true_is_verified_witness :
  let d := {| files := ∅; folders := ∅; network := [Delivered signedArchive];
              retrievals := 0 |} in
  let d' := snd (downloadFile "http://host/data.zip" "data.zip" (Some signature) true d) in
  (is_Some (files d' !! "data.zip") \/ "data.zip" ∈ folders d')
  /\ hasDigest d' "data.zip" "MD5" "0f343b0931126a20f133d67c2b018a3b".
Proof.
  intros d d'.
  destruct (downloadFile_true_is_verified "http://host/data.zip" "data.zip"
              (Some signature) true d d' ltac:(vm_compute; reflexivity))
    as [Hthere Hdigest].
  split; [exact Hthere|].
  apply Hdigest; [reflexivity| |]; apply (bool_decide_unpack _); vm_compute; exact I.
Defined.

(** X6: a file that is there and not empty but has another digest than
    the one asked for: without re-download [downloadFile] returns [False]
    and leaves the disk as it is; with re-download it removes the file
    and goes on exactly as a call without re-download on the disk without
    the file. *)
Theorem downloadFile_stale_file (url targetFilePath : string) (checksum : option string)
    (d : Disk) (f : File) (algo digest : string) :
  files d !! targetFilePath = Some f ->
  st_size f <> 0 ->
  extractAlgoAndDigest checksum d = (inr (Some algo, Some digest), d) ->
  hexdigest f algo <> digest ->
  downloadFile url targetFilePath checksum false d = (inr false, d)
  /\ downloadFile url targetFilePath checksum true d
     = downloadFile url targetFilePath checksum false
         {| files := delete targetFilePath (files d); folders := folders d;
            network := network d; retrievals := retrievals d |}.
Proof.
  intros Hf Hsize Hparse Hdigest. unfold downloadFile.
  pose proof (extractAlgoAndDigest_outcome checksum d) as Hr. rewrite Hparse in Hr.
  destruct Hr as (_ & _ & Ha & _).
  rewrite !(downloadFileFrom_parsed _ _ _ _ _ _ d Hparse).
  unfold exists_, stat_size, computeChecksum, open, remove. io_steps. rewrite Hf.
  rewrite bool_decide_eq_true_2 by eauto. cbn [orb negb]. io_steps. rewrite Hf.
  destruct (Z.eqb_spec (st_size f) 0) as [?|_]; [done|].
  rewrite bool_decide_eq_true_2 by exact Ha. cbn [negb]. io_steps. rewrite Hf.
  rewrite bool_decide_eq_false_2 by congruence. cbn [negb]. io_steps. rewrite Hf.
  split; reflexivity.
Qed.

Lemma downloadFile_stale_file_witness :
  let d := {| files := {[ "data.zip" := goodArchive ]}; folders := ∅;
              network := [Refused]; retrievals := 0 |} in
  downloadFile "http://host/data.zip" "data.zip"
    (Some "MD5:0123456789abcdef0123456789abcdef") false d = (inr false, d).
Proof.
  refine (proj1 (downloadFile_stale_file _ "data.zip" _ _ goodArchive "MD5"
                   "0123456789abcdef0123456789abcdef" _ _ _ _)).
  - reflexivity.
  - vm_compute. discriminate.
  - vm_compute. reflexivity.
  - vm_compute. discriminate.
Defined.

End CachedDownloads.

(** ** Archives *)

Section Archives.
Import Util.

Lemma getFilesInDirectory_inv dir (d d' : Disk) (found : list string) :
  getFilesInDirectory dir d = (inr found, d') -> d' = d /\ len found = numberOfFiles d dir.
Proof.
  unfold getFilesInDirectory, numberOfFiles, len. intros H. injection H as <- <-.
  by rewrite length_map.
Qed.

Lemma prefix_append (s t : string) : String.prefix s (s ++ t) = true.
Proof.
  induction s as [|c s IH]; [by destruct t|].
  simpl. destruct (ascii_dec c c) as [_|]; [exact IH|done].
Qed.

(** What an extraction writes is below the output folder. *)
Lemma below_member (dir name : string) : below dir (dir ++ "/" ++ name) = true.
Proof.
  unfold below. replace (dir ++ "/" ++ name) with ((dir ++ "/") ++ name).
  - apply prefix_append.
  - induction dir as [|c dir IH]; [reflexivity|].
    change (String c ((dir ++ "/") ++ name) = String c (dir ++ "/" ++ name)).
    by f_equal.
Qed.

Lemma extracted_there dir members (before : gmap string File) path :
  is_Some (before !! path) -> is_Some (extracted dir members before !! path).
Proof.
  unfold extracted. revert before.
  induction members as [|[name f] members IH]; intros before H; cbn; [exact H|].
  apply IH. destruct (decide (dir ++ "/" ++ name = path)) as [<-|Hne].
  - rewrite lookup_insert_eq. eauto.
  - by rewrite lookup_insert_ne.
Qed.

Lemma extracted_elsewhere dir members (before : gmap string File) path :
  below dir path = false -> extracted dir members before !! path = before !! path.
Proof.
  intros Hpath. unfold extracted. revert before.
  induction members as [|[name f] members IH]; intros before; cbn; [reflexivity|].
  rewrite IH. apply lookup_insert_ne. intros <-.
  by rewrite below_member in Hpath.
Qed.

(** An extraction removes nothing, and writes below the output folder only. *)
Lemma Unzip_inv archive dir (d d' : Disk) (b : bool) :
  Unzip archive dir d = (inr b, d') ->
  network d' = network d /\ retrievals d' = retrievals d
  /\ folders d ⊆ folders d'
  /\ (forall path, is_Some (files d !! path) -> is_Some (files d' !! path))
  /\ (forall path, below dir path = false -> files d' !! path = files d !! path).
Proof.
  unfold Unzip.
  destruct (_ ≫= _) as [members|]; [cbv zeta; destruct (_ || _)|];
    intros H; injection H as <- <-; repeat split; try done; cbn.
  - set_solver.
  - intros path. apply extracted_there.
  - intros path. apply extracted_elsewhere.
Qed.

Lemma extractArchive_true archive dir expected (d d' : Disk) :
  extractArchive archive dir expected d = (inr true, d') ->
  (is_Some (files d !! archive) \/ archive ∈ folders d)
  /\ lower (extension archive) = ".zip"
  /\ network d' = network d /\ retrievals d' = retrievals d
  /\ folders d ⊆ folders d'
  /\ (forall path, is_Some (files d !! path) -> is_Some (files d' !! path))
  /\ (forall path, below dir path = false -> files d' !! path = files d !! path)
  /\ forall k, expected = Some k -> numberOfFiles d' dir = k.
Proof.
  unfold extractArchive. intros H.
  inv_bind H. apply exists_inv in H0 as [-> Hpresent].
  destruct a; cbn [negb] in H; [|discriminate].
  destruct (bool_decide (lower (extension archive) = ".zip")) eqn:Hext;
    cbn [negb] in H; [|discriminate].
  apply bool_decide_eq_true in Hext.
  split; [by apply Hpresent|]. split; [exact Hext|].
  inv_bind H. apply getFilesInDirectory_inv in H0 as [-> Hbefore]. cbv zeta in H.
  destruct (bool_decide (expected = Some _)) eqn:Hthere.
  - apply bool_decide_eq_true in Hthere. injection H as <-.
    do 5 (split; [done|]). intros k Hk. congruence.
  - inv_bind H. inv_bind H. apply getFilesInDirectory_inv in H1 as [-> Hafter].
    apply Unzip_inv in H0 as (Hnet & Hret & Hfolders & Hfiles & Helse).
    destruct (negb a0 || _) eqn:Hcond; [discriminate|]. injection H as <-.
    apply orb_false_iff in Hcond as [_ Hcond].
    do 5 (split; [done|]). intros k ->.
    rewrite bool_decide_eq_true_2 in Hcond by done. cbn in Hcond.
    apply negb_false_iff, bool_decide_eq_true in Hcond. congruence.
Qed.

(** X7: when [extractArchive] returns [True], the archive path exists
    and ends in [.zip] (in any letter case), and the output folder holds
    the expected number of files, as [getFilesInDirectory] counts them,
    when one was given. *)
Theorem extractArchive_true_has_expected_files (archiveFilePath outputDir : string)
    (expectedNumberOfExtractedFiles : option Z) (d d' : Disk) :
  extractArchive archiveFilePath outputDir expectedNumberOfExtractedFiles d
  = (inr true, d') ->
  (is_Some (files d !! archiveFilePath) \/ archiveFilePath ∈ folders d)
  /\ lower (extension archiveFilePath) = ".zip"
  /\ forall k, expectedNumberOfExtractedFiles = Some k -> numberOfFiles d' outputDir = k.
Proof.
  intros H. apply extractArchive_true in H as (? & ? & _ & _ & _ & _ & _ & ?). done.
Qed.

Lemma extractArchive_true_has_expected_files_witness :
  let d := {| files := {[ "Data.ZIP" := goodArchive ]}; folders := ∅;
              network := []; retrievals := 0 |} in
  let d' := snd (extractArchive "Data.ZIP" "out" (Some 3) d) in
  (is_Some (files d !! "Data.ZIP") \/ "Data.ZIP" ∈ folders d)
  /\ lower (extension "Data.ZIP") = ".zip"
  /\ numberOfFiles d' "out" = 3.
Proof.
  intros d d'.
  destruct (extractArchive_true_has_expected_files "Data.ZIP" "out" (Some 3) d d'
              ltac:(vm_compute; reflexivity)) as (Hthere & Hzip & Hfiles).
  split; [exact Hthere|]. split; [exact Hzip|]. exact (Hfiles 3 eq_refl).
Defined.

(** X8: when the archive is there, ends in [.zip] and the output folder
    already holds the expected number of files, [extractArchive] returns
    [True] without unzipping: the disk is as before. *)
Theorem extractArchive_skips_when_extracted (archiveFilePath outputDir : string)
    (k : Z) (d : Disk) :
  is_Some (files d !! archiveFilePath) \/ archiveFilePath ∈ folders d ->
  lower (extension archiveFilePath) = ".zip" ->
  numberOfFiles d outputDir = k ->
  extractArchive archiveFilePath outputDir (Some k) d = (inr true, d).
Proof.
  intros Hpresent Hext Hk. unfold extractArchive, exists_, getFilesInDirectory.
  cbv beta iota zeta delta [mbind mret Run_bind Run_ret].
  assert (bool_decide (is_Some (files d !! archiveFilePath))
          || bool_decide (archiveFilePath ∈ folders d) = true) as ->.
  { rewrite orb_true_iff, !bool_decide_eq_true. exact Hpresent. }
  cbn [negb]. rewrite bool_decide_eq_true_2 by exact Hext. cbn [negb].
  rewrite bool_decide_eq_true_2; [reflexivity|].
  f_equal. rewrite <- Hk. unfold numberOfFiles, len. by rewrite length_map.
Qed.

Lemma extractArchive_skips_when_extracted_witness :
  let d := {| files := {[ "data.zip" := notAnArchive;
                          "out/a.nrrd" := slice; "out/more/c.nrrd" := slice ]};
              folders := {[ "out"; "out/more" ]};
              network := []; retrievals := 0 |} in
  extractArchive "data.zip" "out" (Some 2) d = (inr true, d).
Proof.
  intros d. apply (extractArchive_skips_when_extracted "data.zip" "out" 2 d).
  - left. eexists. reflexivity.
  - vm_compute. reflexivity.
  - vm_compute. reflexivity.
Defined.





End Archives.

Section Trials.
Import Util.




End Trials.

(** ** Loops *)

Section LoopsOfStatements.
Import Statements.
Context {W : Type}.

Lemma forAll_nil {A : Type} (f : A -> Run W unit) (s : W) : forAll [] f s = (inr tt, s).
Proof. reflexivity. Qed.

Lemma forAll_cons {A : Type} (x : A) (xs : list A) (f : A -> Run W unit) (s : W) :
  forAll (x :: xs) f s = (f x;; forAll xs f) s.
Proof.
  unfold forAll. cbn [forEach]. rewrite !bind_run.
  by destruct (f x s) as [[e|[]] s1].
Qed.

Lemma forAll_app {A : Type} (xs ys : list A) (f : A -> Run W unit) (s : W) :
  forAll (xs ++ ys) f s = (forAll xs f;; forAll ys f) s.
Proof.
  revert s. induction xs as [|x xs IH]; intros s.
  - rewrite bind_run. reflexivity.
  - cbn [app]. rewrite forAll_cons, !bind_run, forAll_cons, bind_run.
    destruct (f x s) as [[e|[]] s1]; [done|]. rewrite IH, bind_run. done.
Qed.

Lemma forAll_map {A B : Type} (g : A -> B) (xs : list A) (f : B -> Run W unit) (s : W) :
  forAll (map g xs) f s = forAll xs (fun x => f (g x)) s.
Proof.
  revert s. induction xs as [|x xs IH]; intros s; [done|].
  cbn [map]. rewrite !forAll_cons, !bind_run.
  destruct (f (g x) s) as [[e|[]] s1]; [done|]. apply IH.
Qed.

Lemma bind_ext {A B : Type} (m : Run W A) (f g : A -> Run W B) (s : W) :
  (forall a s1, f a s1 = g a s1) -> (m ≫= f) s = (m ≫= g) s.
Proof. intros Hfg. rewrite !bind_run. destruct (m s) as [[e|a] s1]; [done|apply Hfg]. Qed.

End LoopsOfStatements.

(** ** Dicts *)

Section Dicts.
Import Dict.
Context {K V : Type} `{EqDecision K}.

Lemma get_set_eq (k : K) (v : V) (d : dict K V) : get k (set k v d) = Some v.
Proof.
  induction d as [|[k' v'] d IH]; cbn.
  - by rewrite decide_True.
  - destruct (decide (k' = k)) as [->|Hne]; cbn.
    + by rewrite decide_True.
    + by rewrite decide_False.
Qed.

Lemma get_set_ne (k k' : K) (v : V) (d : dict K V) :
  k <> k' -> get k' (set k v d) = get k' d.
Proof.
  intros Hne. induction d as [|[k0 v0] d IH]; cbn.
  - by rewrite decide_False.
  - destruct (decide (k0 = k)) as [->|Hne0]; cbn.
    + by rewrite !decide_False.
    + destruct (decide (k0 = k')); [done|exact IH].
Qed.

Lemma get_remove_eq (k : K) (d : dict K V) : get k (remove k d) = None.
Proof.
  unfold remove. induction d as [|[k' v'] d IH]; [done|].
  rewrite filter_cons. cbn. destruct (decide (k' <> k)) as [Hne|Heq]; cbn.
  - by rewrite decide_False.
  - exact IH.
Qed.

Lemma get_remove_ne (k k' : K) (d : dict K V) :
  k <> k' -> get k' (remove k d) = get k' d.
Proof.
  intros Hne. unfold remove. induction d as [|[k0 v0] d IH]; [done|].
  rewrite filter_cons. cbn. destruct (decide (k0 <> k)) as [Hne0|Heq]; cbn.
  - destruct (decide (k0 = k')); [done|exact IH].
  - apply dec_stable in Heq. subst k0. by rewrite decide_False.
Qed.

Lemma get_app (k : K) (d d' : dict K V) :
  get k (d ++ d') = match get k d with Some v => Some v | None => get k d' end.
Proof.
  induction d as [|[k0 v0] d IH]; [done|]. cbn.
  destruct (decide (k0 = k)); [done|exact IH].
Qed.

Lemma get_update_eq (k : K) (f : V -> V) (d : dict K V) :
  get k (update k f d) = f <$> get k d.
Proof.
  unfold update. destruct (get k d) as [v|] eqn:E; cbn.
  - apply get_set_eq.
  - exact E.
Qed.

Lemma get_update_ne (k k' : K) (f : V -> V) (d : dict K V) :
  k <> k' -> get k' (update k f d) = get k' d.
Proof.
  intros Hne. unfold update. destruct (get k d); [by apply get_set_ne|done].
Qed.

Lemma get_Some_elem_of (k : K) (v : V) (d : dict K V) :
  get k d = Some v -> (k, v) ∈ d.
Proof.
  induction d as [|[k0 v0] d IH]; [done|]. cbn.
  destruct (decide (k0 = k)) as [->|Hne].
  - intros [= ->]. apply list_elem_of_here.
  - intros Hd. apply list_elem_of_further. by apply IH.
Qed.

Lemma get_None_not_elem_of (k : K) (v : V) (d : dict K V) :
  get k d = None -> (k, v) ∉ d.
Proof.
  induction d as [|[k0 v0] d IH]; [intros _; apply not_elem_of_nil|]. cbn.
  destruct (decide (k0 = k)) as [->|Hne]; [done|].
  intros Hd Hin. apply elem_of_cons in Hin as [[= ? ?]|Hin]; [done|]. by apply IH.
Qed.

End Dicts.

(** ** Observations *)

Section Observing.
Import Dict VTKObservationMixin.

Ltac obs_steps :=
  cbv beta iota zeta delta [mbind mret Run_bind Run_ret raise read write warn attribute
                            option_bind] in *.

Lemma get_ensured_ne obj obj' event obs :
  obj <> obj' -> get obj' (ensured obj event obs) = get obj' obs.
Proof.
  intros Hne. unfold ensured, setdefault.
  destruct (get obj obs) as [events|] eqn:Hobj.
  - cbn. destruct (get event events); by rewrite get_set_ne.
  - cbn. rewrite get_set_ne by done. rewrite get_app. cbn.
    rewrite decide_False by done. by destruct (get obj' obs).
Qed.

Lemma get_ensured_eq obj event obs :
  exists events,
    get obj (ensured obj event obs) = Some events
    /\ get event events
       = Some (default [] (events0 ← get obj obs; get event events0))
    /\ forall e, e <> event -> get e events = (events0 ← get obj obs; get e events0).
Proof.
  unfold ensured, setdefault.
  destruct (get obj obs) as [events|] eqn:Hobj; cbn.
  - destruct (get event events) as [methods|] eqn:Hev.
    + exists events. by rewrite get_set_eq.
    + exists (events ++ [(event, [])])%list. rewrite get_set_eq. split; [done|]. split.
      * rewrite get_app, Hev. cbn. by rewrite decide_True.
      * intros e He. rewrite get_app. cbn. rewrite decide_False by done.
        by destruct (get e events).
  - exists [(event, [])]. rewrite get_set_eq. split; [done|]. cbn. split.
    + by rewrite decide_True.
    + intros e He. by rewrite decide_False.
Qed.

Lemma ensured_observed obj event method (obs : dict (option ref) Events) entry :
  (events ← get obj obs; methods ← get event events; get method methods) = Some entry ->
  ensured obj event obs = obs.
Proof.
  unfold ensured, setdefault. intros H.
  destruct (get obj obs) as [events|] eqn:Hobj; [|done]. cbn in H.
  destruct (get event events) as [methods|] eqn:Hev; [|done].
  clear H Hev. induction obs as [|[k v] obs IH]; [done|]. cbn in *.
  destruct (decide (k = obj)) as [->|Hne]; [congruence|]. f_equal. by apply IH.
Qed.

(** The observations are as before once the dicts are made sure of. *)
Lemma observation_ensured (s : State) obj event obj' e' m' :
  (events ← get obj' (ensured obj event (observations s));
   methods ← get e' events; get m' methods)
  = observation s obj' e' m'.
Proof.
  unfold observation. destruct (decide (obj = obj')) as [<-|Hne].
  - destruct (get_ensured_eq obj event (observations s)) as (events & -> & Hev & Hother).
    cbn. destruct (decide (e' = event)) as [->|He].
    + rewrite Hev. cbn. destruct (get obj (observations s)) as [events0|]; [|done]. cbn.
      by destruct (get event events0).
    + rewrite Hother by done. by destruct (get obj (observations s)).
  - by rewrite get_ensured_ne.
Qed.

(** A change made to the methods of an event of an object. *)
Lemma get_update_update (obs : dict (option ref) Events) obj event (f : Methods -> Methods)
    obj' e' :
  (events ← get obj' (update obj (update event f) obs); get e' events)
  = if decide (obj = obj' /\ event = e')
    then f <$> (events ← get obj obs; get event events)
    else (events ← get obj' obs; get e' events).
Proof.
  destruct (decide (obj = obj')) as [<-|Hobj].
  - rewrite get_update_eq. destruct (get obj obs) as [events|]; cbn.
    + destruct (decide (event = e')) as [<-|Hev].
      * rewrite decide_True by done. apply get_update_eq.
      * rewrite decide_False by (intros [_ ?]; done). by apply get_update_ne.
    + by destruct (decide _).
  - rewrite get_update_ne by done. rewrite decide_False by (intros [? _]; done). done.
Qed.

(** What [addObserver] does. *)
Lemma addObserver_run obj event method group priority (s : State) :
  addObserver obj event method group priority s
  = let obs1 := ensured obj event (observations s) in
    if bool_decide (is_Some (observation s obj event method)) then
      (inr tt, withWarning (withObservations s obs1) "already has observer")
    else
      match obj with
      | None => (inl (noAttribute "AddObserver"), withObservations s obs1)
      | Some r =>
          let tag := Count (object s r) in
          (inr tt,
           {| observations :=
                update obj (update event (set method (group, tag, priority))) obs1;
              objects := <[r := {| Count := tag + 1;
                                   Observers := <[tag := {| event := event; command := method;
                                                            priority := priority |}]>
                                                  (Observers (object s r)) |}]>
                           (objects s);
              warnings := warnings s |})
      end.
Proof.
  unfold addObserver, ensured, observation, withObservations, withWarning. obs_steps.
  unfold setdefault.
  destruct (get obj (observations s)) as [events|] eqn:Hobj; cbn [fst snd observations].
  - destruct (get event events) as [methods|] eqn:Hev; cbn [fst snd observations].
    + destruct (bool_decide (is_Some (get method methods))); [done|].
      unfold AddObserver. obs_steps. by destruct obj.
    + cbn [get]. rewrite bool_decide_eq_false_2 by (by intros [? ?]).
      unfold AddObserver. obs_steps. by destruct obj.
  - cbn [get]. rewrite bool_decide_eq_false_2 by (by intros [? ?]).
    unfold AddObserver. obs_steps. by destruct obj.
Qed.

(** What [removeObserver] does. *)
Lemma removeObserver_run obj event method (s : State) :
  removeObserver obj event method s
  = match observation s obj event method with
    | Some (group, tag, priority) =>
        RemoveObserver obj tag
          (withObservations s (update obj (update event (remove method)) (observations s)))
    | None => (inr tt, withWarning s "does not have observer")
    end.
Proof.
  unfold removeObserver, observation, withObservations, withWarning. obs_steps.
  destruct (get obj (observations s)) as [events|]; cbn; [|done].
  destruct (get event events) as [methods|]; cbn; [|done].
  destruct (get method methods) as [[[group tag] priority]|]; done.
Qed.

Lemma getObserver_run obj event method default (s : State) :
  getObserver obj event method default s
  = (inr (match observation s obj event method with
          | Some entry => Some entry
          | None => default
          end), s).
Proof.
  unfold getObserver, observation. obs_steps.
  destruct (get obj (observations s)) as [events|]; cbn; [|done].
  destruct (get event events) as [methods|]; cbn; [|done].
  destruct (get method methods) as [[[group tag] priority]|]; done.
Qed.

Lemma hasObserver_run obj event method (s : State) :
  hasObserver obj event method s
  = (inr (bool_decide (is_Some (observation s obj event method))), s).
Proof.
  unfold hasObserver. rewrite bind_run, getObserver_run.
  destruct (observation s obj event method); done.
Qed.

(** The observations once the methods of an event of an object changed. *)
Lemma observation_update (s s' : State) obj event (f : Methods -> Methods) obj' e' m' :
  observations s' = update obj (update event f) (observations s) ->
  observation s' obj' e' m'
  = if decide (obj = obj' /\ event = e')
    then methods ← (events ← get obj (observations s); get event events); get m' (f methods)
    else observation s obj' e' m'.
Proof.
  unfold observation. intros ->.
  pose proof (get_update_update (observations s) obj event f obj' e') as H.
  destruct (get obj' (update _ _ _)) as [events|]; cbn in *.
  - rewrite H. destruct (decide _) as [[<- <-]|_].
    + destruct (get obj (observations s)) as [events0|]; cbn; [|done].
      by destruct (get event events0).
    + by destruct (get obj' (observations s)).
  - destruct (decide _) as [[<- <-]|_].
    + destruct (get obj (observations s)) as [events0|]; cbn in *; [|done].
      destruct (get event events0); [discriminate|done].
    + destruct (get obj' (observations s)) as [events0|]; cbn in *; [|done].
      by rewrite <- H.
Qed.

Lemma observation_ensured_state (s s' : State) obj event obj' e' m' :
  observations s' = ensured obj event (observations s) ->
  observation s' obj' e' m' = observation s obj' e' m'.
Proof.
  intros H. rewrite <- (observation_ensured s obj event). unfold observation. by rewrite H.
Qed.

(** The methods of an event of an object are there once made sure of. *)
Lemma methods_ensured obj event (obs : dict (option ref) Events) :
  (events ← get obj (ensured obj event obs); get event events)
  = Some (default [] (events ← get obj obs; get event events)).
Proof.
  destruct (get_ensured_eq obj event obs) as (events & -> & Hev & _). exact Hev.
Qed.

(** The observations after a method was set for an event of an object. *)
Lemma observation_set (s s' : State) obj event method entry obj' e' m' :
  observations s'
  = update obj (update event (set method entry)) (ensured obj event (observations s)) ->
  observation s' obj' e' m'
  = if decide (obj = obj' /\ event = e' /\ method = m') then Some entry
    else observation s obj' e' m'.
Proof.
  intros H.
  rewrite (observation_update (withObservations s (ensured obj event (observations s))) s'
             obj event (set method entry)) by exact H.
  cbn [withObservations observations].
  destruct (decide (obj = obj' /\ event = e')) as [[<- <-]|Hne].
  - rewrite methods_ensured. cbn.
    destruct (decide (method = m')) as [<-|Hm].
    + rewrite decide_True by done. apply get_set_eq.
    + rewrite decide_False by (intros (_ & _ & ?); done).
      rewrite get_set_ne by done. unfold observation.
      destruct (get obj (observations s)) as [events|]; cbn; [|done].
      by destruct (get event events).
  - rewrite decide_False by (intros (? & ? & _); by apply Hne).
    by apply (observation_ensured_state s _ obj event).
Qed.

(** The observations after a method was taken out. *)
Lemma observation_remove (s s' : State) obj event method obj' e' m' :
  observations s' = update obj (update event (remove method)) (observations s) ->
  observation s' obj' e' m'
  = if decide (obj = obj' /\ event = e' /\ method = m') then None
    else observation s obj' e' m'.
Proof.
  intros H. rewrite (observation_update s s' obj event (remove method)) by exact H.
  destruct (decide (obj = obj' /\ event = e')) as [[<- <-]|Hne].
  - destruct (decide (method = m')) as [<-|Hm].
    + rewrite decide_True by done.
      destruct (get obj (observations s)) as [events|]; cbn; [|done].
      destruct (get event events); cbn; [|done]. apply get_remove_eq.
    + rewrite decide_False by (intros (_ & _ & ?); done). unfold observation.
      destruct (get obj (observations s)) as [events|]; cbn; [|done].
      destruct (get event events); cbn; [|done]. by apply get_remove_ne.
  - rewrite decide_False by (intros (? & ? & _); by apply Hne). done.
Qed.

(** The observers of an object whose entry of the store was replaced. *)
Lemma object_insert (s s' : State) (r r' : ref) (o : vtkObject) :
  objects s' = <[r := o]> (objects s) ->
  object s' r' = if decide (r = r') then o else object s r'.
Proof.
  intros H. unfold object. rewrite H. destruct (decide (r = r')) as [<-|Hne].
  - by rewrite lookup_insert_eq.
  - by rewrite lookup_insert_ne.
Qed.

Lemma RemoveObserver_run (r : ref) (tag : Z) (s : State) :
  RemoveObserver (Some r) tag s
  = (inr tt,
     {| observations := observations s;
        objects := <[r := {| Count := Count (object s r);
                             Observers := delete tag (Observers (object s r)) |}]> (objects s);
        warnings := warnings s |}).
Proof. reflexivity. Qed.

End Observing.

Section Observers.
Import Dict VTKObservationMixin.

Lemma hasObserver_false (s s' : State) obj event method :
  hasObserver obj event method s = (inr false, s') ->
  observation s obj event method = None.
Proof.
  rewrite hasObserver_run. intros [= H _]. apply bool_decide_eq_false in H.
  destruct (observation s obj event method); [|done]. destruct H. eauto.
Qed.

Lemma hasObserver_true (s s' : State) obj event method :
  hasObserver obj event method s = (inr true, s') ->
  is_Some (observation s obj event method).
Proof. rewrite hasObserver_run. intros [= H _]. by apply bool_decide_eq_true in H. Qed.

(** The state after [addObserver] of a new observer on the object [r]. *)
Lemma addObserver_new (s : State) (r : ref) event method group priority :
  observation s (Some r) event method = None ->
  exists s',
    addObserver (Some r) event method group priority s = (inr tt, s')
    /\ observations s'
       = update (Some r) (update event (set method (group, Count (object s r), priority)))
           (ensured (Some r) event (observations s))
    /\ objects s'
       = <[r := {| Count := Count (object s r) + 1;
                   Observers := <[Count (object s r) := {| event := event; command := method;
                                                           priority := priority |}]>
                                  (Observers (object s r)) |}]> (objects s)
    /\ warnings s' = warnings s.
Proof.
  intros Hnew. rewrite addObserver_run. cbv zeta. rewrite Hnew.
  rewrite bool_decide_eq_false_2 by (by intros [? ?]). eauto.
Qed.

(** X11: after [addObserver] of a method the object did not have for
    the event, [hasObserver] is true and [getObserver] gives the group
    and the priority of the call with the tag the object gave out; the
    object has the observer under that tag; the other observations are
    as before. *)
Theorem addObserver_registers (s : State) (r : ref) (event : Z) (method : Method)
    (group : string) (priority : float) :
  hasObserver (Some r) event method s = (inr false, s) ->
  let tag := Count (object s r) in
  let s' := snd (addObserver (Some r) event method group priority s) in
  fst (addObserver (Some r) event method group priority s) = inr tt
  /\ fst (hasObserver (Some r) event method s') = inr true
  /\ fst (getObserver (Some r) event method None s') = inr (Some (group, tag, priority))
  /\ observerOf s' r tag
     = Some {| event := event; command := method; priority := priority |}
  /\ (forall obj' e' m',
        ~ (Some r = obj' /\ event = e' /\ method = m') ->
        fst (getObserver obj' e' m' None s') = fst (getObserver obj' e' m' None s)).
Proof.
  intros Hnew. apply hasObserver_false in Hnew. cbv zeta.
  destruct (addObserver_new s r event method group priority Hnew)
    as (s' & -> & Hobs & Hobjs & Hwarn).
  cbn [fst snd]. split; [done|].
  assert (observation s' (Some r) event method = Some (group, Count (object s r), priority))
    as Hthere.
  { rewrite (observation_set s s' _ _ _ _ _ _ _ Hobs). by rewrite decide_True. }
  rewrite hasObserver_run, !getObserver_run, Hthere. cbn [fst].
  split; [by rewrite bool_decide_eq_true_2|]. split; [done|]. split.
  - unfold observerOf. rewrite (object_insert s s' r r _ Hobjs), decide_True by done.
    cbn. apply lookup_insert_eq.
  - intros obj' e' m' Hne. rewrite !getObserver_run. cbn [fst].
    rewrite (observation_set s s' _ _ _ _ _ _ _ Hobs). by rewrite decide_False.
Qed.

Lemma addObserver_registers_witness :
  let s' := snd (addObserver (Some 2%positive) 33 "onModified" "none" 0%float
                   observingState) in
  fst (getObserver (Some 2%positive) 33 "onModified" None s')
  = inr (Some ("none", 1, 0%float)).
Proof.
  apply (addObserver_registers observingState 2 33 "onModified" "none" 0%float).
  vm_compute. reflexivity.
Defined.

(** X12: adding an observer twice is adding it once: the second
    [addObserver] only warns, whatever group and priority it is given. *)
Theorem addObserver_twice (s : State) (obj : option ref) (event : Z) (method : Method)
    (group group' : string) (priority priority' : float) :
  (addObserver obj event method group priority;;
   addObserver obj event method group' priority') s
  = (addObserver obj event method group priority;; warn "already has observer") s.
Proof.
  rewrite !bind_run.
  destruct (addObserver obj event method group priority s) as [[e|[]] s1] eqn:Hfirst;
    [done|].
  assert (exists entry, observation s1 obj event method = Some entry) as [entry Hthere].
  { rewrite addObserver_run in Hfirst. cbv zeta in Hfirst.
    destruct (bool_decide (is_Some (observation s obj event method))) eqn:Hobserved.
    - apply bool_decide_eq_true in Hobserved as [entry Hentry].
      injection Hfirst as <-. exists entry.
      rewrite <- Hentry. by apply (observation_ensured_state s _ obj event).
    - destruct obj as [r|]; [|discriminate]. injection Hfirst as <-.
      eexists. erewrite observation_set by reflexivity. by rewrite decide_True. }
  rewrite addObserver_run. cbv zeta. rewrite Hthere.
  rewrite bool_decide_eq_true_2 by eauto.
  rewrite (ensured_observed obj event method (observations s1) entry Hthere).
  by destruct s1.
Qed.

(** X13: [removeObserver] of an observer the mixin has takes it out of
    the observations and off the object, and leaves the other
    observations as they are; of an observer it does not have, it
    raises nothing and changes nothing, it warns. *)
Theorem removeObserver_removes (s : State) (obj : option ref) (event : Z) (method : Method) :
  (forall r group tag priority,
     obj = Some r -> observation s obj event method = Some (group, tag, priority) ->
     let s' := snd (removeObserver obj event method s) in
     fst (removeObserver obj event method s) = inr tt
     /\ fst (hasObserver obj event method s') = inr false
     /\ observerOf s' r tag = None
     /\ warnings s' = warnings s
     /\ (forall obj' e' m',
           ~ (obj = obj' /\ event = e' /\ method = m') ->
           fst (getObserver obj' e' m' None s') = fst (getObserver obj' e' m' None s)))
  /\ (observation s obj event method = None ->
      removeObserver obj event method s
      = (inr tt, withWarning s "does not have observer")).
Proof.
  split.
  - intros r group tag priority -> Hthere. cbv zeta.
    rewrite removeObserver_run, Hthere, RemoveObserver_run. cbn [fst snd].
    set (s' := {| observations := _; objects := _; warnings := _ |}).
    assert (observations s'
            = update (Some r) (update event (remove method)) (observations s)) as Hobs
      by reflexivity.
    split; [done|]. rewrite hasObserver_run. cbn [fst].
    rewrite (observation_remove s s' _ _ _ _ _ _ Hobs), decide_True by done.
    split; [by rewrite bool_decide_eq_false_2 by (by intros [? ?])|]. split.
    + unfold observerOf. rewrite (object_insert _ s' r r _ eq_refl), decide_True by done.
      cbn. apply lookup_delete_eq.
    + split; [done|]. intros obj' e' m' Hne. rewrite !getObserver_run. cbn [fst].
      rewrite (observation_remove s s' _ _ _ _ _ _ Hobs). by rewrite decide_False.
  - intros Habsent. by rewrite removeObserver_run, Habsent.
Qed.

Lemma removeObserver_removes_witness :
  fst (hasObserver (Some 1%positive) 33 "onModified"
         (snd (removeObserver (Some 1%positive) 33 "onModified" observingState)))
  = inr false
  /\ removeObserver None 33 "onModified" observingState
     = (inr tt, withWarning observingState "does not have observer").
Proof.
  split.
  - apply (proj1 (removeObserver_removes observingState (Some 1%positive) 33 "onModified")
             1%positive "none" 1 0%float); reflexivity.
  - apply (proj2 (removeObserver_removes observingState None 33 "onModified")).
    reflexivity.
Defined.

Lemma firstObserving_run (objs : list (option ref)) event method default (s : State) :
  (exists obj,
     firstObserving objs event method default s = (inr obj, s)
     /\ obj ∈ objs /\ is_Some (observation s obj event method))
  \/ (firstObserving objs event method default s = (inr default, s)
      /\ forall obj, obj ∈ objs -> observation s obj event method = None).
Proof.
  induction objs as [|obj objs IH].
  - right. split; [done|]. intros obj Hin. by apply elem_of_nil in Hin.
  - cbn [firstObserving]. rewrite bind_run, hasObserver_run.
    destruct (observation s obj event method) as [entry|] eqn:Hthere.
    + left. exists obj. rewrite bool_decide_eq_true_2 by eauto.
      split; [done|]. split; [apply list_elem_of_here|]. rewrite Hthere. eauto.
    + rewrite bool_decide_eq_false_2 by (by intros [? ?]).
      destruct IH as [(obj' & Hrun & Hin & Hobserved)|[Hrun Hnone]].
      * left. exists obj'. split; [done|]. split; [by apply list_elem_of_further|done].
      * right. split; [done|]. intros obj' Hin.
        apply elem_of_cons in Hin as [->|Hin]; [done|by apply Hnone].
Qed.

(** X14: [observer(event, method)] gives an object that has the
    observer whenever an object has it, and the default otherwise. *)
Theorem observer_finds (s : State) (event : Z) (method : Method) (default : option ref) :
  ((exists obj, is_Some (observation s obj event method)) ->
   exists obj,
     observer event method default s = (inr obj, s)
     /\ fst (hasObserver obj event method s) = inr true)
  /\ ((forall obj, observation s obj event method = None) ->
      observer event method default s = (inr default, s)).
Proof.
  unfold observer. rewrite bind_run. cbn [read].
  destruct (firstObserving_run (keys (observations s)) event method default s)
    as [(obj & Hrun & Hin & Hobserved)|[Hrun Hnone]].
  - split.
    + intros _. exists obj. split; [done|]. rewrite hasObserver_run. cbn.
      by rewrite bool_decide_eq_true_2.
    + intros Hall. rewrite Hall in Hobserved. by destruct Hobserved.
  - split; [|done]. intros [obj [entry Hthere]].
    rewrite Hnone in Hthere; [done|].
    unfold observation in Hthere.
    destruct (get obj (observations s)) as [events|] eqn:Hobj; [|done].
    apply get_Some_elem_of in Hobj. apply list_elem_of_fmap. by exists (obj, events).
Qed.

Lemma observer_finds_witness :
  (exists obj,
     observer 33 "onModified" None observingState = (inr obj, observingState)
     /\ fst (hasObserver obj 33 "onModified" observingState) = inr true)
  /\ observer 33 "onClosed" (Some 2%positive) observingState
     = (inr (Some 2%positive), observingState).
Proof.
  split.
  - apply (proj1 (observer_finds observingState 33 "onModified" None)).
    exists (Some 1%positive). by eexists.
  - apply (proj2 (observer_finds observingState 33 "onClosed" (Some 2%positive))).
    intros obj. unfold observation, observingState. cbn.
    destruct (decide (Some 1%positive = obj)); [|done]. cbn. done.
Defined.

End Observers.

(** ** Keys of dicts *)

Section Keys.
Import Dict.
Context {K V : Type} `{EqDecision K}.

Lemma get_None_keys (k : K) (d : dict K V) : get k d = None <-> k ∉ keys d.
Proof.
  induction d as [|[k' v'] d IH]; cbn.
  - split; [intros _; apply not_elem_of_nil|done].
  - rewrite not_elem_of_cons. destruct (decide (k' = k)) as [->|Hne].
    + split; [done|]. intros [? _]. done.
    + rewrite IH. split; [intros ?; split; [congruence|done]|intros [_ ?]; done].
Qed.

Lemma keys_set (k : K) (v : V) (d : dict K V) :
  keys (set k v d) = match get k d with Some _ => keys d | None => (keys d ++ [k])%list end.
Proof.
  unfold keys. induction d as [|[k' v'] d IH]; [done|]. cbn.
  destruct (decide (k' = k)) as [->|Hne]; [done|]. cbn. rewrite IH.
  by destruct (get k d).
Qed.

Lemma NoDup_keys_set (k : K) (v : V) (d : dict K V) :
  NoDup (keys d) -> NoDup (keys (set k v d)).
Proof.
  intros Hd. rewrite keys_set. destruct (get k d) eqn:E; [done|].
  apply NoDup_app. split; [done|]. split; [|apply NoDup_singleton].
  intros x Hx Hin. apply list_elem_of_singleton in Hin as ->.
  by apply get_None_keys in E.
Qed.

Lemma Forall_set (P : K * V -> Prop) (k : K) (v : V) (d : dict K V) :
  Forall P d -> P (k, v) -> Forall P (set k v d).
Proof.
  intros Hd Hkv. induction d as [|[k' v'] d IH]; cbn.
  - by constructor.
  - apply Forall_cons in Hd as [Hhead Htail].
    destruct (decide (k' = k)) as [->|Hne]; constructor; auto.
Qed.

Lemma keys_update (k : K) (f : V -> V) (d : dict K V) : keys (update k f d) = keys d.
Proof.
  unfold update. destruct (get k d) eqn:E; [|done]. rewrite keys_set. by rewrite E.
Qed.

Lemma Forall_update (P : K * V -> Prop) (k : K) (f : V -> V) (d : dict K V) :
  Forall P d -> (forall v, P (k, v) -> P (k, f v)) -> Forall P (update k f d).
Proof.
  intros Hd Hf. unfold update. destruct (get k d) as [v|] eqn:E; [|done].
  apply Forall_set; [done|]. apply Hf.
  apply get_Some_elem_of in E. by apply (proj1 (Forall_forall P d) Hd).
Qed.

Lemma NoDup_keys_remove (k : K) (d : dict K V) :
  NoDup (keys d) -> NoDup (keys (remove k d)).
Proof.
  unfold keys, remove. induction d as [|[k' v'] d IH]; [done|].
  intros Hnd. rewrite filter_cons. cbn in Hnd. apply NoDup_cons in Hnd as [Hk Hd].
  destruct (decide ((k', v').1 <> k)); [|by apply IH]. cbn. apply NoDup_cons.
  split; [|by apply IH].
  intros Hin. apply Hk. apply list_elem_of_fmap in Hin as ([k0 v0] & -> & Hin).
  apply list_elem_of_filter in Hin as [_ Hin]. apply list_elem_of_fmap. by exists (k0, v0).
Qed.

Lemma Forall_remove (P : K * V -> Prop) (k : K) (d : dict K V) :
  Forall P d -> Forall P (remove k d).
Proof.
  unfold remove. rewrite !Forall_forall. intros Hd x Hx.
  apply list_elem_of_filter in Hx as [_ Hx]. by apply Hd.
Qed.

Lemma elem_of_get (k : K) (v : V) (d : dict K V) :
  NoDup (keys d) -> (k, v) ∈ d -> get k d = Some v.
Proof.
  unfold keys. induction d as [|[k' v'] d IH]; cbn.
  - intros _ Hin. by apply elem_of_nil in Hin.
  - rewrite NoDup_cons. intros [Hk Hd] Hin.
    apply elem_of_cons in Hin as [[= <- <-]|Hin].
    + by rewrite decide_True.
    + rewrite decide_False; [by apply IH|].
      intros ->. apply Hk. apply list_elem_of_fmap. by exists (k, v).
Qed.

End Keys.

(** ** The invariant of the observations *)

Section Invariant.
Import Dict VTKObservationMixin.

Lemma uniqueKeys_ensured obj event obs : uniqueKeys obs -> uniqueKeys (ensured obj event obs).
Proof.
  intros [Hkeys Hall]. unfold ensured, setdefault.
  destruct (get obj obs) as [events|] eqn:Hobj; cbn.
  - assert (uniqueEvents (obj, events)) as [Hev Hms].
    { apply get_Some_elem_of in Hobj. by apply (proj1 (Forall_forall _ _) Hall). }
    cbn in Hev, Hms.
    destruct (get event events) as [methods|] eqn:Hevent; cbn.
    + split; [by apply NoDup_keys_set|]. apply Forall_set; [done|]. by split.
    + split; [by apply NoDup_keys_set|]. apply Forall_set; [done|]. split; cbn.
      * unfold keys. rewrite fmap_app. apply NoDup_app. split; [done|].
        split; [|apply NoDup_singleton]. intros x Hx Hin.
        apply list_elem_of_singleton in Hin as ->. by apply get_None_keys in Hevent.
      * apply Forall_app. split; [done|]. apply Forall_singleton. constructor.
  - split.
    + apply NoDup_keys_set. unfold keys. rewrite fmap_app. apply NoDup_app.
      split; [done|]. split; [|apply NoDup_singleton]. intros x Hx Hin.
      apply list_elem_of_singleton in Hin as ->. by apply get_None_keys in Hobj.
    + apply Forall_set.
      * apply Forall_app. split; [done|]. apply Forall_singleton. split; constructor.
      * split; cbn; [apply NoDup_singleton|]. apply Forall_singleton. constructor.
Qed.

Lemma uniqueKeys_update obj event (f : Methods -> Methods) obs :
  (forall methods, NoDup (keys methods) -> NoDup (keys (f methods))) ->
  uniqueKeys obs -> uniqueKeys (update obj (update event f) obs).
Proof.
  intros Hf [Hkeys Hall]. split; [by rewrite keys_update|].
  apply Forall_update; [done|]. intros events [Hev Hms]. cbn [snd] in *.
  split; cbn [snd]; [by rewrite keys_update|].
  apply Forall_update; [done|]. intros methods. apply Hf.
Qed.

Lemma consistent_warning (s : State) text : consistent s -> consistent (withWarning s text).
Proof. done. Qed.

Lemma consistent_ensured (s : State) obj event :
  consistent s -> consistent (withObservations s (ensured obj event (observations s))).
Proof.
  intros (Hkeys & Hobs & Htags). split; [by apply uniqueKeys_ensured|]. split; [|done].
  intros obj' e' m' group tag priority.
  rewrite (observation_ensured_state s _ obj event) by done. apply Hobs.
Qed.

(** The state after the observer of an observation was taken off. *)
Lemma consistent_taken (s s' : State) (r : ref) event method group tag priority :
  consistent s ->
  observation s (Some r) event method = Some (group, tag, priority) ->
  observations s' = update (Some r) (update event (remove method)) (observations s) ->
  objects s' = <[r := {| Count := Count (object s r);
                         Observers := delete tag (Observers (object s r)) |}]> (objects s) ->
  consistent s'.
Proof.
  intros (Hkeys & Hobs & Htags) Hthere Hobs' Hobjs'. split; [|split].
  - rewrite Hobs'. apply uniqueKeys_update; [|done]. intros. by apply NoDup_keys_remove.
  - intros obj' e' m' g' t' p'. rewrite (observation_remove s s' _ _ _ _ _ _ Hobs').
    destruct (decide _) as [|Hne]; [done|]. intros Hother.
    destruct (Hobs _ _ _ _ _ _ Hother) as (r' & -> & Hobserver). exists r'. split; [done|].
    unfold observerOf in *. rewrite (object_insert s s' r r' _ Hobjs').
    destruct (decide (r = r')) as [<-|Hr]; [|done]. cbn.
    rewrite lookup_delete_ne; [done|]. intros <-.
    destruct (Hobs _ _ _ _ _ _ Hthere) as (r0 & [= <-] & Hmine).
    rewrite Hmine in Hobserver. injection Hobserver as <- <- <-. by apply Hne.
  - intros r' t' [o Ho]. unfold observerOf in *. rewrite (object_insert s s' r r' _ Hobjs') in *.
    destruct (decide (r = r')) as [<-|Hr]; [|by apply Htags; eauto]. cbn in *.
    apply lookup_delete_Some in Ho as [_ Ho]. apply Htags. eauto.
Qed.

Lemma consistent_addObserver (s : State) obj event method group priority :
  consistent s -> consistent (snd (addObserver obj event method group priority s)).
Proof.
  intros Hs. rewrite addObserver_run. cbv zeta.
  pose proof (consistent_ensured s obj event Hs) as Hs1.
  destruct (bool_decide _) eqn:Hobserved; [by apply consistent_warning|].
  apply bool_decide_eq_false in Hobserved.
  destruct obj as [r|]; [|done]. cbn [snd].
  set (s' := {| observations := _; objects := _; warnings := _ |}).
  destruct Hs as (Hkeys & Hobs & Htags). destruct Hs1 as (Hkeys1 & _ & _).
  assert (forall r' t, observerOf s' r' t
            = if decide (r = r') then
                <[Count (object s r) := {| event := event; command := method;
                                           priority := priority |}]>
                  (Observers (object s r)) !! t
              else observerOf s r' t) as Hobservers.
  { intros r' t. unfold observerOf. rewrite (object_insert s s' r r' _ eq_refl).
    by destruct (decide (r = r')) as [<-|]. }
  split; [|split].
  - apply (uniqueKeys_update _ _ _ (ensured (Some r) event (observations s))); [|done].
    intros. by apply NoDup_keys_set.
  - intros obj' e' m' g' t' p'. rewrite (observation_set s s' _ _ _ _ _ _ _ eq_refl).
    destruct (decide _) as [(<- & <- & <-)|Hne].
    + intros [= <- <- <-]. exists r. split; [done|].
      rewrite Hobservers, decide_True by done. apply lookup_insert_eq.
    + intros Hother. destruct (Hobs _ _ _ _ _ _ Hother) as (r' & -> & Hobserver).
      exists r'. split; [done|]. rewrite Hobservers.
      destruct (decide (r = r')) as [<-|Hr]; [|done].
      rewrite lookup_insert_ne; [done|]. intros <-.
      assert (Count (object s r) < Count (object s r)); [|lia].
      apply Htags. unfold observerOf in Hobserver. unfold observerOf. eauto.
  - intros r' t. rewrite Hobservers. unfold object at 2.
    rewrite (object_insert s s' r r' _ eq_refl).
    destruct (decide (r = r')) as [<-|Hr]; [|apply Htags]. cbn.
    intros [o Ho]. apply lookup_insert_Some in Ho as [[<- _]|[_ Ho]]; [lia|].
    assert (t < Count (object s r)); [|lia]. apply Htags. unfold observerOf. eauto.
Qed.

Lemma consistent_removeObserver (s : State) obj event method :
  consistent s -> consistent (snd (removeObserver obj event method s)).
Proof.
  intros Hs. rewrite removeObserver_run.
  destruct (observation s obj event method) as [[[group tag] priority]|] eqn:Hthere;
    [|by apply consistent_warning].
  destruct Hs as (Hkeys & Hobs & Htags).
  destruct (Hobs _ _ _ _ _ _ Hthere) as (r & -> & _).
  by apply (consistent_taken s _ r event method group tag priority).
Qed.

End Invariant.

(** ** Loops over the observations *)

Section Loops.
Import Statements Dict VTKObservationMixin.

(** The two loops of [removeObservers(method)] as one. *)
Lemma removeObservers_inner (method : Method) obj (events : Events) (s : State) :
  forAll events
    (fun '(e, _) =>
       methods ← methodsOf obj e;
       match get method methods with
       | Some (g, t, p) =>
           write (update obj (update e (remove method)));; RemoveObserver obj t
       | None => mret tt
       end) s
  = forAll (map (fun '(e, _) => (obj, e)) events) (fun '(obj, e) => takeOff method obj e) s.
Proof.
  revert s. induction events as [|[e methods] events IH]; intros s; [reflexivity|].
  cbn [map]. rewrite !forAll_cons. apply bind_ext. intros _ s1. apply IH.
Qed.

Lemma removeObservers_method (method : Method) (s : State) :
  removeObservers (Some method) s
  = forAll (visited (observations s)) (fun '(obj, e) => takeOff method obj e) s.
Proof.
  unfold removeObservers. rewrite bind_run. cbn [read].
  generalize (observations s) as obs. intros obs. revert s.
  induction obs as [|[obj events] obs IH]; intros s; [done|].
  unfold visited. cbn [flat_map]. fold (visited obs).
  rewrite forAll_cons, forAll_app, !bind_run, removeObservers_inner.
  destruct (forAll (map _ events) _ s) as [[?|[]] s1]; [done|]. apply IH.
Qed.

Lemma takeOff_run (method : Method) obj e (s : State) :
  takeOff method obj e s
  = match observation s obj e method with
    | Some (group, tag, priority) =>
        RemoveObserver obj tag
          (withObservations s (update obj (update e (remove method)) (observations s)))
    | None => (inr tt, s)
    end.
Proof.
  unfold takeOff, methodsOf, observation, withObservations.
  cbv beta iota zeta delta [mbind mret Run_bind Run_ret read write option_bind].
  destruct (get obj (observations s)) as [events|]; cbn; [|done].
  destruct (get e events) as [methods|]; cbn; [|done].
  destruct (get method methods) as [[[group tag] priority]|]; done.
Qed.

(** One turn of the inner loop. *)
Lemma takeOff_step (method : Method) obj e (s : State) :
  consistent s ->
  exists s',
    takeOff method obj e s = (inr tt, s')
    /\ consistent s'
    /\ warnings s' = warnings s
    /\ (forall obj' e' m',
          observation s' obj' e' m'
          = if decide (obj = obj' /\ e = e' /\ method = m') then None
            else observation s obj' e' m')
    /\ (forall r t, observerOf s r t = None -> observerOf s' r t = None)
    /\ (forall r g t p,
          obj = Some r -> observation s obj e method = Some (g, t, p) ->
          observerOf s' r t = None)
    /\ (forall r t,
          (forall g p, observation s obj e method = Some (g, t, p) -> obj <> Some r) ->
          observerOf s' r t = observerOf s r t).
Proof.
  intros Hs. rewrite takeOff_run.
  destruct (observation s obj e method) as [[[group tag] priority]|] eqn:Hthere.
  - destruct Hs as (Hkeys & Hobs & Htags).
    destruct (Hobs _ _ _ _ _ _ Hthere) as (r & -> & Hobserver).
    rewrite RemoveObserver_run.
    set (s' := {| observations := _; objects := _; warnings := _ |}).
    assert (forall r' t, observerOf s' r' t
              = if decide (r = r') then delete tag (Observers (object s r)) !! t
                else observerOf s r' t) as Hobservers.
    { intros r' t. unfold observerOf. rewrite (object_insert _ s' r r' _ eq_refl).
      by destruct (decide (r = r')) as [<-|]. }
    exists s'. split; [done|]. split.
    { by apply (consistent_taken s s' r e method group tag priority). }
    split; [done|]. split; [|split; [|split]].
    + intros obj' e' m'. by apply observation_remove.
    + intros r' t Hnone. rewrite Hobservers. destruct (decide (r = r')) as [<-|]; [|done].
      apply lookup_delete_None. by right.
    + intros r' g t p [= <-] [= <- <- <-]. rewrite Hobservers, decide_True by done.
      apply lookup_delete_eq.
    + intros r' t Hother. rewrite Hobservers. destruct (decide (r = r')) as [<-|]; [|done].
      destruct (decide (tag = t)) as [<-|Hne].
      * by destruct (Hother group priority eq_refl).
      * by rewrite lookup_delete_ne.
  - exists s. split; [done|]. split; [done|]. split; [done|]. split; [|split; [|split]].
    + intros obj' e' m'. destruct (decide _) as [(<- & <- & <-)|]; done.
    + done.
    + done.
    + done.
Qed.

(** All the turns of the loops. *)
Lemma takeOff_all (method : Method) (L : list (option ref * Z)) (s : State) :
  consistent s ->
  exists s',
    forAll L (fun '(obj, e) => takeOff method obj e) s = (inr tt, s')
    /\ consistent s'
    /\ warnings s' = warnings s
    /\ (forall obj e m',
          observation s' obj e m'
          = if decide (m' = method /\ (obj, e) ∈ L) then None
            else observation s obj e m')
    /\ (forall r t, observerOf s r t = None -> observerOf s' r t = None)
    /\ (forall r e g t p,
          (Some r, e) ∈ L -> observation s (Some r) e method = Some (g, t, p) ->
          observerOf s' r t = None)
    /\ (forall r t,
          (forall e g p, (Some r, e) ∈ L ->
                         observation s (Some r) e method <> Some (g, t, p)) ->
          observerOf s' r t = observerOf s r t).
Proof.
  revert s. induction L as [|[obj e] L IH]; intros s Hs.
  - exists s. rewrite forAll_nil. split; [done|]. split; [done|]. split; [done|].
    split; [|split; [|split]].
    + intros obj e m'. rewrite decide_False; [done|]. intros [_ Hin].
      by apply elem_of_nil in Hin.
    + done.
    + intros r e g t p Hin. by apply elem_of_nil in Hin.
    + done.
  - destruct (takeOff_step method obj e s Hs)
      as (s1 & Hstep & Hs1 & Hwarn1 & Hobs1 & Hgone1 & Hoff1 & Hkept1).
    destruct (IH s1 Hs1) as (s' & Hrest & Hs' & Hwarn & Hobs & Hgone & Hoff & Hkept).
    exists s'. rewrite forAll_cons, bind_run, Hstep. split; [exact Hrest|].
    split; [done|]. split; [congruence|]. split; [|split; [|split]].
    + intros obj' e' m'. rewrite Hobs, Hobs1.
      destruct (decide (m' = method /\ (obj', e') ∈ L)) as [[-> Hin]|Hout].
      * rewrite decide_True; [done|]. split; [done|]. by apply list_elem_of_further.
      * destruct (decide (obj = obj' /\ e = e' /\ method = m')) as [(<- & <- & <-)|Hne].
        -- rewrite decide_True; [done|]. split; [done|]. apply list_elem_of_here.
        -- rewrite decide_False; [done|]. intros [-> Hin].
           apply elem_of_cons in Hin as [[= <- <-]|Hin]; [by apply Hne|by apply Hout].
    + intros r t Hnone. by apply Hgone, Hgone1.
    + intros r e' g t p Hin Hthere.
      destruct (decide (obj = Some r /\ e = e')) as [[-> <-]|Hne].
      * apply Hgone. by apply (Hoff1 r g t p).
      * apply elem_of_cons in Hin as [[= <- <-]|Hin]; [by destruct Hne|].
        apply (Hoff r e' g t p Hin). rewrite Hobs1, decide_False; [done|].
        intros (? & ? & _). by apply Hne.
    + intros r t Hother. rewrite Hkept.
      * apply Hkept1. intros g p Hthere ->.
        apply (Hother e g p); [apply list_elem_of_here|done].
      * intros e' g p Hin. rewrite Hobs1. destruct (decide _); [done|].
        apply Hother. by apply list_elem_of_further.
Qed.

(** An observation is of an event the loops visit. *)
Lemma observation_visited (s : State) obj e m entry :
  observation s obj e m = Some entry -> (obj, e) ∈ visited (observations s).
Proof.
  unfold observation, visited. intros H.
  destruct (get obj (observations s)) as [events|] eqn:Hobj; [|done]. cbn in H.
  destruct (get e events) as [methods|] eqn:Hev; [|done].
  apply list_elem_of_In, in_flat_map. exists (obj, events). split.
  - by apply list_elem_of_In, get_Some_elem_of.
  - apply list_elem_of_In, list_elem_of_fmap. exists (e, methods).
    split; [done|]. by apply get_Some_elem_of.
Qed.

End Loops.

Section RemovingObservers.
Import Statements Dict VTKObservationMixin.

(** What the property [Observations] lists. *)
Lemma Observations_run (s : State) :
  exists all,
    Observations s = (inr all, s)
    /\ (forall obj e m g t p,
          observation s obj e m = Some (g, t, p) -> (obj, e, m, g, t, p) ∈ all)
    /\ (uniqueKeys (observations s) ->
        forall obj e m g t p,
          (obj, e, m, g, t, p) ∈ all -> observation s obj e m = Some (g, t, p)).
Proof.
  eexists. split; [reflexivity|]. split.
  - intros obj e m g t p Hthere. unfold observation in Hthere.
    destruct (get obj (observations s)) as [events|] eqn:Hobj; [|done]. cbn in Hthere.
    destruct (get e events) as [methods|] eqn:Hev; [|done]. cbn in Hthere.
    apply list_elem_of_In, in_flat_map. exists (obj, events).
    split; [by apply list_elem_of_In, get_Some_elem_of|].
    apply in_flat_map. exists (e, methods).
    split; [by apply list_elem_of_In, get_Some_elem_of|].
    apply list_elem_of_In, list_elem_of_fmap. exists (m, (g, t, p)).
    split; [done|]. by apply get_Some_elem_of.
  - intros [Hkeys Hall] obj e m g t p Hin.
    apply list_elem_of_In, in_flat_map in Hin as ([obj' events] & Hobj & Hin).
    apply in_flat_map in Hin as ([e' methods] & Hev & Hin).
    apply list_elem_of_In, list_elem_of_fmap in Hin as ([m' [[g' t'] p']] & [= -> -> -> -> -> ->] & Hm).
    apply list_elem_of_In in Hobj, Hev.
    assert (uniqueEvents (obj', events)) as [Hevents Hmethods].
    { by apply (proj1 (Forall_forall _ _) Hall). }
    assert (uniqueMethods (e', methods)) as Hunique.
    { by apply (proj1 (Forall_forall _ _) Hmethods). }
    unfold observation. rewrite (elem_of_get _ _ _ Hkeys Hobj). cbn.
    rewrite (elem_of_get _ _ _ Hevents Hev). cbn. by apply elem_of_get.
Qed.

(** Taking observers off objects, by their tags. *)
Lemma RemoveObserver_all (tags : list (ref * Z)) (s : State) :
  exists s',
    forAll tags (fun '(r, tag) => RemoveObserver (Some r) tag) s = (inr tt, s')
    /\ observations s' = observations s
    /\ warnings s' = warnings s
    /\ (forall r, Count (object s' r) = Count (object s r))
    /\ (forall r t, observerOf s' r t
                    = if decide ((r, t) ∈ tags) then None else observerOf s r t).
Proof.
  revert s. induction tags as [|[r tag] tags IH]; intros s.
  - exists s. rewrite forAll_nil. do 4 (split; [done|]). intros r t.
    rewrite decide_False; [done|]. apply not_elem_of_nil.
  - rewrite forAll_cons, bind_run, RemoveObserver_run.
    set (s1 := {| observations := _; objects := _; warnings := _ |}).
    destruct (IH s1) as (s' & -> & Hobs & Hwarn & Hcount & Hobservers).
    exists s'. split; [done|]. split; [done|]. split; [done|]. split.
    + intros r'. rewrite Hcount. rewrite (object_insert s s1 r r' _ eq_refl).
      by destruct (decide (r = r')) as [<-|].
    + intros r' t. rewrite Hobservers.
      destruct (decide ((r', t) ∈ tags)) as [Hin|Hout].
      * rewrite decide_True; [done|]. by apply list_elem_of_further.
      * unfold observerOf. rewrite (object_insert s s1 r r' _ eq_refl).
        destruct (decide (r = r')) as [<-|Hr].
        -- cbn. destruct (decide (tag = t)) as [<-|Ht].
           ++ rewrite decide_True by apply list_elem_of_here. apply lookup_delete_eq.
           ++ rewrite decide_False.
              ** by rewrite lookup_delete_ne.
              ** intros Hin. apply elem_of_cons in Hin as [[= ?]|Hin]; done.
        -- rewrite decide_False; [done|].
           intros Hin. apply elem_of_cons in Hin as [[= ? ?]|Hin]; done.
Qed.

Lemma removeObservers_None (s : State) :
  consistent s ->
  exists s',
    removeObservers None s = (inr tt, s')
    /\ observations s' = []
    /\ warnings s' = warnings s
    /\ (forall r, Count (object s' r) = Count (object s r))
    /\ (forall r tag, observedTag s r tag -> observerOf s' r tag = None)
    /\ (forall r tag, ~ observedTag s r tag -> observerOf s' r tag = observerOf s r tag).
Proof.
  intros (Hkeys & Hobs & Htags).
  destruct (Observations_run s) as (all & Hall & Hlisted & Hobserved).
  specialize (Hobserved Hkeys).
  unfold removeObservers. rewrite bind_run, Hall, bind_run.
  set (tagOf := fun x : option ref * Z * Method * string * Z * float =>
                  let '(obj, _, _, _, tag, _) := x in r ← obj; Some (r, tag)).
  assert (forall s0,
            forAll all (fun '(obj, _, _, _, tag, _) => RemoveObserver obj tag) s0
            = forAll (omap tagOf all) (fun '(r, tag) => RemoveObserver (Some r) tag) s0)
    as Hsame.
  { assert (forall x, x ∈ all -> is_Some (tagOf x)) as Hsome.
    { intros [[[[[obj e] m] g] t] p] Hin. destruct (Hobs _ _ _ _ _ _ (Hobserved _ _ _ _ _ _ Hin))
        as (r & -> & _). cbn. eauto. }
    clear - Hsome. induction all as [|[[[[[obj e] m] g] t] p] all IH]; intros s0; [done|].
    destruct (Hsome (obj, e, m, g, t, p)) as [[r t'] Hr]; [apply list_elem_of_here|].
    cbn [omap list_omap]. rewrite Hr. cbn in Hr. destruct obj as [r0|]; [|done].
    injection Hr as -> ->. rewrite !forAll_cons. apply bind_ext. intros _ s1.
    apply IH. intros x Hx. apply Hsome. by apply list_elem_of_further. }
  rewrite Hsame.
  destruct (RemoveObserver_all (omap tagOf all) s) as (s1 & -> & Hobs1 & Hwarn1 & Hcount1 & Hobservers).
  eexists. split; [reflexivity|]. cbn [observations warnings].
  split; [done|]. split; [done|]. split; [exact Hcount1|].
  assert (forall r tag, (r, tag) ∈ omap tagOf all <-> observedTag s r tag) as Htag.
  { intros r tag. rewrite list_elem_of_omap. split.
    - intros ([[[[[obj e] m] g] t] p] & Hin & Hx). cbn in Hx.
      destruct obj as [r0|]; [|done]. injection Hx as -> ->.
      exists e, m, g, p. by apply Hobserved.
    - intros (e & m & g & p & Hthere). exists (Some r, e, m, g, tag, p).
      split; [by apply Hlisted|done]. }
  split.
  - intros r tag Hin. apply Htag in Hin.
    change (observerOf s1 r tag = None). rewrite Hobservers. by rewrite decide_True.
  - intros r tag Hout. change (observerOf s1 r tag = observerOf s r tag).
    rewrite Hobservers. rewrite decide_False; [done|]. by rewrite Htag.
Qed.

Lemma consistent_removeObservers (s : State) (method : option Method) :
  consistent s -> consistent (snd (removeObservers method s)).
Proof.
  intros Hs. destruct method as [method|].
  - rewrite removeObservers_method.
    by destruct (takeOff_all method (visited (observations s)) s Hs) as (s' & -> & Hs' & _).
  - destruct (removeObservers_None s Hs) as (s' & -> & Hobs & _ & Hcount & Hgone & Hkept).
    cbn [snd]. destruct Hs as (Hkeys & Hobs0 & Htags). split; [|split].
    + rewrite Hobs. split; constructor.
    + intros obj e m g t p. unfold observation. by rewrite Hobs.
    + intros r t Hthere. rewrite Hcount. apply Htags.
      destruct (observerOf s r t) as [o|] eqn:Ho; [eauto|].
      assert (observerOf s' r t = None) as Hnone; [|rewrite Hnone in Hthere; by destruct Hthere].
      rewrite Hkept; [done|]. intros (e & m & g & p & Hobserved).
      destruct (Hobs0 _ _ _ _ _ _ Hobserved) as (r0 & [= <-] & Hthere0). congruence.
Qed.

(** X15: the observations of the mixin stay consistent with the
    observers of the objects: after [addObserver], [removeObserver] and
    [removeObservers], with any arguments, every key of the dicts is
    there once, every observation held is an observer of its object
    with the tag, the event, the method and the priority recorded, and
    the tags of an object are below its counter. *)
Theorem observations_stay_consistent (s : State) :
  consistent s ->
  (forall obj event method group priority,
     consistent (snd (addObserver obj event method group priority s)))
  /\ (forall obj event method, consistent (snd (removeObserver obj event method s)))
  /\ (forall method, consistent (snd (removeObservers method s))).
Proof.
  intros Hs. split; [|split].
  - intros. by apply consistent_addObserver.
  - intros. by apply consistent_removeObserver.
  - intros. by apply consistent_removeObservers.
Qed.

Lemma observingState_consistent : consistent observingState.
Proof.
  split; [|split].
  - split; [apply NoDup_singleton|]. apply Forall_singleton.
    split; [apply NoDup_singleton|]. apply Forall_singleton. apply NoDup_singleton.
  - intros obj e m g t p. unfold observation, observingState. cbn.
    destruct (decide (Some 1%positive = obj)) as [<-|]; [|done]. cbn.
    destruct (decide (33 = e)) as [<-|]; [|done]. cbn.
    destruct (decide ("onModified" = m)) as [<-|]; [|done].
    intros [= <- <- <-]. by exists 1%positive.
  - intros r t. unfold observerOf, object, observingState. cbn.
    destruct (decide (r = 1%positive)) as [->|Hr].
    + rewrite lookup_singleton_eq. cbn. intros [o Ho].
      apply lookup_singleton_Some in Ho as [<- _]. lia.
    + rewrite lookup_singleton_ne by done. cbn. rewrite lookup_empty. by intros [? ?].
Qed.

Lemma observations_stay_consistent_witness :
  consistent (snd (removeObservers None
                     (snd (addObserver (Some 2%positive) 33 "onModified" "none" 0%float
                             observingState)))).
Proof.
  apply (observations_stay_consistent
           (snd (addObserver (Some 2%positive) 33 "onModified" "none" 0%float
                   observingState))).
  apply consistent_addObserver, observingState_consistent.
Defined.

(** X16: from a consistent state, [removeObservers()] returns and
    leaves no observation; the observers of the observations are off
    their objects, and those are the only observers taken off. *)
Theorem removeObservers_all (s : State) :
  consistent s ->
  exists s',
    removeObservers None s = (inr tt, s')
    /\ Observations s' = (inr [], s')
    /\ (forall r tag, observedTag s r tag -> observerOf s' r tag = None)
    /\ (forall r tag, ~ observedTag s r tag -> observerOf s' r tag = observerOf s r tag).
Proof.
  intros Hs. destruct (removeObservers_None s Hs) as (s' & Hrun & Hobs & _ & _ & Hgone & Hkept).
  exists s'. split; [done|]. split; [|done].
  unfold Observations. rewrite bind_run. cbn [read]. by rewrite Hobs.
Qed.

Lemma removeObservers_all_witness :
  exists s',
    removeObservers None observingState = (inr tt, s')
    /\ Observations s' = (inr [], s')
    /\ (forall r tag, observedTag observingState r tag -> observerOf s' r tag = None)
    /\ (forall r tag, ~ observedTag observingState r tag ->
                      observerOf s' r tag = observerOf observingState r tag).
Proof. apply (removeObservers_all observingState), observingState_consistent. Defined.

(** X17: from a consistent state, [removeObservers(method)] returns and
    takes the method out for every event of every object: no
    observation of the method is left, the other observations are as
    before, and the observers taken off the objects are those of the
    observations of the method. *)
Theorem removeObservers_of_method (s : State) (method : Method) :
  consistent s ->
  exists s',
    removeObservers (Some method) s = (inr tt, s')
    /\ (forall obj e m',
          observation s' obj e m'
          = if decide (m' = method) then None else observation s obj e m')
    /\ (forall r e g t p,
          observation s (Some r) e method = Some (g, t, p) -> observerOf s' r t = None)
    /\ (forall r t,
          (forall e g p, observation s (Some r) e method <> Some (g, t, p)) ->
          observerOf s' r t = observerOf s r t).
Proof.
  intros Hs. rewrite removeObservers_method.
  destruct (takeOff_all method (visited (observations s)) s Hs)
    as (s' & -> & _ & _ & Hobs & _ & Hoff & Hkept).
  exists s'. split; [done|]. split; [|split].
  - intros obj e m'. rewrite Hobs. destruct (decide (m' = method)) as [->|Hne].
    + destruct (decide _) as [|Hout]; [done|].
      destruct (observation s obj e method) as [entry|] eqn:Hthere; [|done].
      destruct Hout. split; [done|]. by apply (observation_visited s obj e method entry).
    + rewrite decide_False; [done|]. intros [? _]. done.
  - intros r e g t p Hthere. apply (Hoff r e g t p); [|done].
    by apply (observation_visited s (Some r) e method (g, t, p)).
  - intros r t Hnone. apply Hkept. intros e g p _. apply Hnone.
Qed.

Lemma removeObservers_of_method_witness :
  exists s',
    removeObservers (Some "onModified") observingState = (inr tt, s')
    /\ (forall obj e m',
          observation s' obj e m'
          = if decide (m' = "onModified") then None else observation observingState obj e m')
    /\ (forall r e g t p,
          observation observingState (Some r) e "onModified" = Some (g, t, p) ->
          observerOf s' r t = None)
    /\ (forall r t,
          (forall e g p, observation observingState (Some r) e "onModified"
                         <> Some (g, t, p)) ->
          observerOf s' r t = observerOf observingState r t).
Proof.
  apply (removeObservers_of_method observingState "onModified"), observingState_consistent.
Defined.

End RemovingObservers.

(** ** The context managers of the module *)

Section Scoped.
Import Statements Dict ContextManagers.

Ltac gui_steps :=
  cbv beta iota zeta delta [mbind mret Run_bind Run_ret raise object getattr setattr
                            blockSignals item] in *.

(** The properties as the first loop leaves them, and what it records. *)
Lemma scoped_enter (qobject : ref) (properties acc : dict string Value)
    (w : gmap positive QObject) (o : QObject) :
  w !! qobject = Some o ->
  (forall name, name ∈ keys properties -> is_Some (attributes o !! name)) ->
  exists previousValues,
    forEach properties
      (fun '(propertyName, propertyValue) previousValues =>
         previous ← getattr qobject propertyName;
         setattr qobject propertyName propertyValue;;
         mret (set propertyName previous previousValues)) acc w
    = (inr previousValues,
       <[qobject := {| attributes := foldl (fun m '(n, v) => <[n := v]> m) (attributes o)
                                           properties;
                       signalsBlocked := signalsBlocked o |}]> w)
    /\ (forall name, name ∉ keys properties -> get name previousValues = get name acc)
    /\ (NoDup (keys properties) ->
        forall name, name ∈ keys properties ->
                     get name previousValues = attributes o !! name).
Proof.
  revert acc w o. induction properties as [|[n v] properties IH]; intros acc w o Ho Hall.
  - exists acc. cbn. split; [|split].
    + f_equal. destruct o. by rewrite insert_id.
    + done.
    + intros _ name Hin. by apply elem_of_nil in Hin.
  - destruct (Hall n) as [v0 Hv0]; [apply list_elem_of_here|].
    cbn [forEach foldl]. rewrite bind_run. gui_steps. rewrite Ho, Hv0. rewrite Ho.
    set (o1 := {| attributes := <[n := v]> (attributes o); signalsBlocked := _ |}).
    destruct (IH (set n v0 acc) (<[qobject := o1]> w) o1) as (prev & Hrun & Hother & Hlisted).
    { apply lookup_insert_eq. }
    { intros name Hin. cbn. destruct (decide (n = name)) as [<-|Hne].
      - rewrite lookup_insert_eq. eauto.
      - rewrite lookup_insert_ne by done. apply Hall. by apply list_elem_of_further. }
    exists prev. split; [|split].
    + rewrite Hrun. f_equal. by rewrite insert_insert_eq.
    + intros name Hout. apply not_elem_of_cons in Hout as [Hne Hout].
      rewrite Hother by done. apply get_set_ne. cbn in Hne. congruence.
    + intros Hnodup name Hin. cbn in Hnodup. apply NoDup_cons in Hnodup as [Hn Hnodup].
      apply elem_of_cons in Hin as [->|Hin].
      * cbn. rewrite Hother by done. by rewrite get_set_eq.
      * rewrite (Hlisted Hnodup name Hin). cbn. apply lookup_insert_ne.
        intros <-. by apply Hn.
Qed.

(** The properties set one after the other, for keys that are there once. *)
Lemma foldl_insert_union (properties : dict string Value) (m : gmap string Value) :
  NoDup (keys properties) ->
  foldl (fun m '(n, v) => <[n := v]> m) m properties = list_to_map properties ∪ m.
Proof.
  revert m. induction properties as [|[n v] properties IH]; intros m Hnodup; cbn.
  - by rewrite (left_id_L ∅ (∪)).
  - cbn in Hnodup. apply NoDup_cons in Hnodup as [Hn Hnodup]. rewrite IH by done.
    rewrite <- insert_union_l. apply symmetry, insert_union_r.
    by apply not_elem_of_list_to_map_1.
Qed.

(** The second loop puts the recorded values back. *)
Lemma scoped_exit (qobject : ref) (names : list string) (previousValues : dict string Value)
    (w : gmap positive QObject) (o : QObject) :
  w !! qobject = Some o ->
  (forall name, name ∈ names -> is_Some (get name previousValues)) ->
  exists o',
    forAll names
      (fun propertyName =>
         previous ← item previousValues propertyName;
         setattr qobject propertyName previous) w
    = (inr tt, <[qobject := o']> w)
    /\ signalsBlocked o' = signalsBlocked o
    /\ (forall name, name ∈ names -> attributes o' !! name = get name previousValues)
    /\ (forall name, name ∉ names -> attributes o' !! name = attributes o !! name).
Proof.
  revert w o. induction names as [|n names IH]; intros w o Ho Hall.
  - exists o. rewrite forAll_nil, insert_id by done. split; [done|]. split; [done|].
    split; [|done]. intros name Hin. by apply elem_of_nil in Hin.
  - destruct (Hall n) as [v Hv]; [apply list_elem_of_here|].
    rewrite forAll_cons, bind_run. gui_steps. rewrite Hv, Ho.
    set (o1 := {| attributes := <[n := v]> (attributes o); signalsBlocked := _ |}).
    destruct (IH (<[qobject := o1]> w) o1) as (o' & Hrun & Hblocked & Hlisted & Hother).
    { apply lookup_insert_eq. }
    { intros name Hin. apply Hall. by apply list_elem_of_further. }
    exists o'. rewrite Hrun, insert_insert_eq. split; [done|]. split; [done|]. split.
    + intros name Hin. destruct (decide (name ∈ names)) as [Hrest|Hrest]; [by apply Hlisted|].
      apply elem_of_cons in Hin as [->|Hin]; [|done].
      rewrite Hother by done. cbn. by rewrite lookup_insert_eq.
    + intros name Hout. apply not_elem_of_cons in Hout as [Hne Hout].
      rewrite Hother by done. cbn. by rewrite lookup_insert_ne.
Qed.

(** X18: in [with MyScopedQtPropertySetter(qobject, properties)], the
    body runs with the listed properties set to the listed values; when
    it returns, the listed properties have the values they had before
    the statement, whatever the body did to them, and the rest of the
    object is as the body left it. *)
Theorem scoped_properties_are_reset {A : Type} (qobject : ref)
    (properties : dict string Value) (body : Gui A)
    (w w2 : gmap positive QObject) (o o2 : QObject) (a : A) :
  NoDup (keys properties) ->
  w !! qobject = Some o ->
  (forall name, name ∈ keys properties -> is_Some (attributes o !! name)) ->
  body (withProperties qobject properties w) = (inr a, w2) ->
  w2 !! qobject = Some o2 ->
  exists o3,
    MyScopedQtPropertySetter qobject properties body w = (inr a, <[qobject := o3]> w2)
    /\ (forall name, name ∈ keys properties -> attributes o3 !! name = attributes o !! name)
    /\ (forall name, name ∉ keys properties -> attributes o3 !! name = attributes o2 !! name)
    /\ signalsBlocked o3 = signalsBlocked o2.
Proof.
  intros Hnodup Ho Hall Hbody Ho2. unfold MyScopedQtPropertySetter. cbv zeta.
  destruct (scoped_enter qobject properties [] w o Ho Hall)
    as (previousValues & Henter & _ & Hrecorded).
  specialize (Hrecorded Hnodup).
  rewrite bind_run, Henter, foldl_insert_union by done.
  assert (withProperties qobject properties w
          = <[qobject := {| attributes := list_to_map properties ∪ attributes o;
                            signalsBlocked := signalsBlocked o |}]> w) as Hentered.
  { unfold withProperties. apply map_eq. intros r.
    destruct (decide (qobject = r)) as [<-|Hne].
    - by rewrite lookup_alter_eq, lookup_insert_eq, Ho.
    - by rewrite lookup_alter_ne, lookup_insert_ne. }
  rewrite <- Hentered, bind_run, Hbody, bind_run.
  destruct (scoped_exit qobject (keys properties) previousValues w2 o2 Ho2)
    as (o3 & -> & Hblocked & Hlisted & Hother).
  { intros name Hin. rewrite Hrecorded by done. by apply Hall. }
  exists o3. split; [done|]. split; [|done].
  intros name Hin. rewrite Hlisted by done. by apply Hrecorded.
Qed.

Lemma scoped_properties_are_reset_witness :
  exists o3,
    MyScopedQtPropertySetter 1%positive [("enabled", VBool false)]
      (setattr 1%positive "enabled" (VInt 7);; setattr 1%positive "text" (VStr "Busy"))
      userInterface
    = (inr tt,
       <[1%positive := o3]>
         (snd ((setattr 1%positive "enabled" (VInt 7);;
                setattr 1%positive "text" (VStr "Busy"))
                 (withProperties 1%positive [("enabled", VBool false)] userInterface))))
    /\ (forall name, name ∈ keys [("enabled", VBool false)] ->
                     attributes o3 !! name = attributes button !! name)
    /\ (forall name, name ∉ keys [("enabled", VBool false)] ->
                     attributes o3 !! name
                     = attributes {| attributes := {[ "enabled" := VInt 7;
                                                      "text" := VStr "Busy" ]};
                                     signalsBlocked := false |} !! name)
    /\ signalsBlocked o3 = signalsBlocked {| attributes := {[ "enabled" := VInt 7;
                                                              "text" := VStr "Busy" ]};
                                             signalsBlocked := false |}.
Proof.
  apply (scoped_properties_are_reset 1%positive [("enabled", VBool false)] _ userInterface
           _ button).
  - apply NoDup_singleton.
  - reflexivity.
  - intros name Hin. apply list_elem_of_singleton in Hin as ->. by eexists.
  - vm_compute. reflexivity.
  - vm_compute. reflexivity.
Defined.

(** X19: when the body raises, [with MyScopedQtPropertySetter] raises
    the same exception and puts nothing back: the objects are as the
    body left them, the listed properties still set. *)
Theorem scoped_properties_stay_set {A : Type} (qobject : ref)
    (properties : dict string Value) (body : Gui A)
    (w w2 : gmap positive QObject) (o : QObject) (e : Exception) :
  NoDup (keys properties) ->
  w !! qobject = Some o ->
  (forall name, name ∈ keys properties -> is_Some (attributes o !! name)) ->
  body (withProperties qobject properties w) = (inl e, w2) ->
  MyScopedQtPropertySetter qobject properties body w = (inl e, w2).
Proof.
  intros Hnodup Ho Hall Hbody. unfold MyScopedQtPropertySetter. cbv zeta.
  destruct (scoped_enter qobject properties [] w o Ho Hall) as (previousValues & Henter & _).
  rewrite bind_run, Henter, foldl_insert_union by done.
  assert (withProperties qobject properties w
          = <[qobject := {| attributes := list_to_map properties ∪ attributes o;
                            signalsBlocked := signalsBlocked o |}]> w) as Hentered.
  { unfold withProperties. apply map_eq. intros r.
    destruct (decide (qobject = r)) as [<-|Hne].
    - by rewrite lookup_alter_eq, lookup_insert_eq, Ho.
    - by rewrite lookup_alter_ne, lookup_insert_ne. }
  by rewrite <- Hentered, bind_run, Hbody.
Qed.

Lemma scoped_properties_stay_set_witness :
  MyScopedQtPropertySetter 1%positive [("enabled", VBool false)]
    (raise (RuntimeError "failed") : Gui unit) userInterface
  = (inl (RuntimeError "failed"),
     withProperties 1%positive [("enabled", VBool false)] userInterface).
Proof.
  apply (scoped_properties_stay_set 1%positive [("enabled", VBool false)] _ userInterface
           _ button).
  - apply NoDup_singleton.
  - reflexivity.
  - intros name Hin. apply list_elem_of_singleton in Hin as ->. by eexists.
  - reflexivity.
Defined.

End Scoped.

Section Blocking.
Import Statements Dict ContextManagers.

Lemma blockSignals_run (q : ref) (block : bool) (w : gmap positive QObject) (o : QObject) :
  w !! q = Some o ->
  blockSignals q block w = (inr (signalsBlocked o), alter (withBlocked block) q w).
Proof.
  intros Ho. unfold blockSignals, object. rewrite bind_run, Ho. cbn. f_equal.
  apply map_eq. intros r. destruct (decide (q = r)) as [<-|Hne].
  - by rewrite lookup_alter_eq, lookup_insert_eq, Ho.
  - by rewrite lookup_alter_ne, lookup_insert_ne.
Qed.

Lemma blocking_enter (qobjects : list ref) (acc : list bool) (w : gmap positive QObject) :
  (forall q, q ∈ qobjects -> is_Some (w !! q)) ->
  forEach qobjects
    (fun qobject previousValues =>
       previous ← blockSignals qobject true;
       mret (previousValues ++ [previous])%list) acc w
  = (inr (acc ++ previousBlocked w qobjects)%list, allBlocked qobjects w).
Proof.
  revert acc w. induction qobjects as [|q qobjects IH]; intros acc w Halive.
  - cbn. by rewrite app_nil_r.
  - destruct (Halive q) as [o Ho]; [apply list_elem_of_here|].
    cbn [forEach previousBlocked allBlocked foldl]. rewrite !bind_run.
    rewrite (blockSignals_run q true w o Ho). cbn [mret Run_ret].
    rewrite IH.
    + rewrite Ho. cbn. by rewrite <- app_assoc.
    + intros q' Hin. destruct (decide (q = q')) as [<-|Hne].
      * rewrite lookup_alter_eq, Ho. by eexists.
      * rewrite lookup_alter_ne by done. apply Halive. by apply list_elem_of_further.
Qed.

Lemma length_previousBlocked (w : gmap positive QObject) (qobjects : list ref) :
  length (previousBlocked w qobjects) = length qobjects.
Proof. revert w. induction qobjects as [|q qobjects IH]; intros w; cbn; [done|by rewrite IH]. Qed.

Lemma blocking_exit (qobjects : list ref) (previousValues : list bool)
    (w : gmap positive QObject) :
  (forall q, q ∈ qobjects -> is_Some (w !! q)) ->
  length previousValues = length qobjects ->
  forZipStrict qobjects previousValues
    (fun qobject previousValue => blockSignals qobject previousValue;; mret tt) w
  = (inr tt,
     foldl (fun w '(q, p) => alter (withBlocked p) q w) w (zip qobjects previousValues)).
Proof.
  intros Halive Hlength. unfold forZipStrict. rewrite bind_run.
  rewrite bool_decide_eq_true_2 by done.
  assert (forAll (zip qobjects previousValues)
            (fun '(x, y) => blockSignals x y;; mret tt) w
          = (inr tt, foldl (fun w '(q, p) => alter (withBlocked p) q w) w
                       (zip qobjects previousValues))) as ->; [|done].
  clear Hlength. revert previousValues w Halive.
  induction qobjects as [|q qobjects IH]; intros [|p ps] w Halive; try done.
  destruct (Halive q) as [o Ho]; [apply list_elem_of_here|].
  cbn [zip zip_with foldl]. rewrite forAll_cons, !bind_run.
  rewrite (blockSignals_run q p w o Ho). cbn [mret Run_ret]. apply IH.
  intros q' Hin. destruct (decide (q = q')) as [<-|Hne].
  - rewrite lookup_alter_eq, Ho. by eexists.
  - rewrite lookup_alter_ne by done. apply Halive. by apply list_elem_of_further.
Qed.

Lemma occurrences_cons (q q0 : ref) (qobjects : list ref) :
  occurrences q (q0 :: qobjects)
  = if decide (q0 = q) then S (occurrences q qobjects) else occurrences q qobjects.
Proof. unfold occurrences. rewrite filter_cons. by destruct (decide (q0 = q)). Qed.

Lemma occurrences_elem_of (q : ref) (qobjects : list ref) :
  q ∈ qobjects <-> (0 < occurrences q qobjects)%nat.
Proof.
  induction qobjects as [|q0 qobjects IH].
  - split; [intros Hin; by apply elem_of_nil in Hin|cbn; lia].
  - rewrite occurrences_cons, elem_of_cons, IH.
    destruct (decide (q0 = q)) as [->|Hne]; [split; [lia|by left]|].
    split; [intros [?|?]; [congruence|done]|by right].
Qed.

(** The last value put back is the one that stays. *)
Lemma blocking_last (qobjects : list ref) (w w2 : gmap positive QObject) (q : ref) :
  (forall q, q ∈ qobjects -> is_Some (w !! q)) ->
  foldl (fun w '(q, p) => alter (withBlocked p) q w) w2
    (zip qobjects (previousBlocked w qobjects)) !! q
  = if decide (q ∈ qobjects)
    then withBlocked (bool_decide (1 < occurrences q qobjects)%nat
                      || default false (signalsBlocked <$> w !! q)) <$> w2 !! q
    else w2 !! q.
Proof.
  revert w w2. induction qobjects as [|q0 qobjects IH]; intros w w2 Halive.
  - cbn. rewrite decide_False; [done|]. apply not_elem_of_nil.
  - destruct (Halive q0) as [o Ho]; [apply list_elem_of_here|].
    cbn [previousBlocked zip zip_with foldl]. rewrite IH.
    2:{ intros q' Hin. destruct (decide (q0 = q')) as [<-|Hne].
        - rewrite lookup_alter_eq, Ho. by eexists.
        - rewrite lookup_alter_ne by done. apply Halive. by apply list_elem_of_further. }
    rewrite occurrences_cons.
    destruct (decide (q ∈ qobjects)) as [Hin|Hout].
    + rewrite decide_True by (by apply list_elem_of_further).
      apply occurrences_elem_of in Hin.
      destruct (decide (q0 = q)) as [->|Hne].
      * rewrite !lookup_alter_eq, Ho. cbn.
        rewrite (bool_decide_eq_true_2 (1 < S _)%nat) by lia.
        rewrite orb_true_r. cbn. by destruct (w2 !! q).
      * by rewrite !lookup_alter_ne.
    + destruct (decide (q0 = q)) as [->|Hne].
      * rewrite decide_True by apply list_elem_of_here.
        rewrite lookup_alter_eq.
        assert (occurrences q qobjects = 0%nat) as ->.
        { destruct (occurrences q qobjects) eqn:E; [done|].
          destruct Hout. apply occurrences_elem_of. lia. }
        rewrite bool_decide_eq_false_2 by lia. done.
      * rewrite lookup_alter_ne by done. rewrite decide_False; [done|].
        intros Hin. apply elem_of_cons in Hin as [?|?]; [congruence|done].
Qed.

(** X20: in [with MyObjectsBlockSignals(q1, q2, ...)], the body runs
    with the signals of the listed objects blocked; when it returns, an
    object listed once has its signals blocked or not as before the
    statement, whatever the body did, and an object listed more than
    once is left with its signals blocked. *)
Theorem blocked_signals_are_reset {A : Type} (qobjects : list ref) (body : Gui A)
    (w w2 : gmap positive QObject) (a : A) :
  (forall q, q ∈ qobjects -> is_Some (w !! q)) ->
  body (allBlocked qobjects w) = (inr a, w2) ->
  (forall q, q ∈ qobjects -> is_Some (w2 !! q)) ->
  exists w3,
    MyObjectsBlockSignals qobjects body w = (inr a, w3)
    /\ (forall q o o2,
          q ∈ qobjects -> w !! q = Some o -> w2 !! q = Some o2 ->
          w3 !! q
          = Some {| attributes := attributes o2;
                    signalsBlocked := bool_decide (1 < occurrences q qobjects)%nat
                                      || signalsBlocked o |})
    /\ (forall q, q ∉ qobjects -> w3 !! q = w2 !! q).
Proof.
  intros Halive Hbody Halive2. unfold MyObjectsBlockSignals. cbv zeta.
  rewrite bind_run, blocking_enter by done. cbn [app].
  rewrite bind_run, Hbody, bind_run.
  rewrite blocking_exit by (done || apply length_previousBlocked).
  eexists. split; [reflexivity|]. split.
  - intros q o o2 Hin Ho Ho2. rewrite blocking_last by done.
    by rewrite decide_True, Ho, Ho2.
  - intros q Hout. rewrite blocking_last by done. by rewrite decide_False.
Qed.

Lemma blocked_signals_are_reset_witness :
  exists w3,
    MyObjectsBlockSignals [1%positive; 2%positive; 1%positive]
      (setattr 2%positive "text" (VStr "Busy")) userInterface
    = (inr tt, w3)
    /\ (forall q o o2,
          q ∈ [1%positive; 2%positive; 1%positive] ->
          userInterface !! q = Some o ->
          snd (setattr 2%positive "text" (VStr "Busy")
                 (allBlocked [1%positive; 2%positive; 1%positive] userInterface)) !! q
          = Some o2 ->
          w3 !! q
          = Some {| attributes := attributes o2;
                    signalsBlocked :=
                      bool_decide (1 < occurrences q [1%positive; 2%positive; 1%positive])%nat
                      || signalsBlocked o |})
    /\ (forall q, q ∉ [1%positive; 2%positive; 1%positive] ->
          w3 !! q
          = snd (setattr 2%positive "text" (VStr "Busy")
                   (allBlocked [1%positive; 2%positive; 1%positive] userInterface)) !! q).
Proof.
  apply (blocked_signals_are_reset [1%positive; 2%positive; 1%positive] _ userInterface).
  - intros q Hin. apply elem_of_cons in Hin as [->|Hin]; [by eexists|].
    apply elem_of_cons in Hin as [->|Hin]; [by eexists|].
    apply list_elem_of_singleton in Hin as ->. by eexists.
  - vm_compute. reflexivity.
  - intros q Hin. apply elem_of_cons in Hin as [->|Hin]; [by eexists|].
    apply elem_of_cons in Hin as [->|Hin]; [by eexists|].
    apply list_elem_of_singleton in Hin as ->. by eexists.
Defined.

End Blocking.

(** ** Error display *)

Section ErrorDisplay.
Import Statements Display Widget.

Ltac app_steps :=
  cbv beta iota zeta delta [mbind mret Run_bind Run_ret raise tryExcept
                            app_testingEnabled mainWindowIsNone] in *.

Lemma errorDisplay_run (text : string) (app : Application) :
  errorDisplay text app
  = (inr tt, if raisesBox true app then afterBox text app else app).
Proof.
  unfold errorDisplay, _messageDisplay, messageBox, raisesBox, afterBox. app_steps.
  destruct (testingEnabled app) eqn:Htesting; cbn [negb andb]; [done|].
  destruct (hasMainWindow app); cbn [negb andb]; [|done].
  by rewrite Htesting.
Qed.

Lemma tryWithErrorDisplay_returns {A : Type} (message : option string)
    (show waitCursor : bool) (body : App A) (app app2 : Application) (a : A) :
  body (waiting waitCursor app) = (inr a, app2) ->
  tryWithErrorDisplay message show waitCursor body app = (inr a, restored waitCursor app2).
Proof.
  intros Hbody. unfold tryWithErrorDisplay, tryExcept. rewrite !bind_run.
  unfold waiting, restored in *. destruct waitCursor; cbn [setOverrideCursor snd] in *.
  - rewrite bind_run, Hbody. reflexivity.
  - cbn [mret Run_ret]. rewrite bind_run, Hbody. reflexivity.
Qed.

Lemma tryWithErrorDisplay_raises {A : Type} (message : option string)
    (show waitCursor : bool) (body : App A) (app app2 : Application) (e : Exception) :
  body (waiting waitCursor app) = (inl e, app2) ->
  tryWithErrorDisplay message show waitCursor body app
  = (inl e,
     if raisesBox show (restored waitCursor app2)
     then afterBox (errorText message e) (restored waitCursor app2)
     else restored waitCursor app2).
Proof.
  intros Hbody. unfold tryWithErrorDisplay, tryExcept. rewrite !bind_run.
  assert ((if waitCursor then setOverrideCursor Qt_WaitCursor else mret tt) app
          = (inr tt, waiting waitCursor app)) as ->.
  { unfold waiting. by destruct waitCursor. }
  rewrite bind_run, Hbody, bind_run.
  assert ((if waitCursor then restoreOverrideCursor else mret tt) app2
          = (inr tt, restored waitCursor app2)) as ->.
  { unfold restored. by destruct waitCursor. }
  rewrite bind_run. unfold app_testingEnabled at 1. rewrite bind_run.
  unfold raisesBox. fold (errorText message e).
  destruct show; cbn [andb].
  - destruct (testingEnabled (restored waitCursor app2)) eqn:Htesting; cbn [negb andb].
    + reflexivity.
    + rewrite errorDisplay_run. unfold raisesBox. rewrite Htesting. cbn [negb andb].
      by destruct (hasMainWindow (restored waitCursor app2)).
  - reflexivity.
Qed.

(** X21: [with tryWithErrorDisplay(message, show, waitCursor)] ends as
    its body ends: with the value the body returns, or with the
    exception the body raises. Either way the wait cursor it has set is
    taken back. When the body raises, and only then, an error box with
    the message and the text of the exception is raised, provided the
    display is asked for, the application is not in testing mode and it
    has a main window. *)
Theorem tryWithErrorDisplay_reraises {A : Type} (message : option string)
    (show waitCursor : bool) (body : App A) (app app2 : Application) :
  (forall a,
     body (waiting waitCursor app) = (inr a, app2) ->
     tryWithErrorDisplay message show waitCursor body app
     = (inr a, restored waitCursor app2))
  /\ (forall e,
        body (waiting waitCursor app) = (inl e, app2) ->
        tryWithErrorDisplay message show waitCursor body app
        = (inl e,
           if raisesBox show (restored waitCursor app2)
           then afterBox (errorText message e) (restored waitCursor app2)
           else restored waitCursor app2)).
Proof.
  split.
  - intros a. apply tryWithErrorDisplay_returns.
  - intros e. apply tryWithErrorDisplay_raises.
Qed.

Lemma tryWithErrorDisplay_reraises_witness :
  tryWithErrorDisplay (Some "Risky operation failed.") true true
    (raise (RuntimeError "no luck") : App unit) desktop
  = (inl (RuntimeError "no luck"),
     if raisesBox true (restored true (waiting true desktop))
     then afterBox (errorText (Some "Risky operation failed.") (RuntimeError "no luck"))
            (restored true (waiting true desktop))
     else restored true (waiting true desktop)).
Proof.
  apply (proj2 (tryWithErrorDisplay_reraises (Some "Risky operation failed.") true true
                  (raise (RuntimeError "no luck") : App unit) desktop
                  (waiting true desktop))).
  reflexivity.
Defined.

(** X22: in testing mode no display function raises a message box or
    changes the application, and the three functions that ask for a
    confirmation all answer [False]: the value handed back in testing
    mode is a [bool], which is none of the buttons it is compared with.
    Out of testing mode the confirmation is the button the user closes
    the box with. *)
Theorem confirmations_in_testing_mode (text : string) (app : Application) :
  (testingEnabled app = true ->
   confirmOkCancelDisplay text app = (inr false, app)
   /\ confirmYesNoDisplay text app = (inr false, app)
   /\ confirmRetryCloseDisplay text app = (inr false, app)
   /\ infoDisplay text app = (inr tt, app)
   /\ warningDisplay text app = (inr tt, app)
   /\ errorDisplay text app = (inr tt, app))
  /\ (testingEnabled app = false ->
      forall button rest, clicks app = button :: rest ->
      confirmOkCancelDisplay text app
      = (inr (button =? QMessageBox_Ok), afterBox text app)
      /\ confirmYesNoDisplay text app
         = (inr (button =? QMessageBox_Yes), afterBox text app)
      /\ confirmRetryCloseDisplay text app
         = (inr (button =? QMessageBox_Retry), afterBox text app)).
Proof.
  split.
  - intros Htesting. destruct app. cbn in Htesting. subst. done.
  - intros Htesting button rest Hclicks. destruct app. cbn in Htesting, Hclicks. subst.
    done.
Qed.

Lemma confirmations_in_testing_mode_witness :
  confirmOkCancelDisplay "Continue?" testBench = (inr false, testBench)
  /\ confirmOkCancelDisplay "Continue?" desktop
     = (inr (QMessageBox_Ok =? QMessageBox_Ok), afterBox "Continue?" desktop).
Proof.
  split.
  - apply (proj1 (confirmations_in_testing_mode "Continue?" testBench)). reflexivity.
  - apply (proj2 (confirmations_in_testing_mode "Continue?" desktop) eq_refl
             QMessageBox_Ok []).
    reflexivity.
Defined.

(** X23: [with WaitCursor(show)] takes back the wait cursor it has set
    whether its body returns or raises, and ends as its body ends. *)
Theorem WaitCursor_restores {A : Type} (show : bool) (body : App A)
    (app app2 : Application) (r : Exception + A) :
  body (waiting show app) = (r, app2) ->
  WaitCursor show body app = (r, restored show app2).
Proof.
  intros Hbody. unfold WaitCursor, with_. rewrite bind_run.
  unfold waiting, restored in *. destruct show; cbn [setOverrideCursor snd] in *.
  - rewrite Hbody. by destruct r.
  - cbn [mret Run_ret]. rewrite Hbody. by destruct r.
Qed.

Lemma WaitCursor_restores_witness :
  WaitCursor true (raise (RuntimeError "no luck") : App unit) desktop
  = (inl (RuntimeError "no luck"), restored true (waiting true desktop)).
Proof.
  apply (WaitCursor_restores true (raise (RuntimeError "no luck") : App unit) desktop
           (waiting true desktop)).
  reflexivity.
Defined.

Lemma inScene_run {A : Type} (m : Py A) (app : Application) :
  inScene m app = (fst (m (mrmlScene app)), withScene app (snd (m (mrmlScene app)))).
Proof. unfold inScene. by destruct (m (mrmlScene app)). Qed.

Lemma restored_waiting (app : Application) (w : World) :
  restored true (withScene (waiting true app) w) = withScene app w.
Proof. reflexivity. Qed.

Lemma withScene_same (app : Application) : withScene app (mrmlScene app) = app.
Proof. by destruct app. Qed.

(** X24: when the conversion raises, [onApplyButton] raises the same
    exception once it has taken back the wait cursor and, out of
    testing mode and with a main window, raised an error box with
    "Failed to compute results.", an empty line and the text of the
    exception; the scene, the active volume and the volume shown are as
    before the click. *)
Theorem onApplyButton_displays_error (p : option VectorToScalarVolumeParameterNode)
    (app : Application) (e : Exception) (w' : World) :
  run p (mrmlScene app) = (inl e, w') ->
  onApplyButton p app
  = (inl e,
     if raisesBox true app
     then afterBox (errorText (Some "Failed to compute results.") e) app
     else app).
Proof.
  intros Hrun.
  assert (w' = mrmlScene app) as ->.
  { destruct p as [p|]; [by apply (run_raises p _ _ e)|]. by injection Hrun as _ <-. }
  unfold onApplyButton.
  rewrite (tryWithErrorDisplay_raises _ _ _ _ app (waiting true app) e).
  - assert (restored true (waiting true app) = app) as -> by (by destruct app). done.
  - rewrite bind_run, inScene_run. change (mrmlScene (waiting true app)) with (mrmlScene app).
    rewrite Hrun. cbn [fst snd]. reflexivity.
Qed.

Lemma onApplyButton_displays_error_witness :
  onApplyButton (Some (parameters 1 2 SINGLE_COMPONENT 3)) desktop
  = (inl (ValueError
            (Some "component to extract (3) is invalid. Image has only 3 components.")),
     if raisesBox true desktop
     then afterBox (errorText (Some "Failed to compute results.")
                      (ValueError
                         (Some "component to extract (3) is invalid. Image has only 3 components.")))
            desktop
     else desktop).
Proof.
  apply (onApplyButton_displays_error (Some (parameters 1 2 SINGLE_COMPONENT 3)) desktop
           _ smallWorld).
  vm_compute. reflexivity.
Defined.

(** X25: when the conversion returns, [onApplyButton] returns with the
    converted scene, the output volume active in the selection node and
    shown in the slice views, the cursor as before the click and no
    message box. *)
Theorem onApplyButton_shows_output (p : VectorToScalarVolumeParameterNode)
    (app : Application) (w' : World) :
  run (Some p) (mrmlScene app) = (inr tt, w') ->
  exists ro no',
    OutputVolume p = Some ro /\ scene w' !! ro = Some no'
    /\ onApplyButton (Some p) app = (inr tt, showing (withScene app w') (ID no')).
Proof.
  intros Hrun.
  destruct (run_returns p _ _ Hrun)
    as (ri & ro & ni & no & img & Hi & Ho & Hne & Hni & Hno & Hid & Himg & Hv & Hw').
  set (no' := {| ID := ID no; IJKToRASMatrix := IJKToRASMatrix ni;
                 ImageData := VTK.GetOutput (chainOf (ConversionMethod p)
                                               (ComponentToExtract p) img) |}).
  assert (scene w' !! ro = Some no') as Hno'.
  { rewrite Hw'. unfold converted. cbn. apply lookup_insert_eq. }
  exists ro, no'. split; [done|]. split; [done|].
  unfold onApplyButton.
  rewrite (tryWithErrorDisplay_returns _ _ _ _ app
             (showing (withScene (waiting true app) w') (ID no')) tt).
  - reflexivity.
  - rewrite bind_run, inScene_run. change (mrmlScene (waiting true app)) with (mrmlScene app).
    rewrite Hrun. cbn [fst snd attribute]. rewrite bind_run. cbn [mret Run_ret].
    rewrite bind_run, inScene_run. cbn [withScene mrmlScene]. rewrite Ho.
    unfold GetID, node, attribute, deref.
    cbv beta iota zeta delta [mbind mret Run_bind Run_ret]. rewrite Hno'. reflexivity.
Qed.

Lemma onApplyButton_shows_output_witness :
  exists ro no',
    OutputVolume (parameters 1 2 LUMINANCE 0) = Some ro
    /\ scene (snd (run (Some (parameters 1 2 LUMINANCE 0)) smallWorld)) !! ro = Some no'
    /\ onApplyButton (Some (parameters 1 2 LUMINANCE 0)) desktop
       = (inr tt,
          showing (withScene desktop (snd (run (Some (parameters 1 2 LUMINANCE 0)) smallWorld)))
            (ID no')).
Proof.
  apply (onApplyButton_shows_output (parameters 1 2 LUMINANCE 0) desktop).
  vm_compute. reflexivity.
Defined.

End ErrorDisplay.

(** ** The Apply button and the output of a run *)

Section Applying.
Import Statements Display Widget.

(** What a passed validation has established of the component and of
    the number of components. *)
Lemma verdict_passed_method w ri ro ni no img cm c msg :
  scene w !! ri = Some ni -> scene w !! ro = Some no -> ImageData ni = Some img ->
  verdict w (Some ri) (Some ro) (Member cm) c = inr (true, msg) ->
  (cm = SINGLE_COMPONENT -> 0 <= c < GetNumberOfScalarComponents img)
  /\ (cm = LUMINANCE -> 3 <= GetNumberOfScalarComponents img).
Proof.
  intros Hni Hno Himg. unfold verdict. rewrite Hni, Hno, Himg.
  destruct (bool_decide (ID ni = ID no)); [discriminate|].
  unfold is_. destruct cm; members; cbn [andb negb].
  - destruct (Z.ltb_spec (GetNumberOfScalarComponents img) 3); [discriminate|].
    intros _. split; [discriminate|]. intros _. lia.
  - intros _. split; discriminate.
  - destruct (Z.leb_spec 0 c); destruct (Z.ltb_spec c (GetNumberOfScalarComponents img));
      cbn [andb negb]; try discriminate.
    intros _. split; [|discriminate]. intros _. lia.
Qed.

(** X26: when [updateGUIFromParameterNode] has disabled the Apply
    button for a parameter node, [run] with that parameter node raises
    in every scene and leaves the scene as it is: the button is never
    disabled for a conversion that would run. *)
Theorem disabled_apply_button (p : VectorToScalarVolumeParameterNode) (w : World) :
  applyButton_enabled p = false ->
  exists e, run (Some p) w = (inl e, w).
Proof.
  unfold applyButton_enabled, applyErrorMessage. intros Hdisabled.
  apply bool_decide_eq_false in Hdisabled.
  rewrite run_verdict. unfold verdict.
  destruct (InputVolume p) as [ri|]; [|eauto].
  destruct (OutputVolume p) as [ro|]; [|eauto].
  rewrite !bool_decide_eq_false_2 in Hdisabled by discriminate.
  destruct (is_ (ConversionMethod p) SINGLE_COMPONENT) eqn:Hsingle; [|done].
  destruct (Z.ltb_spec (ComponentToExtract p) 0) as [Hneg|]; [|done].
  destruct (scene w !! ri) as [ni|]; [|eauto].
  destruct (scene w !! ro) as [no|]; [|eauto].
  destruct (bool_decide (ID ni = ID no)); [eauto|].
  destruct (ImageData ni) as [img|]; [|eauto].
  destruct (Z.leb_spec 0 (ComponentToExtract p)); [lia|]. cbn [andb negb]. eauto.
Qed.

Lemma disabled_apply_button_witness :
  exists e, run (Some (parameters 1 2 SINGLE_COMPONENT (-1))) smallWorld = (inl e, smallWorld).
Proof.
  apply (disabled_apply_button (parameters 1 2 SINGLE_COMPONENT (-1)) smallWorld).
  reflexivity.
Defined.

(** An enabled button promises nothing: the luminance of an image of
    two components fails with the button enabled. *)
Example enabled_apply_button_may_fail :
  applyButton_enabled (parameters 3 2 LUMINANCE 0) = true
  /\ run (Some (parameters 3 2 LUMINANCE 0)) smallWorld
     = (inl (ValueError
               (Some ("input has only 2 components but requires "
                      ++ "at least 3 components for luminance conversion."))),
        smallWorld).
Proof. split; vm_compute; reflexivity. Qed.

Lemma extractComponents_shape (cs : list Z) (img out : vtkImageData) :
  extractComponents cs img = Some out ->
  NumberOfScalarComponents out = Pos.of_nat (length cs)
  /\ Dimensions out = Dimensions img /\ ScalarType out = ScalarType img
  /\ length (Voxels out) = length (Voxels img).
Proof.
  unfold extractComponents. destruct (forallb _ cs); [|discriminate].
  intros [= <-]. cbn. by rewrite length_map.
Qed.

Lemma accumulate_length (ws : list (float * vtkImageData)) (acc : list (list float)) (k : nat) :
  length acc = k -> Forall (fun wi => length (Voxels wi.2) = k) ws ->
  length (fold_left (fun acc wi => accumulate wi.1 acc wi.2) ws acc) = k.
Proof.
  revert acc. induction ws as [|[x img] ws IH]; intros acc Hacc Hall; [done|].
  apply Forall_cons in Hall as [Himg Hall]. cbn [fold_left]. apply IH; [|done].
  unfold accumulate. cbn in *. rewrite length_zip_with. lia.
Qed.

Lemma averageChain_shape (img : vtkImageData) :
  exists out, VTK.GetOutput (averageChain img) = Some out /\ scalarImageOf img out.
Proof.
  unfold averageChain.
  set (n := GetNumberOfScalarComponents img).
  set (chain := fun c : Z =>
         Cast VTK_DOUBLE (Some (ExtractComponents [c] (Some (ImageSource (Some img)))))).
  set (sum := WeightedSum _ false _).
  assert (exists s, VTK.GetOutput sum = Some s
                    /\ NumberOfScalarComponents s = 1%positive
                    /\ Dimensions s = Dimensions img
                    /\ length (Voxels s) = length (Voxels img)) as (s & Hs & Hone & Hdim & Hlen).
  { subst sum. cbn [VTK.GetOutput].
    assert (forall c, 0 <= c < n ->
              exists e, VTK.GetOutput (chain c) = Some e
                        /\ NumberOfScalarComponents e = 1%positive
                        /\ Dimensions e = Dimensions img
                        /\ length (Voxels e) = length (Voxels img)) as Hchain.
    { intros c Hc. destruct (extractComponents_single img c Hc) as [e He].
      destruct (extractComponents_shape _ _ _ He) as (Hn & Hd & _ & Hl).
      exists (cast VTK_DOUBLE e). unfold chain. cbn [VTK.GetOutput]. cbn. rewrite He. cbn.
      split; [done|]. rewrite length_map. done. }
    destruct (mapM VTK.GetOutput (map chain (range n))) as [imgs|] eqn:Hm.
    - assert (Forall (fun e => NumberOfScalarComponents e = 1%positive
                               /\ Dimensions e = Dimensions img
                               /\ length (Voxels e) = length (Voxels img)) imgs) as Hall.
      { apply mapM_Some_1 in Hm. apply Forall_forall. intros e He.
        apply list_elem_of_lookup in He as [i Hi].
        destruct (Forall2_lookup_r _ _ _ _ _ Hm Hi) as (q & Hq & Hout).
        apply list_lookup_fmap_Some in Hq as (c & -> & Hc).
        apply list_elem_of_lookup_2, list_elem_of_In, range_bounds in Hc.
        destruct (Hchain c Hc) as (e' & He' & ?). congruence. }
      assert (length imgs = Z.to_nat n) as Hlength.
      { apply length_mapM in Hm. rewrite length_map, length_range in Hm. congruence. }
      destruct imgs as [|first imgs].
      + cbn in Hlength. subst n. unfold GetNumberOfScalarComponents in Hlength. lia.
      + pose proof Hall as Hall'. apply Forall_cons in Hall' as [(Hone & Hdim & Hlen) _].
        cbn [weightedSum mbind option_bind]. eexists. split; [reflexivity|]. cbn.
        split; [done|]. split; [done|]. rewrite length_map.
        apply accumulate_length; [by rewrite length_map|].
        apply Forall_forall. intros [x e] Hin. cbn.
        apply elem_of_zip_r in Hin. cbn in Hin.
        by destruct (proj1 (Forall_forall _ _) Hall e Hin) as (_ & _ & ?).
    - exfalso. apply eq_None_not_Some in Hm. apply Hm.
      apply mapM_is_Some, Forall_forall. intros q Hq.
      apply list_elem_of_In, in_map_iff in Hq. destruct Hq as (c & <- & Hc).
      apply range_bounds in Hc. destruct (Hchain c Hc) as (e & He & _). by exists e. }
  unfold scalarImageOf, GetNumberOfScalarComponents.
  destruct (isFloatingType (ScalarType img)); cbn [VTK.GetOutput]; rewrite Hs; cbn;
    eexists; (split; [reflexivity|]); cbn; rewrite ?length_map, Hone; done.
Qed.

(** X27: a run that returns has made a scalar volume of the input: the
    output node has an image with one component, with the dimensions,
    the scalar type and the number of voxels of the image of the input
    node, for each of the three methods. *)
Theorem run_makes_scalar_volume (p : VectorToScalarVolumeParameterNode) (w w' : World) :
  run (Some p) w = (inr tt, w') ->
  exists input output,
    imageOf w (InputVolume p) = Some input
    /\ imageOf w' (OutputVolume p) = Some output
    /\ GetNumberOfScalarComponents output = 1
    /\ Dimensions output = Dimensions input
    /\ ScalarType output = ScalarType input
    /\ length (Voxels output) = length (Voxels input).
Proof.
  intros Hrun.
  destruct (run_returns _ _ _ Hrun)
    as (ri & ro & ni & no & img & Hi & Ho & Hne & Hni & Hno & Hid & Himg & Hv & Hw').
  rewrite Hi, Ho in Hv.
  destruct (verdict_passed_method _ _ _ _ _ _ _ _ _ Hni Hno Himg Hv) as [Hsingle Hluminance].
  assert (exists out, VTK.GetOutput (chainOf (ConversionMethod p) (ComponentToExtract p) img)
                      = Some out /\ scalarImageOf img out) as (out & Hout & Hshape).
  { destruct (ConversionMethod p); cbn [chainOf].
    - specialize (Hluminance eq_refl). unfold luminanceChain. cbn [VTK.GetOutput].
      cbn [mbind option_bind].
      assert (is_Some (extractComponents [0; 1; 2] img)) as [e He].
      { unfold extractComponents. cbn [forallb].
        destruct (Z.ltb_spec 0 (GetNumberOfScalarComponents img)); [|lia].
        destruct (Z.ltb_spec 1 (GetNumberOfScalarComponents img)); [|lia].
        destruct (Z.ltb_spec 2 (GetNumberOfScalarComponents img)); [|lia].
        cbn. eauto. }
      rewrite He. destruct (extractComponents_shape _ _ _ He) as (Hn & Hd & Ht & Hl).
      unfold luminance, GetNumberOfScalarComponents. cbn [mbind option_bind]. rewrite Hn. cbn.
      eexists. split; [reflexivity|]. unfold scalarImageOf. cbn. rewrite length_map. done.
    - apply averageChain_shape.
    - specialize (Hsingle eq_refl). unfold singleComponentChain. cbn [VTK.GetOutput].
      cbn [mbind option_bind].
      destruct (extractComponents_single img _ Hsingle) as [e He]. rewrite He.
      destruct (extractComponents_shape _ _ _ He) as (Hn & Hd & Ht & Hl).
      exists e. split; [done|]. unfold scalarImageOf, GetNumberOfScalarComponents.
      rewrite Hn. done. }
  exists img, out. split.
  { unfold imageOf. rewrite Hi. cbn. rewrite Hni. exact Himg. }
  split; [by rewrite Ho, Hw', imageOf_converted|]. exact Hshape.
Qed.

Lemma run_makes_scalar_volume_witness :
  exists input output,
    imageOf smallWorld (InputVolume (parameters 1 2 AVERAGE 0)) = Some input
    /\ imageOf (snd (run (Some (parameters 1 2 AVERAGE 0)) smallWorld))
         (OutputVolume (parameters 1 2 AVERAGE 0)) = Some output
    /\ GetNumberOfScalarComponents output = 1
    /\ Dimensions output = Dimensions input
    /\ ScalarType output = ScalarType input
    /\ length (Voxels output) = length (Voxels input).
Proof.
  apply (run_makes_scalar_volume (parameters 1 2 AVERAGE 0) smallWorld).
  vm_compute. reflexivity.
Defined.

End Applying.

(** ** Working directories *)

Section WorkingDirectories.
Import Statements WorkingDirectory.

(** X28: [with chdir(path)] runs its body in the directory of the path
    and, whether the body returns or raises, goes back to the directory
    it was entered in, provided that directory can still be reached and
    the body has left the list of the object as it found it (as a
    nested [with] of the same object does); the statement ends as its
    body ends. When the directory of the path cannot be reached, the
    statement raises without running its body, in the directory it was
    in, and the object keeps the directory it has recorded. *)
Theorem chdir_goes_back {A : Type} (path : string) (body : Proc A) (p : Process) :
  (forall directory p2 r,
     reach p (cwd p) path = Some directory ->
     body {| cwd := directory; reach := reach p; _old_cwd := (_old_cwd p ++ [cwd p])%list |}
     = (r, p2) ->
     _old_cwd p2 = (_old_cwd p ++ [cwd p])%list ->
     reach p2 (cwd p2) (cwd p) = Some (cwd p) ->
     chdir path body p
     = (r, {| cwd := cwd p; reach := reach p2; _old_cwd := _old_cwd p |}))
  /\ (reach p (cwd p) path = None ->
      chdir path body p
      = (inl (FileNotFoundError path),
         {| cwd := cwd p; reach := reach p; _old_cwd := (_old_cwd p ++ [cwd p])%list |})).
Proof.
  split.
  - intros directory p2 r Hreach Hbody Hlist Hback.
    unfold chdir, with_, __enter__, __exit__, getcwd, append, os_chdir, pop.
    cbv beta iota zeta delta [mbind mret Run_bind Run_ret raise]. cbn [cwd reach _old_cwd].
    rewrite Hreach, Hbody. destruct r; cbn [cwd reach _old_cwd];
      rewrite Hlist, last_snoc, removelast_last; cbn [cwd reach _old_cwd]; by rewrite Hback.
  - intros Hreach.
    unfold chdir, with_, __enter__, getcwd, append, os_chdir.
    cbv beta iota zeta delta [mbind mret Run_bind Run_ret raise]. cbn [cwd reach _old_cwd].
    by rewrite Hreach.
Qed.

Lemma chdir_goes_back_witness :
  chdir "/tmp" (chdir "/home/data" (raise (RuntimeError "no luck") : Proc unit)) shell
  = (inl (RuntimeError "no luck"), shell)
  /\ chdir "/nowhere" (mret tt) shell
     = (inl (FileNotFoundError "/nowhere"),
        {| cwd := "/home"; reach := reach shell; _old_cwd := ["/home"] |}).
Proof.
  split.
  - apply (proj1 (chdir_goes_back "/tmp"
                    (chdir "/home/data" (raise (RuntimeError "no luck") : Proc unit)) shell)
             "/tmp" {| cwd := "/tmp"; reach := reach shell; _old_cwd := ["/home"] |}
             (inl (RuntimeError "no luck"))); reflexivity.
  - apply (proj2 (chdir_goes_back "/nowhere" (mret tt) shell)). reflexivity.
Defined.

End WorkingDirectories.
